(** * shibsp-redis: a Redis storage back end for the Shibboleth SP

    A shallow embedding of the routing and storage core of the plugin
    (hash slots, storage identifiers, slot ranges, the reply classifier,
    the versioned storage protocol of [RedisConnection] and the router
    [RedisCluster]) together with the properties its specification states.

    Conventions.
    - [unsigned int] is 32 bits wide, [int] is 32 bits, [long long] and
      [unsigned long] are 64 bits (LP64); a value of such a type is a [Z]
      and every wrap-around is written out ([u32], [to_int]).
    - [char] is signed (the x86-64 ABI); a byte of a C string is an [ascii].
    - A C++ function that can throw returns an [outcome]: a value, the
      exception thrown, or [Undefined] when the source steps outside the
      language (a null dereference, an index past the end of an array, a
      shift by the width of the type).
    - Of the log, the entries from notice upwards are kept, with their
      fixed texts; debug and info entries are left out.
    - The router's shared mutex is not modelled: one call runs on the
      router at a time.  Other clients of a Redis server are, as the
      commands they get done between two of ours. *)

From Stdlib Require Import ZArith List String Ascii Bool Lia.
From stdpp Require Import gmap strings pretty.

Local Open Scope string_scope.
Local Open Scope Z_scope.

(** ** Machine integers *)

Definition u32 (x : Z) : Z := x mod 2 ^ 32.
Definition UINT_MAX : Z := 2 ^ 32 - 1.
Definition INT_MAX : Z := 2 ^ 31 - 1.
Definition INT_MIN : Z := - 2 ^ 31.
Definition ULONG_MAX : Z := 2 ^ 64 - 1.

(** Conversion of an integer to [int] (two's complement, modular). *)
Definition to_int (x : Z) : Z := (x + 2 ^ 31) mod 2 ^ 32 - 2 ^ 31.

(** Conversion to [unsigned short]. *)
Definition u16 (x : Z) : Z := x mod 2 ^ 16.

(** ** Outcomes of a call *)

Inductive Exn : Type :=
  | ConnectionLostException
  | RedirectedException (to_host : string) (to_port : Z)
  | IOException
  | XMLToolingException
  | StdException.

Inductive outcome (A : Type) : Type :=
  | Ret (a : A)
  | Throw (e : Exn)
  | Undefined.
Arguments Ret {A} a.
Arguments Throw {A} e.
Arguments Undefined {A}.

(** ** redis-crc-16.h: the CRC16 used for hash slots *)

Module RedisCrc16.

(** The reference algorithm, after the specification's words: CRC16-XMODEM,
    polynomial 0x1021, initial value 0, input and output not reflected,
    no final XOR.  One bit at a time, most significant bit first. *)
Definition xmodem_bit (crc : Z) : Z :=
  if Z.testbit crc 15
  then Z.land (Z.lxor (Z.shiftl crc 1) 0x1021) 0xFFFF
  else Z.land (Z.shiftl crc 1) 0xFFFF.

Definition xmodem_rounds (crc : Z) : Z := Nat.iter 8 xmodem_bit crc.

Definition xmodem_byte (crc : Z) (b : ascii) : Z :=
  xmodem_rounds (Z.lxor crc (Z.shiftl (Z.of_N (N_of_ascii b)) 8)).

Definition crc16_xmodem (s : string) : Z :=
  fold_left xmodem_byte (list_ascii_of_string s) 0.

(** Modelled from the spec: [Initial], [HashSlotCount] and the table
    [Crc16Constants] are declared in redis-crc-16.h and defined in
    redis-crc-16.cpp, which is missing.  The specification fixes them: the
    initial value is 0, there are 16384 hash slots, and the table is the
    CRC16-XMODEM table of polynomial 0x1021 (entry [i] is the CRC of the
    single byte [i]). *)
Definition Initial : Z := 0.
Definition HashSlotCount : Z := 16384.
Definition Crc16Constants : list Z :=
  Eval vm_compute in
    map (fun i => xmodem_rounds (Z.shiftl (Z.of_nat i) 8)) (seq 0 256).

(** [static_cast<unsigned int>(byte)] for a signed [char]. *)
Definition char_to_unsigned (byte : ascii) : Z :=
  let b := Z.of_N (N_of_ascii byte) in
  if b <? 128 then b else u32 (b - 256).

(** [operator()(accumulator, byte)]. *)
Definition call (accumulator : Z) (byte : ascii) : Z :=
  Z.lxor (Z.land (u32 (Z.shiftl accumulator 8)) 0xFFFF)
         (nth (Z.to_nat (Z.land (Z.lxor (Z.shiftr accumulator 8)
                                        (char_to_unsigned byte)) 0xFF))
              Crc16Constants 0).

(** [calculate(begin, end, initial)] is [std::accumulate] over the range. *)
Definition calculate (range : string) (initial : Z) : Z :=
  fold_left call (list_ascii_of_string range) initial.

End RedisCrc16.

(** ** storage-id.h *)

Record StorageId : Type := mkStorageId {
  context : string;
  key : string;
  prefix : string
}.

(** [hashSlotUsing<RedisCrc16>()]: the CRC is carried through the four
    pieces, the concatenation is never built. *)
Definition hashSlotUsing (id : StorageId) : Z :=
  let context := RedisCrc16.calculate (context id) RedisCrc16.Initial in
  let colon := RedisCrc16.calculate ":" context in
  let prefix := RedisCrc16.calculate (prefix id) colon in
  let total := RedisCrc16.calculate (key id) prefix in
  total mod RedisCrc16.HashSlotCount.

(** [SPREDIS_SID_FMT] applied to [SPREDIS_SID_FPARAM(id)]: the data key as
    it is sent to the server, and its companion version key. *)
Definition SPREDIS_SID (id : StorageId) : string :=
  "{" ++ context id ++ ":" ++ prefix id ++ key id ++ "}".

Definition version_of (id : StorageId) : string :=
  "version.of:" ++ SPREDIS_SID id.

(** ** cluster-range.h *)

Record ClusterRange : Type := mkClusterRange {
  m_start : Z;
  m_end : Z
}.

Module ClusterRange.

Definition HashSlots : Z := 16384.

(** The constructor; its arguments are already [unsigned int]. *)
Definition make (m_start m_end : Z) : outcome ClusterRange :=
  if m_end <? m_start then Throw XMLToolingException
  else if HashSlots <=? m_end then Throw XMLToolingException
  else Ret (mkClusterRange m_start m_end).

Definition from (r : ClusterRange) : Z := to_int (m_start r).
Definition to (r : ClusterRange) : Z := to_int (m_end r).

Definition compare (lhs rhs : ClusterRange) : Z :=
  if m_start lhs <? m_start rhs then -1
  else if m_start lhs >? m_start rhs then 1
  else if m_end lhs <? m_end rhs then -1
  else if m_end lhs >? m_end rhs then 1
  else 0.

Definition compare_id (r : ClusterRange) (id : StorageId) : Z :=
  let hashSlot := hashSlotUsing id mod HashSlots in
  if hashSlot <? m_start r then 1
  else if hashSlot >? m_end r then -1
  else 0.

(** The member comparison operators on two ranges. *)
Definition operator_lt (lhs rhs : ClusterRange) : bool := compare lhs rhs <? 0.
Definition operator_le (lhs rhs : ClusterRange) : bool := compare lhs rhs <? 0.
Definition operator_gt (lhs rhs : ClusterRange) : bool := compare lhs rhs >? 0.
Definition operator_ge (lhs rhs : ClusterRange) : bool := compare lhs rhs >=? 0.
Definition operator_eq (lhs rhs : ClusterRange) : bool := compare lhs rhs =? 0.
Definition operator_ne (lhs rhs : ClusterRange) : bool := negb (compare lhs rhs =? 0).

(** The friend operators of a range against a storage id ... *)
Definition operator_lt_id (lhs : ClusterRange) (rhs : StorageId) : bool := compare_id lhs rhs <? 0.
Definition operator_le_id (lhs : ClusterRange) (rhs : StorageId) : bool := compare_id lhs rhs <=? 0.
Definition operator_gt_id (lhs : ClusterRange) (rhs : StorageId) : bool := compare_id lhs rhs >? 0.
Definition operator_ge_id (lhs : ClusterRange) (rhs : StorageId) : bool := compare_id lhs rhs >=? 0.
Definition operator_eq_id (lhs : ClusterRange) (rhs : StorageId) : bool := compare_id lhs rhs =? 0.

(** ... and of a storage id against a range. *)
Definition id_operator_lt (lhs : StorageId) (rhs : ClusterRange) : bool := compare_id rhs lhs >? 0.
Definition id_operator_le (lhs : StorageId) (rhs : ClusterRange) : bool := compare_id rhs lhs >=? 0.
Definition id_operator_gt (lhs : StorageId) (rhs : ClusterRange) : bool := compare_id rhs lhs <? 0.
Definition id_operator_ge (lhs : StorageId) (rhs : ClusterRange) : bool := compare_id rhs lhs <=? 0.

End ClusterRange.

(** ** std::string, as far as the plugin uses it *)

Module StdString.

(** [size_t] is 64 bits wide; [npos] is its largest value. *)
Definition size_t (x : Z) : Z := x mod 2 ^ 64.
Definition npos : Z := 2 ^ 64 - 1.

Definition size (s : string) : Z := Z.of_nat (String.length s).

(** [s.substr(pos, n)]: [None] stands for [std::out_of_range]. *)
Definition substr (s : string) (pos n : Z) : option string :=
  if pos >? size s then None
  else Some (String.substring (Z.to_nat pos)
                              (Z.to_nat (Z.min n (size s - pos))) s).

(** [s.substr(pos)], the count defaulted to [npos]. *)
Definition substr_from (s : string) (pos : Z) : option string :=
  substr s pos npos.

Fixpoint find_aux (ch : ascii) (s : string) (i : Z) : Z :=
  match s with
  | EmptyString => npos
  | String c s' => if Ascii.eqb c ch then i else find_aux ch s' (i + 1)
  end.

(** [s.find(ch, pos)]. *)
Definition find (s : string) (ch : ascii) (pos : Z) : Z :=
  if pos <? size s
  then find_aux ch (String.substring (Z.to_nat pos) (String.length s) s) pos
  else npos.

(** [isspace] in the C locale. *)
Definition isspace (c : ascii) : bool :=
  let n := N_of_ascii c in
  (n =? 32)%N || ((9 <=? n)%N && (n <=? 13)%N).

Definition digit (c : ascii) : option Z :=
  let n := Z.of_N (N_of_ascii c) in
  if (48 <=? n) && (n <=? 57) then Some (n - 48) else None.

Fixpoint skip_space (s : string) : string :=
  match s with
  | String c s' => if isspace c then skip_space s' else s
  | EmptyString => s
  end.

(** The longest run of decimal digits at the front of [s], as a number;
    [None] when [s] does not start with a digit. *)
Fixpoint digits (s : string) (acc : option Z) : option Z :=
  match s with
  | String c s' =>
      match digit c with
      | Some d => digits s' (Some (10 * default 0 acc + d))
      | None => acc
      end
  | EmptyString => acc
  end.

Inductive conversion : Type :=
  | Converted (v : Z)
  | invalid_argument
  | out_of_range.

(** The subject sequence of [strtol]/[strtoul] in base 10: white space,
    an optional sign, digits. *)
Definition subject (s : string) : bool * option Z :=
  match skip_space s with
  | String "-" s' => (true, digits s' None)
  | String "+" s' => (false, digits s' None)
  | s' => (false, digits s' None)
  end.

(** [std::stoul]: [strtoul] negates in [unsigned long]. *)
Definition stoul (s : string) : conversion :=
  match subject s with
  | (_, None) => invalid_argument
  | (neg, Some v) =>
      if v >? ULONG_MAX then out_of_range
      else Converted (if neg then (2 ^ 64 - v) mod 2 ^ 64 else v)
  end.

(** [std::stoi]: [strtol], then the range of [int]. *)
Definition stoi (s : string) : conversion :=
  match subject s with
  | (_, None) => invalid_argument
  | (neg, Some v) =>
      let v' := if neg then - v else v in
      if (v' <? INT_MIN) || (v' >? INT_MAX) then out_of_range
      else Converted v'
  end.

End StdString.

(** ** hiredis: replies and commands *)

#[warnings="-register-all"]
Inductive redisReply : Type :=
  | REPLY_STRING (str : string)
  | REPLY_ARRAY (element : list redisReply)
  | REPLY_INTEGER (integer : Z)
  | REPLY_NIL
  | REPLY_STATUS (str : string)
  | REPLY_ERROR (str : string).

Definition REDIS_REPLY_STRING : Z := 1.
Definition REDIS_REPLY_ARRAY : Z := 2.
Definition REDIS_REPLY_INTEGER : Z := 3.
Definition REDIS_REPLY_NIL : Z := 4.
Definition REDIS_REPLY_STATUS : Z := 5.
Definition REDIS_REPLY_ERROR : Z := 6.

Module Reply.

Definition type (r : redisReply) : Z :=
  match r with
  | REPLY_STRING _ => REDIS_REPLY_STRING
  | REPLY_ARRAY _ => REDIS_REPLY_ARRAY
  | REPLY_INTEGER _ => REDIS_REPLY_INTEGER
  | REPLY_NIL => REDIS_REPLY_NIL
  | REPLY_STATUS _ => REDIS_REPLY_STATUS
  | REPLY_ERROR _ => REDIS_REPLY_ERROR
  end.

(** [r->elements]: zero unless [r] is an array. *)
Definition elements (r : redisReply) : Z :=
  match r with
  | REPLY_ARRAY l => Z.of_nat (List.length l)
  | _ => 0
  end.

(** [r->element[i]]: the array holds exactly [r->elements] pointers. *)
Definition element (r : redisReply) (i : nat) : option redisReply :=
  match r with
  | REPLY_ARRAY l => nth_error l i
  | _ => None
  end.

(** [std::string(r->str, r->len)]; a reply without text has length 0. *)
Definition str (r : redisReply) : string :=
  match r with
  | REPLY_STRING s | REPLY_STATUS s | REPLY_ERROR s => s
  | _ => ""
  end.

Definition integer (r : redisReply) : Z :=
  match r with
  | REPLY_INTEGER n => n
  | _ => 0
  end.

End Reply.

(** The commands the plugin formats; keys are passed as rendered. *)
Inductive Command : Type :=
  | MULTI
  | EXEC
  | WATCH (k : string)
  | UNWATCH
  | GET (k : string)
  | EXPIRETIME (k : string)
  | SET_NX_EXAT (k v : string) (exat : Z)
  | SET_XX_KEEPTTL (k v : string)
  | INCR (k : string)
  | EXPIREAT (k : string) (at_ : Z)
  | UNLINK (k1 k2 : string)
  | CLUSTER_SLOTS.

Inductive Level : Type := NOTICE | WARN | ERROR | CRIT.

(** ** cluster-node.h and the retry part of [RedisConfig] (redis.h) *)

Record ClusterNode : Type := mkClusterNode {
  m_host : string;
  m_port : Z
}.

Module ClusterNode.

Definition host (n : ClusterNode) : string := m_host n.
Definition port (n : ClusterNode) : Z := m_port n.
Definition valid (n : ClusterNode) : bool := negb (String.eqb (m_host n) "").

(** [operator==]. *)
Definition operator_eq (lhs rhs : ClusterNode) : bool :=
  String.eqb (m_host lhs) (m_host rhs) && (m_port lhs =? m_port rhs).

End ClusterNode.

Record RedisConfig : Type := mkRedisConfig {
  initialNodes : list ClusterNode;
  maxRetries : Z;
  baseWait : Z;
  maxWait : Z
}.

(** ** The transport under a connection

    hiredis and the server behind it are the environment of the plugin.  A
    transport answers each command that is written to it, in order; [None]
    stands for a failed round trip (a null reply, or a status other than
    [REDIS_OK]).  [reconnect] is [redisReconnect]; [true] is [REDIS_OK]. *)

Record Transport (S : Type) : Type := mkTransport {
  execute : S -> Command -> S * option redisReply;
  reconnect : S -> S * bool
}.
Arguments execute {S} _ _ _.
Arguments reconnect {S} _ _.

(** The state of one [RedisConnection]: the far end, the replies hiredis
    has not handed out yet, the commands written so far and the log. *)
Record Connection (S : Type) : Type := mkConnection {
  server : S;
  unread : list (option redisReply);
  written : list Command;
  logged : list (Level * string)
}.
Arguments mkConnection {S} _ _ _ _.
Arguments server {S} _.
Arguments unread {S} _.
Arguments written {S} _.
Arguments logged {S} _.

Definition connected {S : Type} (s : S) : Connection S :=
  mkConnection s [] [] [].

(** A member function of an object with state [St]: a state transformer
    that ends in an [outcome]. *)
Definition M (St A : Type) : Type := St -> outcome A * St.

Definition ret {St A : Type} (a : A) : M St A := fun c => (Ret a, c).

Definition bind {St A B : Type} (m : M St A) (f : A -> M St B) : M St B :=
  fun c =>
    match m c with
    | (Ret a, c') => f a c'
    | (Throw e, c') => (Throw e, c')
    | (Undefined, c') => (Undefined, c')
    end.

Definition throw {St A : Type} (e : Exn) : M St A := fun c => (Throw e, c).
Definition undefined {St A : Type} : M St A := fun c => (Undefined, c).

Definition log {S : Type} (l : Level) (what : string) : M (Connection S) unit :=
  fun c => (Ret tt, mkConnection (server c) (unread c) (written c)
                                 (logged c ++ [(l, what)])).

Declare Scope conn_scope.
Delimit Scope conn_scope with conn.
Notation "x <- m ;; k" := (bind m (fun x => k))
  (at level 100, m at next level, right associativity) : conn_scope.
Notation "m ;; k" := (bind m (fun _ => k))
  (at level 100, right associativity) : conn_scope.
Local Open Scope conn_scope.

Definition optimisticConcurrencyRetryCount : nat := 3.
Definition connectionRetryCount : nat := 3.

Module RedisConnection.
Section WithTransport.

Context {S : Type} (T : Transport S).

(** [appendCommand]: the command is written; the far end answers it in
    its turn and the answer waits to be read. *)
Definition appendCommand (cmd : Command) : M (Connection S) unit :=
  fun c =>
    let (s', r) := execute T (server c) cmd in
    (Ret tt, mkConnection s' (unread c ++ [r]) (written c ++ [cmd]) (logged c)).

(** [redisGetReply]. *)
Definition redisGetReply : M (Connection S) (option redisReply) :=
  fun c =>
    match unread c with
    | r :: rest => (Ret r, mkConnection (server c) rest (written c) (logged c))
    | [] => (Ret None, c)
    end.

(** [redisCommand]: write one command and read its reply; [None] is the
    null pointer. *)
Definition redisCommand (cmd : Command) : M (Connection S) (option redisReply) :=
  appendCommand cmd ;; redisGetReply.

Definition redisReconnect : M (Connection S) bool :=
  fun c =>
    let (s', ok) := reconnect T (server c) in
    (Ret ok, mkConnection s' [] (written c) (logged c)).

(** [handleCriticalError] and [recreateContext] call each other until
    [recurse] reaches [connectionRetryCount]; whatever the reconnection
    attempts give, the call ends by throwing a [ConnectionLostException].
    [fuel] bounds the mutual recursion. *)
Fixpoint handleCriticalError_rec {A : Type} (fuel : nat) (recurse : nat) : M (Connection S) A :=
  log CRIT "error during Redis communications" ;;
  (if (recurse <? connectionRetryCount)%nat
   then match fuel with
        | O => ret tt
        | Datatypes.S fuel' =>
            (* recreateContext(recurse + 1) *)
            ok <- redisReconnect ;;
            if ok then ret tt
            else handleCriticalError_rec (A := unit) fuel' (recurse + 1)
        end
   else ret tt) ;;
  throw ConnectionLostException.

Definition handleCriticalError {A : Type} : M (Connection S) A :=
  handleCriticalError_rec (Datatypes.S connectionRetryCount) 0.

(** [handlePotentialMovedError]. *)
Definition handlePotentialMovedError (err_str : string) : M (Connection S) unit :=
  if negb (String.eqb (default "" (StdString.substr err_str 0 6)) "MOVED ")
  then ret tt
  else
    log WARN "Redis cluster configuration changed" ;;
    let spaceBeforeLocation := StdString.find err_str " " 7 in
    let portColonLocation := StdString.find err_str ":" spaceBeforeLocation in
    port <- match StdString.substr_from err_str
                    (StdString.size_t (portColonLocation + 1)) with
            | None =>
                log CRIT "port value exceeds integer limit, trying 6379" ;;
                ret 6379
            | Some digits =>
                match StdString.stoul digits with
                | StdString.Converted v => ret (u32 v)
                | StdString.invalid_argument =>
                    log CRIT "port value is not an integer, trying 6379" ;;
                    ret 6379
                | StdString.out_of_range =>
                    log CRIT "port value exceeds integer limit, trying 6379" ;;
                    ret 6379
                end
            end ;;
    match StdString.substr err_str
            (StdString.size_t (spaceBeforeLocation + 1))
            (StdString.size_t (portColonLocation - spaceBeforeLocation - 1)) with
    | None => throw StdException
    | Some host => throw (RedirectedException host port)
    end.

(** [sizeof] of the two literals the classifier measures against. *)
Definition sizeof_CLUSTERDO : Z := 10.
Definition sizeof_MOVED : Z := 6.

(** [handleCommandError]; it never returns. *)
Definition handleCommandError {A : Type} (err_str : string) : M (Connection S) A :=
  log ERROR "execution of Redis command failed" ;;
  if StdString.size err_str >? sizeof_CLUSTERDO
  then throw ConnectionLostException
  else
    (if StdString.size err_str >? sizeof_MOVED
     then handlePotentialMovedError err_str
     else ret tt) ;;
    throw IOException.


(** [RedisReply::ensureType]. *)
Definition ensureType (reply : redisReply) (type : Z) : M (Connection S) unit :=
  if type =? Reply.type reply then ret tt else throw IOException.

(** [RedisReply::getNextFromConnection(fn, command, type)], with
    [throwIfErroneous] in line; [type = 0] asks for no type check. *)
Definition getNextFromConnection (type : Z) : M (Connection S) redisReply :=
  r <- redisGetReply ;;
  match r with
  | None => handleCriticalError
  | Some reply =>
      (if Reply.type reply =? REDIS_REPLY_ERROR
       then handleCommandError (Reply.str reply)
       else ret tt) ;;
      (if type =? 0 then ret tt else ensureType reply type) ;;
      ret reply
  end.

(** [reply->element[i]], a read past the end being undefined. *)
Definition element (reply : redisReply) (i : nat) : M (Connection S) redisReply :=
  match Reply.element reply i with
  | Some e => ret e
  | None => undefined
  end.

Definition incorrect_amount : string := "incorrect amount of results from EXEC".

(** [RedisConnection::set]. *)
Definition set (id : StorageId) (value : string) (expiration : Z) : M (Connection S) bool :=
  appendCommand MULTI ;;
  appendCommand (SET_NX_EXAT (SPREDIS_SID id) value expiration) ;;
  appendCommand (SET_NX_EXAT (version_of id) "1" expiration) ;;
  appendCommand EXEC ;;
  getNextFromConnection REDIS_REPLY_STATUS ;;
  getNextFromConnection REDIS_REPLY_STATUS ;;
  getNextFromConnection REDIS_REPLY_STATUS ;;
  reply <- getNextFromConnection REDIS_REPLY_ARRAY ;;
  (if negb (Reply.elements reply =? 2)
   then handleCommandError incorrect_amount
   else ret tt) ;;
  e0 <- element reply 0 ;;
  if negb (Reply.type e0 =? REDIS_REPLY_STATUS)
  then
    if Reply.type e0 =? REDIS_REPLY_NIL then ret false
    else handleCommandError (Reply.str e0)
  else
    e1 <- element reply 1 ;;
    if negb (Reply.type e1 =? REDIS_REPLY_STATUS)
    then
      if Reply.type e1 =? REDIS_REPLY_NIL
      then
        log WARN "version value exists for non-existent key" ;;
        redisCommand (UNLINK (SPREDIS_SID id) (version_of id)) ;;
        ret false
      else handleCommandError (Reply.str e1)
    else ret true.

(** [RedisConnection::parseNumber]. *)
Definition parseNumber (str : string) : M (Connection S) Z :=
  match StdString.stoi str with
  | StdString.Converted v => ret v
  | StdString.invalid_argument =>
      log ERROR "non-integer value in version key" ;; ret 0
  | StdString.out_of_range =>
      log ERROR "value in version key exceeds integer limit" ;; ret 0
  end.

(** [RedisConnection::getOnlyVersion]. *)
Definition getOnlyVersion (id : StorageId) : M (Connection S) Z :=
  appendCommand (GET (version_of id)) ;;
  reply <- getNextFromConnection REDIS_REPLY_STRING ;;
  parseNumber (Reply.str reply).

(** What a read hands back: the version returned, and what was stored
    through [out_value] and [out_expiration]. *)
Record Read : Type := mkRead {
  version : Z;
  value_out : option string;
  expiration_out : option Z
}.

(** The tail shared by the two reads: [expiration_index] is the index of
    the [EXPIRETIME] result when no value was asked for. *)
Definition read_outputs (reply : redisReply) (first : nat)
    (out_value out_expiration : bool) : M (Connection S) (option string * option Z) :=
  v <- (if out_value
        then e <- element reply first ;;
             ensureType e REDIS_REPLY_STRING ;;
             ret (Some (Reply.str e))
        else ret None) ;;
  let expiration_index := if out_value then Datatypes.S first else first in
  x <- (if out_expiration
        then e <- element reply expiration_index ;;
             ensureType e REDIS_REPLY_INTEGER ;;
             ret (Some (Reply.integer e))
        else ret None) ;;
  ret (v, x).

Definition count (b : bool) : Z := if b then 1 else 0.

(** [RedisConnection::forceGet]; [out_value] and [out_expiration] say
    whether the matching pointer is non-null. *)
Definition forceGet (id : StorageId) (out_value out_expiration : bool) : M (Connection S) Read :=
  appendCommand MULTI ;;
  appendCommand (GET (version_of id)) ;;
  (if out_value then appendCommand (GET (SPREDIS_SID id)) else ret tt) ;;
  (if out_expiration then appendCommand (EXPIRETIME (SPREDIS_SID id)) else ret tt) ;;
  appendCommand EXEC ;;
  getNextFromConnection REDIS_REPLY_STATUS ;;
  getNextFromConnection REDIS_REPLY_STATUS ;;
  (if out_value then getNextFromConnection REDIS_REPLY_STATUS ;; ret tt else ret tt) ;;
  (if out_expiration then getNextFromConnection REDIS_REPLY_STATUS ;; ret tt else ret tt) ;;
  reply <- getNextFromConnection REDIS_REPLY_ARRAY ;;
  (if negb (Reply.elements reply =? 1 + count out_value + count out_expiration)
   then handleCommandError incorrect_amount
   else ret tt) ;;
  e0 <- element reply 0 ;;
  absent <- (if Reply.type e0 =? REDIS_REPLY_NIL then ret true
             else e1 <- element reply 1 ;;
                  ret (Reply.type e1 =? REDIS_REPLY_NIL)) ;;
  if absent then ret (mkRead 0 None None)
  else
    ensureType e0 REDIS_REPLY_STRING ;;
    version <- parseNumber (Reply.str e0) ;;
    out <- read_outputs reply 1 out_value out_expiration ;;
    ret (mkRead version (fst out) (snd out)).

(** One round of [getVersioned]'s loop; [tries] rounds are left. *)
Fixpoint getVersioned_loop (tries : nat) (id : StorageId)
    (out_value out_expiration : bool) (minVersion : Z) : M (Connection S) Read :=
  match tries with
  | O =>
      log WARN "(getVersioned) concurrency failure: too-many retries" ;;
      ret (mkRead 0 None None)
  | Datatypes.S tries' =>
      appendCommand (WATCH (version_of id)) ;;
      getNextFromConnection REDIS_REPLY_STATUS ;;
      currentVersion <- getOnlyVersion id ;;
      let out_value := if currentVersion <? minVersion then false else out_value in
      if negb out_value && negb out_expiration
      then
        appendCommand UNWATCH ;;
        getNextFromConnection REDIS_REPLY_STATUS ;;
        ret (mkRead currentVersion None None)
      else
        appendCommand MULTI ;;
        (if out_value then appendCommand (GET (SPREDIS_SID id)) else ret tt) ;;
        (if out_expiration then appendCommand (EXPIRETIME (SPREDIS_SID id)) else ret tt) ;;
        appendCommand EXEC ;;
        getNextFromConnection REDIS_REPLY_STATUS ;;
        (if out_value then getNextFromConnection REDIS_REPLY_STATUS ;; ret tt else ret tt) ;;
        (if out_expiration then getNextFromConnection REDIS_REPLY_STATUS ;; ret tt else ret tt) ;;
        reply <- getNextFromConnection 0 ;;
        if Reply.type reply =? REDIS_REPLY_NIL
        then
          log NOTICE "(getVersioned) concurrency failure: retrying" ;;
          getVersioned_loop tries' id out_value out_expiration minVersion
        else
          ensureType reply REDIS_REPLY_ARRAY ;;
          (if negb (Reply.elements reply =? 0 + count out_value + count out_expiration)
           then handleCommandError incorrect_amount
           else ret tt) ;;
          out <- read_outputs reply 0 out_value out_expiration ;;
          ret (mkRead currentVersion (fst out) (snd out))
  end.

(** [RedisConnection::getVersioned]. *)
Definition getVersioned (id : StorageId) (out_value out_expiration : bool)
    (minVersion : Z) : M (Connection S) Read :=
  if negb out_value && negb out_expiration
  then v <- getOnlyVersion id ;; ret (mkRead v None None)
  else getVersioned_loop optimisticConcurrencyRetryCount id
         out_value out_expiration minVersion.

(** The transaction body shared by the two updates: what is written ... *)
Definition append_update (id : StorageId) (value : string) (expiration : Z) : M (Connection S) unit :=
  appendCommand MULTI ;;
  appendCommand (SET_XX_KEEPTTL (SPREDIS_SID id) value) ;;
  appendCommand (INCR (version_of id)) ;;
  (if negb (expiration =? 0)
   then appendCommand (EXPIREAT (SPREDIS_SID id) expiration) ;;
        appendCommand (EXPIREAT (version_of id) expiration)
   else ret tt) ;;
  appendCommand EXEC.

(** ... and the replies read before that of [EXEC]. *)
Definition read_queued (expiration : Z) : M (Connection S) unit :=
  getNextFromConnection REDIS_REPLY_STATUS ;;
  getNextFromConnection REDIS_REPLY_STATUS ;;
  getNextFromConnection REDIS_REPLY_STATUS ;;
  (if negb (expiration =? 0) then getNextFromConnection REDIS_REPLY_STATUS ;; ret tt else ret tt) ;;
  (if negb (expiration =? 0) then getNextFromConnection REDIS_REPLY_STATUS ;; ret tt else ret tt).

Definition check_expireat (reply : redisReply) (expiration : Z) : M (Connection S) unit :=
  if negb (expiration =? 0)
  then e2 <- element reply 2 ;;
       ensureType e2 REDIS_REPLY_INTEGER ;;
       e3 <- element reply 3 ;;
       ensureType e3 REDIS_REPLY_INTEGER
  else ret tt.

(** One round of [updateVersioned]'s loop; [tries] rounds are left. *)
Fixpoint updateVersioned_loop (tries : nat) (id : StorageId) (value : string)
    (expiration ifVersion : Z) : M (Connection S) Z :=
  match tries with
  | O =>
      log WARN "(updateVersioned) concurrency failure: too-many retries" ;;
      ret 0
  | Datatypes.S tries' =>
      appendCommand (WATCH (version_of id)) ;;
      getNextFromConnection REDIS_REPLY_STATUS ;;
      currentVersion <- getOnlyVersion id ;;
      if negb (currentVersion =? ifVersion) then ret (-1)
      else
        append_update id value expiration ;;
        read_queued expiration ;;
        reply <- getNextFromConnection 0 ;;
        if Reply.type reply =? REDIS_REPLY_NIL
        then
          log NOTICE "(updateVersioned) concurrency failure: retrying" ;;
          updateVersioned_loop tries' id value expiration ifVersion
        else
          ensureType reply REDIS_REPLY_ARRAY ;;
          (if negb (Reply.elements reply =? 2 + 2 * count (negb (expiration =? 0)))
           then handleCommandError incorrect_amount
           else ret tt) ;;
          e0 <- element reply 0 ;;
          ensureType e0 REDIS_REPLY_STATUS ;;
          incr <- element reply 1 ;;
          ensureType incr REDIS_REPLY_INTEGER ;;
          if negb (Reply.integer incr - 1 =? currentVersion)
          then
            log WARN "(updateVersioned) severe concurrency failure: retrying" ;;
            updateVersioned_loop tries' id value expiration ifVersion
          else
            check_expireat reply expiration ;;
            ret (to_int (Reply.integer incr))
  end.

(** [RedisConnection::updateVersioned]. *)
Definition updateVersioned (id : StorageId) (value : string)
    (expiration ifVersion : Z) : M (Connection S) Z :=
  updateVersioned_loop optimisticConcurrencyRetryCount id value expiration ifVersion.

(** [RedisConnection::forceUpdate]. *)
Definition forceUpdate (id : StorageId) (value : string) (expiration : Z) : M (Connection S) Z :=
  append_update id value expiration ;;
  read_queued expiration ;;
  reply <- getNextFromConnection REDIS_REPLY_ARRAY ;;
  (if negb (Reply.elements reply =? 2 + 2 * count (negb (expiration =? 0)))
   then handleCommandError incorrect_amount
   else ret tt) ;;
  e0 <- element reply 0 ;;
  ensureType e0 REDIS_REPLY_STATUS ;;
  incr <- element reply 1 ;;
  ensureType incr REDIS_REPLY_INTEGER ;;
  check_expireat reply expiration ;;
  ret (to_int (Reply.integer incr)).

(** [RedisConnection::remove]; the reply is dereferenced unchecked. *)
Definition remove (id : StorageId) : M (Connection S) bool :=
  r <- redisCommand (UNLINK (SPREDIS_SID id) (version_of id)) ;;
  match r with
  | None => undefined
  | Some reply =>
      if negb (Reply.type reply =? REDIS_REPLY_INTEGER) then ret false
      else ret (negb (Reply.integer reply =? 0))
  end.


(** [RedisConnection::iterateSlots], the body of its loop over the rows
    of the reply first.  The callback is the router's [CacheSetter]; the
    rows handed to it before the loop ends, normally or not, are returned
    beside the outcome. *)
Definition slot_row (rangeEntry : redisReply) : M (Connection S) (ClusterRange * ClusterNode) :=
  ensureType rangeEntry REDIS_REPLY_ARRAY ;;
  (if Reply.elements rangeEntry <? 3
   then log ERROR "slot-range is missing nodes" ;; throw IOException
   else ret tt) ;;
  e0 <- element rangeEntry 0 ;;
  e1 <- element rangeEntry 1 ;;
  range <- (match ClusterRange.make (u32 (to_int (Reply.integer e0)))
                                    (u32 (to_int (Reply.integer e1))) with
            | Ret r => ret r
            | Throw e => throw e
            | Undefined => undefined
            end) ;;
  nodeReply <- element rangeEntry 2 ;;
  ensureType nodeReply REDIS_REPLY_ARRAY ;;
  (if Reply.elements rangeEntry <? 2
   then log ERROR "slot-range's node is missing ip and port data" ;; throw IOException
   else ret tt) ;;
  n0 <- element nodeReply 0 ;;
  n1 <- element nodeReply 1 ;;
  ret (range, mkClusterNode (Reply.str n0) (u16 (Reply.integer n1))).

Fixpoint slot_rows (rows : list redisReply) (c : Connection S)
    : list (ClusterRange * ClusterNode) * outcome unit * Connection S :=
  match rows with
  | [] => ([], Ret tt, c)
  | row :: rest =>
      match slot_row row c with
      | (Ret rn, c') =>
          let '(delivered, o, c'') := slot_rows rest c' in
          (rn :: delivered, o, c'')
      | (Throw e, c') => ([], Throw e, c')
      | (Undefined, c') => ([], Undefined, c')
      end
  end.

Definition iterateSlots (c : Connection S)
    : list (ClusterRange * ClusterNode) * outcome unit * Connection S :=
  match redisCommand CLUSTER_SLOTS c with
  | (Ret (Some reply), c') =>
      match ensureType reply REDIS_REPLY_ARRAY c' with
      | (Ret _, c'') =>
          match reply with
          | REPLY_ARRAY rows => slot_rows rows c''
          | _ => ([], Ret tt, c'')
          end
      | (Throw e, c'') => ([], Throw e, c'')
      | (Undefined, c'') => ([], Undefined, c'')
      end
  | (Ret None, c') => ([], Undefined, c')
  | (Throw e, c') => ([], Throw e, c')
  | (Undefined, c') => ([], Undefined, c')
  end.

End WithTransport.
End RedisConnection.

(** ** Two transports

    The client code above is written once, against any transport.  The
    first instance below replays a fixed list of replies, whatever is
    written: every run of the client against any server is such a replay.
    The second is a model of one Redis server. *)

Module Script.

Definition execute (s : list (option redisReply)) (_ : Command)
    : list (option redisReply) * option redisReply :=
  match s with
  | r :: rest => (rest, r)
  | [] => ([], None)
  end.

Definition transport : Transport (list (option redisReply)) :=
  mkTransport _ execute (fun s => (s, false)).


End Script.

(** The server, after the documentation of the commands the plugin sends:
    a key space with absolute expiry times, a transaction queue, the watched
    keys, and the writes other clients get in before each of our commands.
    The clock does not advance during a call; a key whose expiry is not in
    the future is gone. *)
Module Redis.

Record Entry : Type := mkEntry {
  value : string;
  expiry : option Z
}.

Record State : Type := mkState {
  now : Z;
  store : gmap string Entry;
  queue : option (list Command);
  watching : list string;
  dirty : bool;
  others : list (list Command);
  slots : redisReply
}.

Definition LLONG_MAX : Z := 2 ^ 63 - 1.
Definition LLONG_MIN : Z := - 2 ^ 63.

(** [string2ll]: the text must be the canonical decimal form of a
    [long long]. *)
Definition string2ll (s : string) : option Z :=
  match StdString.subject s with
  | (neg, Some v) =>
      let n := if neg then - v else v in
      if String.eqb (pretty n) s && (LLONG_MIN <=? n) && (n <=? LLONG_MAX)
      then Some n else None
  | (_, None) => None
  end.

(** An [EXAT] argument must be positive and, in milliseconds, fit a
    [long long]. *)
Definition valid_expire (t : Z) : bool :=
  (0 <? t) && (t <=? LLONG_MAX / 1000).

Definition present (σ : gmap string Entry) (k : string) : bool :=
  match σ !! k with Some _ => true | None => false end.

(** A data command run against the key space: the new key space, the
    reply, and the keys that were modified. *)
Definition run (now : Z) (σ : gmap string Entry) (cmd : Command)
    : gmap string Entry * redisReply * list string :=
  match cmd with
  | GET k =>
      (σ, match σ !! k with
          | Some e => REPLY_STRING (value e)
          | None => REPLY_NIL
          end, [])
  | EXPIRETIME k =>
      (σ, REPLY_INTEGER match σ !! k with
                        | Some e => default (-1) (expiry e)
                        | None => -2
                        end, [])
  | SET_NX_EXAT k v t =>
      if negb (valid_expire t)
      then (σ, REPLY_ERROR "ERR invalid expire time in 'set' command", [])
      else if present σ k then (σ, REPLY_NIL, [])
      else ((if t <=? now then σ else <[k := mkEntry v (Some t)]> σ),
            REPLY_STATUS "OK", [k])
  | SET_XX_KEEPTTL k v =>
      match σ !! k with
      | Some e => (<[k := mkEntry v (expiry e)]> σ, REPLY_STATUS "OK", [k])
      | None => (σ, REPLY_NIL, [])
      end
  | INCR k =>
      match σ !! k with
      | None => (<[k := mkEntry "1" None]> σ, REPLY_INTEGER 1, [k])
      | Some e =>
          match string2ll (value e) with
          | Some n =>
              if n <? LLONG_MAX
              then (<[k := mkEntry (pretty (n + 1)) (expiry e)]> σ,
                    REPLY_INTEGER (n + 1), [k])
              else (σ, REPLY_ERROR "ERR increment or decrement would overflow", [])
          | None =>
              (σ, REPLY_ERROR "ERR value is not an integer or out of range", [])
          end
      end
  | EXPIREAT k t =>
      if t >? LLONG_MAX / 1000
      then (σ, REPLY_ERROR "ERR invalid expire time in 'expireat' command", [])
      else
        match σ !! k with
        | Some e =>
            ((if t <=? now then delete k σ
              else <[k := mkEntry (value e) (Some t)]> σ),
             REPLY_INTEGER 1, [k])
        | None => (σ, REPLY_INTEGER 0, [])
        end
  | UNLINK k1 k2 =>
      let σ1 := delete k1 σ in
      (delete k2 σ1,
       REPLY_INTEGER ((if present σ k1 then 1 else 0)
                      + (if present σ1 k2 then 1 else 0)),
       ((if present σ k1 then [k1] else [])
          ++ (if present σ1 k2 then [k2] else []))%list)
  | MULTI | EXEC | WATCH _ | UNWATCH | CLUSTER_SLOTS =>
      (σ, REPLY_ERROR "ERR", [])
  end.

(** The cluster's key distribution: a key is hashed by what stands
    between its first opening brace and the first closing brace after it,
    when there is such a non-empty text, and as a whole otherwise. *)
Fixpoint after_open (key : string) : option string :=
  match key with
  | EmptyString => None
  | String c rest => if Ascii.eqb c "{" then Some rest else after_open rest
  end.

Fixpoint before_close (s : string) : option string :=
  match s with
  | EmptyString => None
  | String c rest =>
      if Ascii.eqb c "}" then Some EmptyString
      else String c <$> before_close rest
  end.

Definition hash_tag (key : string) : string :=
  match after_open key with
  | Some rest =>
      match before_close rest with
      | Some EmptyString | None => key
      | Some tag => tag
      end
  | None => key
  end.

Definition keyHashSlot (key : string) : Z :=
  Z.land (RedisCrc16.crc16_xmodem (hash_tag key)) 0x3FFF.

Definition touches (watching touched : list string) : bool :=
  existsb (fun k => existsb (String.eqb k) touched) watching.

(** A run of commands, one after the other. *)
Fixpoint run_all (now : Z) (σ : gmap string Entry) (cmds : list Command)
    : gmap string Entry * list redisReply * list string :=
  match cmds with
  | [] => (σ, [], [])
  | cmd :: rest =>
      let '(σ1, r, t1) := run now σ cmd in
      let '(σ2, rs, t2) := run_all now σ1 rest in
      (σ2, r :: rs, (t1 ++ t2)%list)
  end.

(** What the other clients get done before our next command arrives. *)
Definition interfere (s : State) : State :=
  match others s with
  | [] => s
  | batch :: later =>
      let '(σ', _, touched) := run_all (now s) (store s) batch in
      mkState (now s) σ' (queue s) (watching s)
              (dirty s || touches (watching s) touched) later (slots s)
  end.

(** Our command, on arrival. *)
Definition serve (s : State) (cmd : Command) : State * redisReply :=
  match cmd, queue s with
  | MULTI, Some _ => (s, REPLY_ERROR "ERR MULTI calls can not be nested")
  | MULTI, None =>
      (mkState (now s) (store s) (Some []) (watching s) (dirty s) (others s) (slots s),
       REPLY_STATUS "OK")
  | EXEC, None => (s, REPLY_ERROR "ERR EXEC without MULTI")
  | EXEC, Some q =>
      if dirty s
      then (mkState (now s) (store s) None [] false (others s) (slots s), REPLY_NIL)
      else
        let '(σ', rs, _) := run_all (now s) (store s) q in
        (mkState (now s) σ' None [] false (others s) (slots s), REPLY_ARRAY rs)
  | WATCH _, Some _ => (s, REPLY_ERROR "ERR WATCH inside MULTI is not allowed")
  | WATCH k, None =>
      (mkState (now s) (store s) None (k :: watching s) (dirty s) (others s) (slots s),
       REPLY_STATUS "OK")
  | UNWATCH, None =>
      (mkState (now s) (store s) None [] false (others s) (slots s), REPLY_STATUS "OK")
  | CLUSTER_SLOTS, None => (s, slots s)
  | _, Some q =>
      (mkState (now s) (store s) (Some (q ++ [cmd])%list) (watching s) (dirty s)
               (others s) (slots s),
       REPLY_STATUS "QUEUED")
  | _, None =>
      let '(σ', r, touched) := run (now s) (store s) cmd in
      (mkState (now s) σ' None (watching s)
               (dirty s || touches (watching s) touched) (others s) (slots s), r)
  end.

Definition execute (s : State) (cmd : Command) : State * option redisReply :=
  let (s', r) := serve (interfere s) cmd in (s', Some r).

(** A new connection to the same server: no transaction, nothing watched. *)
Definition reconnect (s : State) : State * bool :=
  (mkState (now s) (store s) None [] false (others s) (slots s), true).

Definition transport : Transport State := mkTransport _ execute reconnect.

(** A server at rest holding [σ], with no other client at work. *)
Definition quiet (now : Z) (σ : gmap string Entry) : State :=
  mkState now σ None [] false [] REPLY_NIL.

End Redis.

(** ** redis-cluster.h, redis-cluster.cpp: the router

    One thread is modelled, so the read/write lock does not appear.  The
    nodes of the slot map live at stable addresses (the map is a flat map
    over a [stable_vector]); a [const ClusterNode*] is [None] when null and
    otherwise carries the address and the node found there. *)

Module RedisCluster.
Section WithNetwork.

Context {S : Type} (T : Transport S).

(** Modelled from the spec: [ClusterNode::connect] is declared in
    cluster-node.h and defined in a file that is missing.  It opens a
    [RedisConnection] to the node's host and port, which ends in a
    [ConnectionLostException] when the node cannot be reached.  Which nodes
    answer, and what is behind them, is the network the router runs in. *)
Context (connect : ClusterNode -> outcome S).

Context (m_config : RedisConfig).

Definition address : Type := nat.

(** An element of the slot map, [std::pair<range_type, ClusterNode>], and
    where its node is stored. *)
Record Slot : Type := mkSlot {
  range : ClusterRange;
  stored_at : address;
  node : ClusterNode
}.

Record State : Type := mkState {
  m_connection_map : list (address * Connection S);
  m_cluster_map : list Slot;
  fresh : address;
  m_logged : list (Level * string);
  slept : list Z
}.

Definition Pointer : Type := option (address * ClusterNode).

Definition warn (l : Level) (what : string) : M State unit :=
  fun cl => (Ret tt, mkState (m_connection_map cl) (m_cluster_map cl) (fresh cl)
                             (m_logged cl ++ [(l, what)]) (slept cl)).

(** [flat_map::insert_or_assign] on a map ordered by [operator<]. *)
Fixpoint insert_or_assign (k : ClusterRange) (v : ClusterNode) (a : address)
    (l : list Slot) : list Slot :=
  match l with
  | [] => [mkSlot k a v]
  | s :: rest =>
      if ClusterRange.operator_lt (range s) k
      then s :: insert_or_assign k v a rest
      else if ClusterRange.operator_lt k (range s)
      then mkSlot k a v :: s :: rest
      else mkSlot (range s) (stored_at s) v :: rest
  end.

(** [CacheSetter::operator()]. *)
Definition CacheSetter (cl : State) (row : ClusterRange * ClusterNode) : State :=
  mkState (m_connection_map cl)
          (insert_or_assign (fst row) (snd row) (fresh cl) (m_cluster_map cl))
          (Datatypes.S (fresh cl)) (m_logged cl) (slept cl).

(** [std::lower_bound] with [ClusterCompareLess] between a range and a
    storage id: the binary search, on the positions [first, first+count). *)
Fixpoint lower_bound (fuel : nat) (l : list Slot) (id : StorageId)
    (first count : nat) : nat :=
  match fuel with
  | O => first
  | Datatypes.S fuel' =>
      if (count =? 0)%nat then first
      else
        let step := (count / 2)%nat in
        let it := (first + step)%nat in
        match nth_error l it with
        | Some s =>
            if ClusterRange.operator_lt_id (range s) id
            then lower_bound fuel' l id (Datatypes.S it) (count - (step + 1))%nat
            else lower_bound fuel' l id first step
        | None => first
        end
  end.

(** [flat_map::find] with a storage id as the key. *)
Definition find (l : list Slot) (id : StorageId) : option Slot :=
  let i := lower_bound (Datatypes.S (List.length l)) l id 0 (List.length l) in
  match nth_error l i with
  | Some s => if ClusterRange.id_operator_lt id (range s) then None else Some s
  | None => None
  end.

(** [findNodeEntryUnguarded(const StorageId&)]. *)
Definition findNodeEntryUnguarded (id : StorageId) : M State Pointer :=
  fun cl =>
    (Ret match find (m_cluster_map cl) id with
         | Some s => Some (stored_at s, node s)
         | None => None
         end, cl).

Definition cached (a : address) (cl : State) : option (Connection S) :=
  snd <$> List.find (fun e => (fst e =? a)%nat) (m_connection_map cl).

(** [dispatchConnectionUnguarded]: the null pointer is in no cache entry,
    so the cache misses and [node->connect] goes through the pointer. *)
Definition dispatchConnectionUnguarded (node : Pointer) : M State address :=
  fun cl =>
    match node with
    | None => (Undefined, cl)
    | Some (a, n) =>
        match cached a cl with
        | Some _ => (Ret a, cl)
        | None =>
            match connect n with
            | Ret s =>
                (Ret a, mkState ((a, connected s) :: m_connection_map cl)
                                (m_cluster_map cl) (fresh cl) (m_logged cl) (slept cl))
            | Throw e => (Throw e, cl)
            | Undefined => (Undefined, cl)
            end
        end
    end.

Definition put (a : address) (c : Connection S) (cl : State) : State :=
  mkState (map (fun e => if (fst e =? a)%nat then (a, c) else e)
               (m_connection_map cl))
          (m_cluster_map cl) (fresh cl) (m_logged cl) (slept cl).

(** A call through the [RedisConnection*] that the cache holds for [a]. *)
Definition on_connection {R : Type} (a : address) (fn : M (Connection S) R) : M State R :=
  fun cl =>
    match cached a cl with
    | None => (Undefined, cl)
    | Some c => let (r, c') := fn c in (r, put a c' cl)
    end.

(** [CacheReseter::operator()] on one entry of the previous map: [true]
    stops the iteration. *)
Definition CacheReseter (entry : Slot) : M State bool :=
  fun cl =>
    match dispatchConnectionUnguarded (Some (stored_at entry, node entry)) cl with
    | (Ret a, cl1) =>
        match cached a cl1 with
        | None => (Undefined, cl1)
        | Some c =>
            let '(rows, o, c') := RedisConnection.iterateSlots T c in
            let cl2 := fold_left CacheSetter rows (put a c' cl1) in
            match o with
            | Ret _ => (Ret true, cl2)
            | Throw _ =>
                (warn ERROR "error occured getting cluster configuration" ;;
                 ret false) cl2
            | Undefined => (Undefined, cl2)
            end
        end
    | (Throw _, cl1) =>
        (warn ERROR "error occured getting cluster configuration" ;; ret false) cl1
    | (Undefined, cl1) => (Undefined, cl1)
    end.

(** [std::any_of]. *)
Fixpoint any_of (entries : list Slot) : M State bool :=
  match entries with
  | [] => ret false
  | entry :: rest =>
      stop <- CacheReseter entry ;;
      if stop then ret true else any_of rest
  end.

(** The copy [previous_map]: the same pairs, stored elsewhere. *)
Fixpoint copy (l : list Slot) (a : address) : list Slot * address :=
  match l with
  | [] => ([], a)
  | s :: rest =>
      let (rest', a') := copy rest (Datatypes.S a) in
      (mkSlot (range s) a (node s) :: rest', a')
  end.

(** [resetSlotsCacheUnguarded]. *)
Definition resetSlotsCacheUnguarded : M State unit :=
  fun cl =>
    let (previous_map, a) := copy (m_cluster_map cl) (fresh cl) in
    (success <- any_of previous_map ;;
     if negb success
     then warn CRIT "no known node responds correctly to CLUSTER SLOTS" ;;
          throw XMLToolingException
     else ret tt)
      (mkState [] [] a (m_logged cl) (slept cl)).

Definition rebuildRangeMappingUniqueLocked : M State unit :=
  resetSlotsCacheUnguarded.

(** The constructor's loop over [config.initialNodes]. *)
Fixpoint explore (nodes : list ClusterNode) : M State unit :=
  match nodes with
  | [] => ret tt
  | node :: rest =>
      fun cl =>
        match connect node with
        | Ret s =>
            let '(rows, o, _) := RedisConnection.iterateSlots T (connected s) in
            let cl' := fold_left CacheSetter rows cl in
            match o with
            | Ret _ => (Ret tt, cl')
            | Throw _ =>
                (warn ERROR "error occured during initial cluster configuration" ;;
                 explore rest) cl'
            | Undefined => (Undefined, cl')
            end
        | Throw _ =>
            (warn ERROR "error occured during initial cluster configuration" ;;
             explore rest) cl
        | Undefined => (Undefined, cl)
        end
  end.

(** [RedisCluster::RedisCluster(config)]: the outcome of the constructor
    and the object it leaves. *)
Definition RedisCluster : outcome unit * State :=
  explore (initialNodes m_config) (mkState [] [] 0%nat [] []).

Definition waitTime (config : Z) : Z :=
  if config =? 0 then u32 (-1) else config.

(** [1 << retryUnsigned], the left operand an [int], converted to
    [unsigned int] for the product; a shift by the width is undefined. *)
Definition one_shifted (retryUnsigned : Z) : option Z :=
  if retryUnsigned <? 32 then Some (u32 (to_int (Z.shiftl 1 retryUnsigned)))
  else None.

(** [tryWaitWithRetryNumber]; [usleep]'s argument is recorded. *)
Definition tryWaitWithRetryNumber (retry : Z) : M State bool :=
  let retryUnsigned := u32 retry in
  if retryUnsigned >? maxRetries m_config then ret false
  else
    match one_shifted retryUnsigned with
    | None => undefined
    | Some factor =>
        let toWait := u32 (baseWait m_config * factor) in
        let usTrueWait := u32 (1000 * Z.min toWait (waitTime (maxWait m_config))) in
        fun cl =>
          (Ret true, mkState (m_connection_map cl) (m_cluster_map cl) (fresh cl)
                             (m_logged cl) (slept cl ++ [usTrueWait]))
    end.

(** [wrappedCall(id, fn, recurse)].  [fuel] bounds the recursion, which
    ends by itself once [recurse] passes [maxRetries]. *)
Fixpoint wrappedCall_rec {R : Type} (fuel : nat) (id : StorageId)
    (fn : M (Connection S) R) (recurse : Z) : M State R :=
  fun cl =>
    let body :=
      node <- findNodeEntryUnguarded id ;;
      conn <- dispatchConnectionUnguarded node ;;
      on_connection conn fn in
    let recover (e : Exn) (what : string) : M State R :=
      again <- tryWaitWithRetryNumber recurse ;;
      if again
      then
        rebuildRangeMappingUniqueLocked ;;
        match fuel with
        | O => undefined
        | Datatypes.S fuel' => wrappedCall_rec fuel' id fn (recurse + 1)
        end
      else warn ERROR what ;; throw e in
    match body cl with
    | (Throw ConnectionLostException, cl') =>
        recover ConnectionLostException
          "Redis cluster failure: cannot find applicable host to connect to" cl'
    | (Throw (RedirectedException h p), cl') =>
        recover (RedirectedException h p)
          "Redis cluster failure: cannot connect to cluster after redirection" cl'
    | other => other
    end.

(** Thirty-three recursive calls are the most there can be: the shift in
    [tryWaitWithRetryNumber] is undefined from [recurse = 32] on. *)
Definition wrappedCall {R : Type} (id : StorageId) (fn : M (Connection S) R) : M State R :=
  wrappedCall_rec 33 id fn 0.

End WithNetwork.
End RedisCluster.

(** ** Definitions the properties are stated with *)

Module RedisCrc16Check.
Import RedisCrc16.

Definition bytes : list Z := map Z.of_nat (seq 0 256).

Definition byte_of (c : ascii) : Z := Z.of_N (N_of_ascii c).

(** Eight rounds of the reference algorithm against the table, on one
    16-bit value. *)
Definition agrees (x : Z) : bool :=
  xmodem_rounds x
  =? Z.lxor (Z.land (Z.shiftl x 8) 0xFFFF)
            (nth (Z.to_nat (Z.shiftr x 8)) Crc16Constants 0).

(** The sign extension of a [char] does not reach the table index. *)
Definition index_agrees (h b : Z) : bool :=
  Z.land (Z.lxor h (if b <? 128 then b else u32 (b - 256))) 0xFF =? Z.lxor h b.

End RedisCrc16Check.

(** The bytes the slot of a storage id is computed over. *)
Definition hashed (id : StorageId) : string :=
  (context id ++ ":" ++ prefix id ++ key id)%string.

(** The back-off of the specification, in milliseconds: the smaller of
    [baseWait * 2^r] and [maxWait], a [maxWait] of zero standing for
    [UINT_MAX]. *)
Definition backoff_ms (config : RedisConfig) (r : Z) : Z :=
  Z.min (baseWait config * 2 ^ r)
        (if maxWait config =? 0 then UINT_MAX else maxWait config).

(** The default base wait and no cap, with fourteen retries allowed. *)
Definition fourteen_retries : RedisConfig := mkRedisConfig [] 14 500 0.

(** The defaults of redis.cpp: five retries, 500 ms, no cap. *)
Definition default_retries : RedisConfig := mkRedisConfig [] 5 500 0.

(** A router as its constructor starts from. *)
Definition blank {S : Type} : RedisCluster.State (S := S) :=
  RedisCluster.mkState [] [] 0%nat [] [].

(** A network in which no node can be reached. *)
Definition unreachable {S : Type} (_ : ClusterNode) : outcome S :=
  Throw ConnectionLostException.

(** Error replies of a server, as they arrive. *)
Definition moved_reply : string := "MOVED 7000 10.0.0.2:6379".
Definition wrongtype_reply : string :=
  "WRONGTYPE Operation against a key holding the wrong kind of value".

(** No closing brace in a text. *)
Fixpoint brace_free (s : string) : bool :=
  match s with
  | EmptyString => true
  | String c rest => negb (Ascii.eqb c "}") && brace_free rest
  end.

(** A storage id with a closing brace in its context. *)
Definition closing_brace_inside : StorageId := mkStorageId "a}b" "k" "".

(** The id of the specification's scenarios, and key spaces around it. *)
Definition sk : StorageId := mkStorageId "s" "k" "".

Definition data_only : gmap string Redis.Entry :=
  {[ "{s:k}" := Redis.mkEntry "old" None ]}.

Definition version_only : gmap string Redis.Entry :=
  {[ "version.of:{s:k}" := Redis.mkEntry "3" None ]}.

Definition at_version_3 : gmap string Redis.Entry :=
  {[ "{s:k}" := Redis.mkEntry "hello" None;
     "version.of:{s:k}" := Redis.mkEntry "3" None ]}.


(** The commands of [set], and the entries it creates. *)
Definition set_commands (id : StorageId) (value : string) (expiration : Z) : list Command :=
  [MULTI;
   SET_NX_EXAT (SPREDIS_SID id) value expiration;
   SET_NX_EXAT (version_of id) "1" expiration;
   EXEC].

Definition created (text : string) (expiration : Z) : Redis.Entry :=
  Redis.mkEntry text (Some expiration).

(** What an update leaves under a key: the new text, and the old time to
    live unless a new expiration is given. *)
Definition updated (text : string) (expiration : Z) (old : Redis.Entry) : Redis.Entry :=
  Redis.mkEntry text (if expiration =? 0 then Redis.expiry old else Some expiration).



Definition retrying : Level * string :=
  (NOTICE, "(updateVersioned) concurrency failure: retrying").

Definition too_many_retries : Level * string :=
  (WARN, "(updateVersioned) concurrency failure: too-many retries").

(** The hash slot of an id, as the router's comparisons compute it. *)
Definition slot_of (id : StorageId) : Z :=
  hashSlotUsing id mod ClusterRange.HashSlots.

(** The range of a slot-map element holds a slot. *)
Definition holds (s : RedisCluster.Slot) (n : Z) : Prop :=
  m_start (RedisCluster.range s) <= n <= m_end (RedisCluster.range s).

(** A slot map whose ranges are not empty, ascend, and do not overlap,
    none starting below [floor]. *)
Fixpoint ascending (floor : Z) (l : list RedisCluster.Slot) : bool :=
  match l with
  | [] => true
  | s :: rest =>
      (floor <=? m_start (RedisCluster.range s))
      && (m_start (RedisCluster.range s) <=? m_end (RedisCluster.range s))
      && ascending (m_end (RedisCluster.range s) + 1) rest
  end.

(** A cluster of two nodes that share the slots, as each of them reports
    it, and a network in which only these two can be reached. *)
Definition two_halves : redisReply :=
  REPLY_ARRAY
    [REPLY_ARRAY [REPLY_INTEGER 0; REPLY_INTEGER 8191;
                  REPLY_ARRAY [REPLY_STRING "10.0.0.1"; REPLY_INTEGER 6379]];
     REPLY_ARRAY [REPLY_INTEGER 8192; REPLY_INTEGER 16383;
                  REPLY_ARRAY [REPLY_STRING "10.0.0.2"; REPLY_INTEGER 6379]]].

Definition two_nodes (n : ClusterNode) : outcome Redis.State :=
  if String.eqb (m_host n) "10.0.0.1" || String.eqb (m_host n) "10.0.0.2"
  then Ret (Redis.mkState 1000 ∅ None [] false [] two_halves)
  else Throw ConnectionLostException.

(** Seeds of which the first is not in that network. *)
Definition second_seed_answers : RedisConfig :=
  mkRedisConfig [mkClusterNode "10.0.0.9" 6379; mkClusterNode "10.0.0.2" 6379]
                5 500 0.

(** A server on which other clients are at work: [others] is what they
    get done before each of our commands. *)
Definition contended (σ : gmap string Redis.Entry) (others : list (list Command))
    : Redis.State :=
  Redis.mkState 1000 σ None [] false others REPLY_NIL.

(** During one round of [updateVersioned] without a new expiration,
    between our GET and our MULTI, another client touches the version key
    without changing the number ... *)
Definition touch_between : list (list Command) :=
  [[]; []; [EXPIREAT "version.of:{s:k}" 2000000000]; []; []; []].

(** ... or updates the value. *)
Definition update_between : list (list Command) :=
  [[]; []; [SET_XX_KEEPTTL "{s:k}" "theirs"; INCR "version.of:{s:k}"]; []; []; []].

(** A connection at rest on its server: no reply is pending, no
    transaction is open, no key is watched and none is flagged as modified,
    and no other client is at work. *)
Definition at_rest (c : Connection Redis.State) : bool :=
  match unread c, Redis.queue (server c), Redis.watching (server c),
        Redis.others (server c) with
  | [], None, [], [] => negb (Redis.dirty (server c))
  | _, _, _, _ => false
  end.

(** ** Definitions the further properties are stated with *)

(** The log entries of the error handlers. *)
Definition communication_error : Level * string :=
  (CRIT, "error during Redis communications").

Definition configuration_changed : Level * string :=
  (WARN, "Redis cluster configuration changed").

Definition command_failed : Level * string :=
  (ERROR, "execution of Redis command failed").

(** A text without the character [ch]. *)
Fixpoint without (ch : ascii) (s : string) : bool :=
  match s with
  | EmptyString => true
  | String c rest => negb (Ascii.eqb c ch) && without ch rest
  end.

(** The redirection error of a cluster node, as it is sent. *)
Definition moved_message (slot host : string) (port : Z) : string :=
  "MOVED " ++ slot ++ " " ++ host ++ ":" ++ pretty port.

(** Rows of a [CLUSTER SLOTS] reply as [iterateSlots] hands them to the
    callback: each range is not empty, and no two rows overlap. *)
Definition apart (a b : ClusterRange) : bool :=
  (m_end a <? m_start b) || (m_end b <? m_start a).

Fixpoint disjoint_rows (rows : list (ClusterRange * ClusterNode)) : bool :=
  match rows with
  | [] => true
  | (r, _) :: rest =>
      (0 <=? m_start r) && (m_start r <=? m_end r)
      && forallb (fun row => apart r (fst row)) rest
      && disjoint_rows rest
  end.

(** The slot map that the rows of one reply make of an empty one. *)
Definition filled {S : Type} (rows : list (ClusterRange * ClusterNode))
    : RedisCluster.State (S := S) :=
  fold_left RedisCluster.CacheSetter rows blank.

(** The entries of the router's log. *)
Definition rebuild_error : Level * string :=
  (ERROR, "error occured getting cluster configuration").

Definition no_node_responds : Level * string :=
  (CRIT, "no known node responds correctly to CLUSTER SLOTS").

(** The sleep before the first retry, in microseconds. *)
Definition first_wait (config : RedisConfig) : Z :=
  u32 (1000 * Z.min (u32 (baseWait config * 1))
                    (RedisCluster.waitTime (maxWait config))).

(** One row of a [CLUSTER SLOTS] reply as a node sends it: the bounds of
    the range, then the master with its address, port and further fields,
    then the replicas. *)
Record ReportedRow : Type := mkReportedRow {
  first_slot : Z;
  last_slot : Z;
  master_host : string;
  master_port : Z;
  master_fields : list redisReply;
  replicas : list redisReply
}.

Definition slot_entry (row : ReportedRow) : redisReply :=
  REPLY_ARRAY
    (REPLY_INTEGER (first_slot row)
     :: REPLY_INTEGER (last_slot row)
     :: REPLY_ARRAY (REPLY_STRING (master_host row)
                     :: REPLY_INTEGER (master_port row)
                     :: master_fields row)
     :: replicas row).

Definition reported (row : ReportedRow) : ClusterRange * ClusterNode :=
  (mkClusterRange (first_slot row) (last_slot row),
   mkClusterNode (master_host row) (master_port row)).

Definition plausible (row : ReportedRow) : bool :=
  (0 <=? first_slot row) && (first_slot row <=? last_slot row)
  && (last_slot row <? 16384)
  && (0 <=? master_port row) && (master_port row <? 65536).

(** A range and a node as the types of the source constrain them. *)
Definition valid_row (row : ClusterRange * ClusterNode) : Prop :=
  0 <= m_start (fst row) <= m_end (fst row)
  /\ m_end (fst row) < ClusterRange.HashSlots
  /\ 0 <= m_port (snd row) < 65536.

Definition seed_skipped : Level * string :=
  (ERROR, "error occured during initial cluster configuration").

(** ** The context scan (redis.h, redis-connection.cpp, redis-cluster.cpp) *)

Module ContextScan.
Section WithTransport.

Context {S : Type} (T : Transport S).

(** What the far end does with [SCAN cursor MATCH pattern], a command that
    is not among the data commands of [Command]. *)
Context (scan : S -> Z -> string -> S * option redisReply).

(** [appendCommand("SCAN %d MATCH %s:*", nextScanState, context)]. *)
Definition appendScan (nextScanState : Z) (context : string) : M (Connection S) unit :=
  fun c =>
    let (s', r) := scan (server c) nextScanState (context ++ ":*") in
    (Ret tt, mkConnection s' (unread c ++ [r]) (written c) (logged c)).

(** [RawCallbackType], the callback context bound: what is done with the
    connection for one key. *)
Definition RawCallbackType : Type := string -> M (Connection S) unit.

(** The inner loop, over the keys of one batch. *)
Fixpoint scan_elements (callback : RawCallbackType) (elems : list redisReply)
    : M (Connection S) unit :=
  match elems with
  | [] => ret tt
  | e :: rest =>
      (if negb (Reply.type e =? REDIS_REPLY_STRING)
       then log WARN "(scanContext) non-string element returned during scanning"
       else callback (Reply.str e)) ;;
      scan_elements callback rest
  end.

(** [element[1]->element], of which [element[1]->elements] are read. *)
Definition elems (e1 : redisReply) : list redisReply :=
  match e1 with
  | REPLY_ARRAY l => l
  | _ => []
  end.

(** The loop of [RedisConnection::scanContextTypeless], which has no bound
    of its own: [None] is returned when [fuel] rounds did not end it. *)
Fixpoint scan_loop (fuel : nat) (context : string) (callback : RawCallbackType)
    (nextScanState count : Z) : M (Connection S) (option Z) :=
  match fuel with
  | O => ret None
  | Datatypes.S fuel' =>
      appendScan nextScanState context ;;
      reply <- RedisConnection.getNextFromConnection T REDIS_REPLY_ARRAY ;;
      if negb (Reply.elements reply =? 2) then ret (Some count)
      else
        e0 <- RedisConnection.element reply 0 ;;
        e1 <- RedisConnection.element reply 1 ;;
        if negb (Reply.type e0 =? REDIS_REPLY_STRING)
           && negb (Reply.type e1 =? REDIS_REPLY_ARRAY)
        then ret (Some count)
        else
          let count := StdString.size_t (count + Reply.elements e1) in
          scan_elements callback (elems e1) ;;
          match StdString.stoi (Reply.str e0) with
          | StdString.Converted nextScanState =>
              if nextScanState =? 0 then ret (Some count)
              else scan_loop fuel' context callback nextScanState count
          | StdString.invalid_argument => ret (Some count)
          | StdString.out_of_range => ret (Some count)
          end
  end.

(** [RedisConnection::scanContextTypeless]. *)
Definition scanContextTypeless (fuel : nat) (context : string)
    (callback : RawCallbackType) : M (Connection S) (option Z) :=
  scan_loop fuel context callback 0 0.

(** The two callbacks of redis-store.cpp: the replies are dropped
    unread, whatever they are. *)
Definition SetExpirationTo (m_expiration : Z) : RawCallbackType :=
  fun fullKey =>
    RedisConnection.redisCommand T (EXPIREAT fullKey m_expiration) ;;
    RedisConnection.redisCommand T (EXPIREAT ("version.of:" ++ fullKey) m_expiration) ;;
    ret tt.

Definition Delete : RawCallbackType :=
  fun fullKey =>
    RedisConnection.redisCommand T (UNLINK fullKey ("version.of:" ++ fullKey)) ;;
    ret tt.

(** [RedisCluster::scanContextTypeless]: the scan of every entry of the
    slot map in turn, over the connection of its node; the count is not
    kept. *)
Fixpoint scan_entries (connect : ClusterNode -> outcome S) (fuel : nat)
    (entries : list RedisCluster.Slot) (context : string) (callback : RawCallbackType)
    : M (RedisCluster.State (S := S)) (option unit) :=
  match entries with
  | [] => ret (Some tt)
  | entry :: rest =>
      conn <- RedisCluster.dispatchConnectionUnguarded connect
                (Some (RedisCluster.stored_at entry, RedisCluster.node entry)) ;;
      scanned <- RedisCluster.on_connection conn
                   (scanContextTypeless fuel context callback) ;;
      match scanned with
      | None => ret None
      | Some _ => scan_entries connect fuel rest context callback
      end
  end.

Definition cluster_scanContextTypeless (connect : ClusterNode -> outcome S) (fuel : nat)
    (context : string) (callback : RawCallbackType)
    : M (RedisCluster.State (S := S)) (option Z) :=
  fun cl =>
    (done <- scan_entries connect fuel (RedisCluster.m_cluster_map cl) context callback ;;
     ret (match done with Some _ => Some 0 | None => None end)) cl.

End WithTransport.
End ContextScan.

(** A scan answered from a script, as the other commands of [Script]. *)
Definition scripted_scan (s : list (option redisReply)) (_ : Z) (_ : string)
    : list (option redisReply) * option redisReply :=
  match s with
  | r :: rest => (rest, r)
  | [] => ([], None)
  end.

(** One round of a scan as the far end answers it: the next cursor, the
    keys, and the replies to the commands the callback sends for them. *)
Record Batch : Type := mkBatch {
  cursor : string;
  keys : list string;
  answers : list (option redisReply)
}.

Definition batch_reply (b : Batch) : redisReply :=
  REPLY_ARRAY [REPLY_STRING (cursor b); REPLY_ARRAY (map REPLY_STRING (keys b))].

Definition batch_script (b : Batch) : list (option redisReply) :=
  Some (batch_reply b) :: answers b.

(** The cursor sends the loop round again. *)
Definition goes_on (b : Batch) : bool :=
  match StdString.stoi (cursor b) with
  | StdString.Converted v => negb (v =? 0)
  | _ => false
  end.

(** The commands the two callbacks send for one key. *)
Definition unlink_of (k : string) : list Command :=
  [UNLINK k ("version.of:" ++ k)].

Definition expire_of (t : Z) (k : string) : list Command :=
  [EXPIREAT k t; EXPIREAT ("version.of:" ++ k) t].

(** The keys of some batches, and their number as a [size_t]. *)
Definition all_keys (batches : list Batch) : list string :=
  flat_map keys batches.

Definition scripted (batches : list Batch) : list (option redisReply) :=
  flat_map batch_script batches.

(** ** redis.h: the abstract class [Redis], and its two implementations *)

Module RedisClass.

(** The virtual member functions of [Redis] on an object with state [St],
    and its prefix; [scanContextTypeless] takes the rounds allowed to its
    loop, and the callback works on a connection to a server with state
    [S]. *)
Record RedisOperations (S St : Type) : Type := mkRedisOperations {
  m_prefix : string;
  set : StorageId -> string -> Z -> M St bool;
  getVersioned : StorageId -> bool -> bool -> Z -> M St RedisConnection.Read;
  forceGet : StorageId -> bool -> bool -> M St RedisConnection.Read;
  updateVersioned : StorageId -> string -> Z -> Z -> M St Z;
  forceUpdate : StorageId -> string -> Z -> M St Z;
  remove : StorageId -> M St bool;
  scanContextTypeless :
    nat -> string -> (string -> M (Connection S) unit) -> M St (option Z)
}.
Arguments m_prefix {S St} _.
Arguments set {S St} _ _ _ _.
Arguments getVersioned {S St} _ _ _ _ _.
Arguments forceGet {S St} _ _ _ _.
Arguments updateVersioned {S St} _ _ _ _ _.
Arguments forceUpdate {S St} _ _ _ _.
Arguments remove {S St} _ _.
Arguments scanContextTypeless {S St} _ _ _ _.

(** [Redis::getPrefix] and [Redis::make_id]. *)
Definition getPrefix {S St : Type} (r : RedisOperations S St) : string := m_prefix r.

Definition make_id {S St : Type} (r : RedisOperations S St) (context key : string)
    : StorageId :=
  mkStorageId context key (m_prefix r).

(** [Redis::scanContext]: the count is dropped. *)
Definition scanContext {S St : Type} (r : RedisOperations S St) (fuel : nat)
    (context : string) (callback : string -> M (Connection S) unit) : M St (option unit) :=
  n <- scanContextTypeless r fuel context callback ;;
  ret (match n with Some _ => Some tt | None => None end).

End RedisClass.

(** [RedisConnection] as a [Redis], with the prefix of its configuration
    and the answers of its server to [SCAN]. *)
Definition single_instance {S : Type} (T : Transport S)
    (scan : S -> Z -> string -> S * option redisReply) (prefix : string)
    : RedisClass.RedisOperations S (Connection S) :=
  RedisClass.mkRedisOperations S (Connection S) prefix
    (RedisConnection.set T)
    (RedisConnection.getVersioned T)
    (RedisConnection.forceGet T)
    (RedisConnection.updateVersioned T)
    (RedisConnection.forceUpdate T)
    (RedisConnection.remove T)
    (ContextScan.scanContextTypeless T scan).

(** [RedisCluster] as a [Redis]: every operation is the operation of the
    connection, made through [wrappedCall]; the scan is not. *)
Definition clustered_instance {S : Type} (T : Transport S)
    (scan : S -> Z -> string -> S * option redisReply)
    (connect : ClusterNode -> outcome S) (config : RedisConfig) (prefix : string)
    : RedisClass.RedisOperations S (RedisCluster.State (S := S)) :=
  RedisClass.mkRedisOperations S (RedisCluster.State (S := S)) prefix
    (fun id value expiration =>
       RedisCluster.wrappedCall T connect config id
         (RedisConnection.set T id value expiration))
    (fun id out_value out_expiration minVersion =>
       RedisCluster.wrappedCall T connect config id
         (RedisConnection.getVersioned T id out_value out_expiration minVersion))
    (fun id out_value out_expiration =>
       RedisCluster.wrappedCall T connect config id
         (RedisConnection.forceGet T id out_value out_expiration))
    (fun id value expiration ifVersion =>
       RedisCluster.wrappedCall T connect config id
         (RedisConnection.updateVersioned T id value expiration ifVersion))
    (fun id value expiration =>
       RedisCluster.wrappedCall T connect config id
         (RedisConnection.forceUpdate T id value expiration))
    (fun id =>
       RedisCluster.wrappedCall T connect config id (RedisConnection.remove T id))
    (fun fuel context callback =>
       ContextScan.cluster_scanContextTypeless T scan connect fuel context callback).

(** ** redis-store.cpp: the storage service *)

Module RedisStorageService.

Definition redisMaxKeySize : Z := u32 (512 * 1000 * 1000).
Definition redisShibMaxContextSize : Z := u32 (redisMaxKeySize / 2 - 1).
Definition redisShibMaxKeySize : Z := u32 (redisMaxKeySize / 2 - 2).
Definition redisMaxValueSize : Z := u32 (512 * 1000 * 1000).

(** [Capabilities], the three sizes of its constructor, which takes
    [unsigned int]s. *)
Record Capabilities : Type := mkCapabilities {
  contextSize : Z;
  keySize : Z;
  stringSize : Z
}.

Section WithStore.

Context {S St : Type} (T : Transport S) (m_connection : RedisClass.RedisOperations S St).

(** The constructor's [m_capabilities]: the subtraction is made in
    [size_t] and narrowed. *)
Definition getCapabilities : Capabilities :=
  mkCapabilities redisShibMaxContextSize
    (u32 (StdString.size_t (redisShibMaxKeySize - StdString.size (RedisClass.getPrefix m_connection))))
    redisMaxValueSize.

Definition createString (context key value : string) (expiration : Z) : M St bool :=
  let id := RedisClass.make_id m_connection context key in
  RedisClass.set m_connection id value expiration.

(** [pvalue] and [pexpiration] say whether the pointers are non-null. *)
Definition readString (context key : string) (pvalue pexpiration : bool) (version : Z)
    : M St RedisConnection.Read :=
  let id := RedisClass.make_id m_connection context key in
  if version >? 0 then RedisClass.getVersioned m_connection id pvalue pexpiration version
  else RedisClass.forceGet m_connection id pvalue pexpiration.

Definition updateString (context key value : string) (expiration version : Z) : M St Z :=
  let id := RedisClass.make_id m_connection context key in
  if version >? 0 then RedisClass.updateVersioned m_connection id value expiration version
  else RedisClass.forceUpdate m_connection id value expiration.

Definition deleteString (context key : string) : M St bool :=
  let id := RedisClass.make_id m_connection context key in
  RedisClass.remove m_connection id.

Definition createText := createString.
Definition readText := readString.
Definition updateText := updateString.
Definition deleteText := deleteString.

(** [reap]: nothing. *)
Definition reap (context : string) : M St unit := ret tt.

Definition updateContext (fuel : nat) (context : string) (expiration : Z)
    : M St (option unit) :=
  RedisClass.scanContext m_connection fuel context (ContextScan.SetExpirationTo T expiration).

Definition deleteContext (fuel : nat) (context : string) : M St (option unit) :=
  RedisClass.scanContext m_connection fuel context (ContextScan.Delete T).

End WithStore.
End RedisStorageService.

(** The service over one connection that answers from a script. *)
Definition scripted_service (prefix : string)
    : RedisClass.RedisOperations (list (option redisReply))
        (Connection (list (option redisReply))) :=
  single_instance Script.transport scripted_scan prefix.

(** ** The server's side of a scan *)

Module RedisScan.

(** The glob matching of [MATCH], for patterns of literal characters and
    [*]: a [*] stands for any text, every other character for itself.
    (The other operators of a glob, [?], a class in brackets and the
    backslash, do not occur in the patterns considered.) *)
Fixpoint stringmatch (pattern : string) : string -> bool :=
  match pattern with
  | EmptyString => fun s => match s with EmptyString => true | _ => false end
  | String p pattern' =>
      if Ascii.eqb p "*"
      then fix star (s : string) : bool :=
             stringmatch pattern' s
             || match s with
                | EmptyString => false
                | String _ s' => star s'
                end
      else fun s =>
             match s with
             | String c s' => Ascii.eqb p c && stringmatch pattern' s'
             | EmptyString => false
             end
  end.


(** [SCAN cursor MATCH pattern] outside a transaction: all the keys that
    match, in one round, with the cursor 0 that ends the scan.  (The server
    may take more rounds; it returns every key that is there throughout at
    least once.) *)
Definition scan (s : Redis.State) (_ : Z) (pattern : string)
    : Redis.State * option redisReply :=
  let s1 := Redis.interfere s in
  (s1,
   Some (REPLY_ARRAY
           [REPLY_STRING "0";
            REPLY_ARRAY (map REPLY_STRING
                           (List.filter (stringmatch pattern)
                                        (map fst (map_to_list (Redis.store s1)))))])).

End RedisScan.

(** The service over one connection to a server. *)
Definition served (prefix : string)
    : RedisClass.RedisOperations Redis.State (Connection Redis.State) :=
  single_instance Redis.transport RedisScan.scan prefix.

(** ** redis.h, redis.cpp: the cluster part of the configuration *)

Module Configuration.

(** A child node of the [Cluster] element, with what the parser asks of
    it: its type, the value of a text node, the local name of an element,
    its text content as [auto_ptr_char] transcodes it, and the integer that
    [XMLHelper::getAttrInt] finds in its [port] attribute, if it finds
    one.  [OTHER_NODE] stands for the node types the parser does not name
    (a CDATA section, a processing instruction, an entity reference). *)
Inductive DOMNode : Type :=
  | COMMENT_NODE
  | TEXT_NODE (nodeValue : string)
  | ELEMENT_NODE (localName textContent : string) (port : option Z)
  | OTHER_NODE.

(** [XMLHelper::getAttrInt(e, defValue, name)]. *)
Definition getAttrInt (found : option Z) (defValue : Z) : Z :=
  match found with
  | Some i => i
  | None => defValue
  end.

(** [std::all_of(textData.cbegin(), textData.cend(), ::iswspace)], the
    characters classified as in the C locale. *)
Fixpoint all_of (p : ascii -> bool) (textData : string) : bool :=
  match textData with
  | EmptyString => true
  | String c rest => p c && all_of p rest
  end.

Definition iswspace (c : ascii) : bool := StdString.isspace c.

(** The loop of [readClusterConfig] over the children of [Cluster]. *)
Fixpoint hosts_loop (hosts : list DOMNode) (defaultPort : Z) (nodes : list ClusterNode)
    : outcome (list ClusterNode) :=
  match hosts with
  | [] => Ret nodes
  | host :: rest =>
      match host with
      | COMMENT_NODE => hosts_loop rest defaultPort nodes
      | TEXT_NODE nodeValue =>
          if all_of iswspace nodeValue then hosts_loop rest defaultPort nodes
          else Throw XMLToolingException
      | ELEMENT_NODE localName textContent port =>
          if negb (String.eqb localName "Host") then Throw XMLToolingException
          else hosts_loop rest defaultPort
                 (nodes ++ [mkClusterNode textContent (u16 (getAttrInt port defaultPort))])
      | OTHER_NODE => Throw XMLToolingException
      end
  end.

(** [readClusterConfig(e, defaultPort)]; [cluster] is what
    [getFirstChildElement(e, Cluster)] finds: the child nodes of the first
    [Cluster] child of [e], or nothing. *)
Definition readClusterConfig (cluster : option (list DOMNode)) (defaultPort : Z)
    : outcome (list ClusterNode) :=
  match cluster with
  | None => Ret []
  | Some hosts =>
      if (List.length hosts =? 0)%nat then Throw XMLToolingException
      else hosts_loop hosts defaultPort []
  end.

(** [RedisConfig::clustered]. *)
Definition clustered (config : RedisConfig) : bool :=
  match initialNodes config with
  | [] => false
  | _ => true
  end.

End Configuration.

(** What the parser passes over, what it takes, and the nodes of the
    children it takes. *)
Definition passed_over (child : Configuration.DOMNode) : bool :=
  match child with
  | Configuration.COMMENT_NODE => true
  | Configuration.TEXT_NODE v => Configuration.all_of Configuration.iswspace v
  | _ => false
  end.

Definition is_host (child : Configuration.DOMNode) : bool :=
  match child with
  | Configuration.ELEMENT_NODE localName _ _ => String.eqb localName "Host"
  | _ => false
  end.

Definition host_nodes (defaultPort : Z) (children : list Configuration.DOMNode)
    : list ClusterNode :=
  flat_map (fun child =>
              match child with
              | Configuration.ELEMENT_NODE _ textContent port =>
                  [mkClusterNode textContent
                     (u16 (Configuration.getAttrInt port defaultPort))]
              | _ => []
              end) children.


(** * Properties *)

(** ** Hash slots (redis-crc-16.h, storage-id.h) *)

Module RedisCrc16Facts.
Import RedisCrc16 RedisCrc16Check.

Lemma in_bytes (b : Z) : 0 <= b < 256 -> In b bytes.
Proof.
  intros Hb. apply in_map_iff. exists (Z.to_nat b).
  split; [lia|]. apply in_seq. lia.
Qed.

Lemma agrees_all :
  forallb (fun h => forallb (fun l => agrees (256 * h + l)) bytes) bytes = true.
Proof. vm_compute. reflexivity. Qed.

Lemma rounds_table (x : Z) :
  0 <= x < 65536 ->
  xmodem_rounds x
  = Z.lxor (Z.land (Z.shiftl x 8) 0xFFFF)
           (nth (Z.to_nat (Z.shiftr x 8)) Crc16Constants 0).
Proof.
  intros Hx.
  pose proof agrees_all as H.
  rewrite forallb_forall in H.
  assert (Hh : 0 <= x / 256 < 256).
  { split; [apply Z.div_pos | apply Z.div_lt_upper_bound]; lia. }
  assert (Hl : 0 <= x mod 256 < 256) by (apply Z.mod_pos_bound; lia).
  specialize (H _ (in_bytes _ Hh)).
  rewrite forallb_forall in H.
  specialize (H _ (in_bytes _ Hl)).
  rewrite <- Z.div_mod in H by lia.
  apply Z.eqb_eq, H.
Qed.

Lemma byte_of_range (c : ascii) : 0 <= byte_of c < 256.
Proof.
  unfold byte_of. pose proof (N_ascii_bounded c). lia.
Qed.

Lemma index_agrees_all :
  forallb (fun h => forallb (index_agrees h) bytes) bytes = true.
Proof. vm_compute. reflexivity. Qed.

Lemma index_char (h : Z) (c : ascii) :
  0 <= h < 256 ->
  Z.land (Z.lxor h (char_to_unsigned c)) 0xFF = Z.lxor h (byte_of c).
Proof.
  intros Hh.
  pose proof index_agrees_all as H.
  rewrite forallb_forall in H.
  specialize (H _ (in_bytes _ Hh)).
  rewrite forallb_forall in H.
  specialize (H _ (in_bytes _ (byte_of_range c))).
  apply Z.eqb_eq in H. exact H.
Qed.

Lemma lxor_below (a b : Z) (n : Z) :
  0 <= n -> 0 <= a < 2 ^ n -> 0 <= b < 2 ^ n -> 0 <= Z.lxor a b < 2 ^ n.
Proof.
  intros Hn Ha Hb.
  assert (H0 : 0 <= Z.lxor a b) by (apply Z.lxor_nonneg; lia).
  split; [exact H0|].
  destruct (Z.eq_dec (Z.lxor a b) 0) as [->|Hne]; [lia|].
  assert (Hpos : 0 < n).
  { destruct (Z.eq_dec n 0) as [->|]; [|lia].
    assert (a = 0) as -> by (simpl in Ha; lia).
    assert (b = 0) as -> by (simpl in Hb; lia).
    now destruct Hne. }
  apply Z.log2_lt_pow2; [lia|].
  eapply Z.le_lt_trans; [apply Z.log2_lxor; lia|].
  apply Z.max_lub_lt.
  - destruct (Z.eq_dec a 0) as [->|]; [simpl; lia|]. apply Z.log2_lt_pow2; lia.
  - destruct (Z.eq_dec b 0) as [->|]; [simpl; lia|]. apply Z.log2_lt_pow2; lia.
Qed.

Lemma land_lxor_distr (a b m : Z) :
  Z.land (Z.lxor a b) m = Z.lxor (Z.land a m) (Z.land b m).
Proof.
  apply Z.bits_inj'. intros n Hn.
  rewrite Z.lxor_spec, !Z.land_spec, Z.lxor_spec.
  destruct (Z.testbit a n), (Z.testbit b n), (Z.testbit m n); reflexivity.
Qed.

Lemma xmodem_bit_range (x : Z) : 0 <= xmodem_bit x < 65536.
Proof.
  unfold xmodem_bit.
  change 0xFFFF with (Z.ones 16).
  destruct (Z.testbit x 15); rewrite Z.land_ones by lia;
    apply Z.mod_pos_bound; lia.
Qed.

Lemma xmodem_rounds_range (x : Z) : 0 <= xmodem_rounds x < 65536.
Proof. unfold xmodem_rounds. simpl. apply xmodem_bit_range. Qed.

Lemma xmodem_byte_range (crc : Z) (c : ascii) : 0 <= xmodem_byte crc c < 65536.
Proof. apply xmodem_rounds_range. Qed.

(** One step of the table-driven [operator()] is one byte of the
    reference algorithm. *)
Lemma call_xmodem_byte (acc : Z) (c : ascii) :
  0 <= acc < 65536 -> call acc c = xmodem_byte acc c.
Proof.
  intros Hacc.
  pose proof (byte_of_range c) as Hb.
  assert (Hs : 0 <= Z.shiftl (byte_of c) 8 < 2 ^ 16).
  { rewrite Z.shiftl_mul_pow2 by lia. lia. }
  unfold xmodem_byte. fold (byte_of c).
  rewrite rounds_table by (apply (lxor_below _ _ 16); lia).
  unfold call. f_equal.
  - unfold u32. rewrite Z.mod_small.
    2:{ rewrite Z.shiftl_mul_pow2 by lia. lia. }
    rewrite Z.shiftl_lxor.
    change 0xFFFF with (Z.ones 16).
    rewrite !Z.land_ones by lia.
    rewrite !Z.shiftl_mul_pow2 by lia.
    rewrite <- !Z.land_ones by lia.
    rewrite land_lxor_distr.
    replace (Z.land (byte_of c * 2 ^ 8 * 2 ^ 8) (Z.ones 16)) with 0.
    + now rewrite Z.lxor_0_r.
    + rewrite Z.land_ones by lia.
      replace (byte_of c * 2 ^ 8 * 2 ^ 8) with (byte_of c * 2 ^ 16) by lia.
      now rewrite Z.mod_mul by lia.
  - f_equal. f_equal.
    rewrite Z.shiftr_lxor, Z.shiftr_shiftl_l by lia.
    change (8 - 8) with 0. rewrite Z.shiftl_0_r.
    apply index_char.
    rewrite Z.shiftr_div_pow2 by lia.
    split; [apply Z.div_pos | apply Z.div_lt_upper_bound]; lia.
Qed.

(** [calculate] from a 16-bit start is the reference fold, and stays
    within 16 bits. *)
Lemma fold_call (l : list ascii) (acc : Z) :
  0 <= acc < 65536 ->
  fold_left call l acc = fold_left xmodem_byte l acc
  /\ 0 <= fold_left xmodem_byte l acc < 65536.
Proof.
  revert acc. induction l as [|c l IH]; intros acc Hacc; simpl.
  - split; [reflexivity | exact Hacc].
  - rewrite call_xmodem_byte by exact Hacc.
    apply IH, xmodem_byte_range.
Qed.

Lemma list_ascii_of_string_app (s t : string) :
  list_ascii_of_string (s ++ t)%string
  = (list_ascii_of_string s ++ list_ascii_of_string t)%list.
Proof. induction s as [|c s IH]; simpl; [reflexivity | now rewrite IH]. Qed.

(** Chaining [calculate] through two pieces is [calculate] on their
    concatenation. *)
Lemma calculate_app (s t : string) (initial : Z) :
  calculate t (calculate s initial) = calculate (s ++ t)%string initial.
Proof.
  unfold calculate. now rewrite list_ascii_of_string_app, fold_left_app.
Qed.

Lemma calculate_xmodem (s : string) :
  calculate s Initial = crc16_xmodem s.
Proof.
  unfold calculate, crc16_xmodem, Initial.
  apply fold_call. lia.
Qed.

Lemma crc16_xmodem_range (s : string) : 0 <= crc16_xmodem s < 65536.
Proof. unfold crc16_xmodem. apply (fold_call _ 0). lia. Qed.

End RedisCrc16Facts.

Lemma hashSlotUsing_calculate (id : StorageId) :
  hashSlotUsing id
  = RedisCrc16.calculate (hashed id) RedisCrc16.Initial mod 16384.
Proof.
  unfold hashSlotUsing, hashed.
  now rewrite !RedisCrc16Facts.calculate_app.
Qed.

Lemma hashSlotUsing_xmodem (id : StorageId) :
  hashSlotUsing id = RedisCrc16.crc16_xmodem (hashed id) mod 16384.
Proof.
  now rewrite hashSlotUsing_calculate, RedisCrc16Facts.calculate_xmodem.
Qed.

(** C5.  The hash slot of every storage id is the CRC16-XMODEM (polynomial
    0x1021, initial value 0, nothing reflected, no final XOR) of the bytes
    context, colon, prefix, key, taken modulo 16384; the CRC streamed through
    the four pieces is the CRC of their concatenation; the CRC of
    "123456789" is 0x31C3 and that of "foo" modulo 16384 is 12182. *)
Theorem hash_slot_is_crc16_xmodem :
  (forall id : StorageId,
      hashSlotUsing id = RedisCrc16.crc16_xmodem (hashed id) mod 16384
      /\ RedisCrc16.calculate (key id)
           (RedisCrc16.calculate (prefix id)
              (RedisCrc16.calculate ":"
                 (RedisCrc16.calculate (context id) RedisCrc16.Initial)))
         = RedisCrc16.calculate (hashed id) RedisCrc16.Initial)
  /\ RedisCrc16.calculate "123456789" RedisCrc16.Initial = 0x31C3
  /\ RedisCrc16.crc16_xmodem "123456789" = 0x31C3
  /\ RedisCrc16.calculate "foo" RedisCrc16.Initial mod 16384 = 12182
  /\ RedisCrc16.crc16_xmodem "foo" mod 16384 = 12182.
Proof.
  split; [|repeat split; vm_compute; reflexivity].
  intros id. split.
  - apply hashSlotUsing_xmodem.
  - unfold hashed. now rewrite !RedisCrc16Facts.calculate_app.
Qed.

(** ** Slot ranges (cluster-range.h) *)

Module ClusterRangeFacts.
Import ClusterRange.

Lemma compare_values (a b : ClusterRange) :
  compare a b = -1 \/ compare a b = 0 \/ compare a b = 1.
Proof.
  unfold compare.
  destruct (m_start a <? m_start b); [auto|].
  destruct (m_start a >? m_start b); [auto|].
  destruct (m_end a <? m_end b); [auto|].
  destruct (m_end a >? m_end b); auto.
Qed.

(** [compare] is the lexicographic order on (start, end). *)
Lemma compare_lexicographic (a b : ClusterRange) :
  (compare a b = -1 <->
     m_start a < m_start b \/ (m_start a = m_start b /\ m_end a < m_end b))
  /\ (compare a b = 0 <-> m_start a = m_start b /\ m_end a = m_end b)
  /\ (compare a b = 1 <->
     m_start a > m_start b \/ (m_start a = m_start b /\ m_end a > m_end b)).
Proof.
  unfold compare.
  destruct (Z.ltb_spec (m_start a) (m_start b));
    destruct (Z.gtb_spec (m_start a) (m_start b));
    destruct (Z.ltb_spec (m_end a) (m_end b));
    destruct (Z.gtb_spec (m_end a) (m_end b)); lia.
Qed.

Lemma compare_refl (a : ClusterRange) : compare a a = 0.
Proof. apply compare_lexicographic. split; reflexivity. Qed.

(** [compare(StorageId)]: 1 below the range, -1 above it, 0 inside. *)
Lemma compare_id_cases (r : ClusterRange) (id : StorageId) :
  let s := hashSlotUsing id mod HashSlots in
  (s < m_start r -> compare_id r id = 1)
  /\ (m_start r <= s -> m_end r < s -> compare_id r id = -1)
  /\ (m_start r <= s <= m_end r -> compare_id r id = 0).
Proof.
  unfold compare_id. cbv zeta.
  destruct (Z.ltb_spec (hashSlotUsing id mod HashSlots) (m_start r));
    destruct (Z.gtb_spec (hashSlotUsing id mod HashSlots) (m_end r));
    repeat split; intros; try reflexivity; lia.
Qed.

(** The other five operators on two ranges say what their names say. *)
Lemma operators_sound (a b : ClusterRange) :
  (operator_lt a b = true <-> compare a b < 0)
  /\ (operator_gt a b = true <-> compare a b > 0)
  /\ (operator_ge a b = true <-> compare a b >= 0)
  /\ (operator_eq a b = true <-> compare a b = 0)
  /\ (operator_ne a b = true <-> compare a b <> 0).
Proof.
  unfold operator_lt, operator_gt, operator_ge, operator_eq, operator_ne.
  repeat split; intros H;
    try (destruct (Z.eqb_spec (compare a b) 0); simpl in *; congruence);
    lia.
Qed.

End ClusterRangeFacts.

(** C10.  On the code [operator<=] of two ranges is [compare < 0], the same
    as [operator<]: for every range [a], [a <= a] is false although
    [compare(a, a)] is 0, so [a <= b] does not hold exactly when
    [compare(a, b) <= 0]. *)
Theorem operator_le_is_strict :
  forall a b : ClusterRange,
    ClusterRange.operator_le a a = false
    /\ ClusterRange.compare a a = 0
    /\ ClusterRange.operator_le a b = ClusterRange.operator_lt a b.
Proof.
  intros a b.
  unfold ClusterRange.operator_le, ClusterRange.operator_lt.
  rewrite ClusterRangeFacts.compare_refl.
  repeat split.
Qed.

(** ** Back-off (RedisCluster::tryWaitWithRetryNumber) *)

Module BackoffFacts.
Import RedisCluster.

Lemma one_shifted_pow2 (r : Z) :
  0 <= r < 32 -> one_shifted r = Some (2 ^ r).
Proof.
  intros Hr. unfold one_shifted.
  destruct (Z.ltb_spec r 32); [|lia].
  f_equal. rewrite Z.shiftl_1_l.
  assert (Hp : 0 < 2 ^ r <= 2 ^ 31).
  { split; [apply Z.pow_pos_nonneg; lia | apply Z.pow_le_mono_r; lia]. }
  unfold u32, to_int.
  destruct (Z.eq_dec r 31) as [->|]; [reflexivity|].
  assert (2 ^ r < 2 ^ 31) by (apply Z.pow_lt_mono_r; lia).
  rewrite (Z.mod_small (2 ^ r + 2 ^ 31)) by lia.
  rewrite Z.mod_small; lia.
Qed.

Lemma waitTime_cap (config : RedisConfig) :
  waitTime (maxWait config)
  = if maxWait config =? 0 then UINT_MAX else maxWait config.
Proof. unfold waitTime. destruct (maxWait config =? 0); reflexivity. Qed.

(** Past [maxRetries] there is no retry and no sleep. *)
Lemma no_retry {S : Type} (config : RedisConfig) (r : Z) (cl : State (S := S)) :
  maxRetries config < r <= INT_MAX ->
  tryWaitWithRetryNumber config r cl = (Ret false, cl).
Proof.
  intros Hr. unfold tryWaitWithRetryNumber, INT_MAX in *.
  unfold u32. assert (0 <= maxRetries config \/ maxRetries config < 0) as [H|H] by lia.
  - rewrite Z.mod_small by lia.
    destruct (Z.gtb_spec r (maxRetries config)); [reflexivity | lia].
  - pose proof (Z.mod_pos_bound r (2 ^ 32) ltac:(lia)).
    destruct (Z.gtb_spec (r mod 2 ^ 32) (maxRetries config)); [reflexivity | lia].
Qed.

End BackoffFacts.

(** C9, as the code has it.  For a retry number [r] from 0 to [maxRetries]
    the router retries, and sleeps exactly [min(baseWait * 2^r, maxWait)]
    milliseconds ([maxWait = 0] standing for [UINT_MAX]) provided the
    32-bit arithmetic does not wrap: [r] is below 32, [baseWait * 2^r] fits
    an [unsigned int], and so does the sleep in microseconds.  Past
    [maxRetries] it does not retry and does not sleep. *)
Theorem backoff_exact_without_wrap :
  forall (S : Type) (config : RedisConfig) (r : Z) (cl : RedisCluster.State (S := S)),
    0 <= baseWait config ->
    0 <= maxWait config ->
    (0 <= r <= maxRetries config ->
     r < 32 ->
     baseWait config * 2 ^ r <= UINT_MAX ->
     1000 * backoff_ms config r <= UINT_MAX ->
     RedisCluster.tryWaitWithRetryNumber config r cl
     = (Ret true,
        RedisCluster.mkState (RedisCluster.m_connection_map cl)
          (RedisCluster.m_cluster_map cl) (RedisCluster.fresh cl)
          (RedisCluster.m_logged cl)
          (RedisCluster.slept cl ++ [1000 * backoff_ms config r])))
    /\ (maxRetries config < r <= INT_MAX ->
        RedisCluster.tryWaitWithRetryNumber config r cl = (Ret false, cl)).
Proof.
  intros S config r cl Hb Hm. split; [|apply BackoffFacts.no_retry].
  intros Hr H32 Hw Hus.
  unfold RedisCluster.tryWaitWithRetryNumber, UINT_MAX in *.
  assert (Hp : 0 < 2 ^ r) by (apply Z.pow_pos_nonneg; lia).
  assert (Hru : u32 r = r).
  { unfold u32. apply Z.mod_small. lia. }
  rewrite Hru.
  destruct (Z.gtb_spec r (maxRetries config)); [lia|].
  rewrite BackoffFacts.one_shifted_pow2 by lia.
  rewrite BackoffFacts.waitTime_cap.
  assert (Hto : u32 (baseWait config * 2 ^ r) = baseWait config * 2 ^ r).
  { unfold u32. apply Z.mod_small. nia. }
  rewrite Hto. fold (backoff_ms config r) in *.
  unfold backoff_ms in *. fold UINT_MAX.
  assert (Hnn : 0 <= Z.min (baseWait config * 2 ^ r)
                        (if maxWait config =? 0 then UINT_MAX else maxWait config)).
  { apply Z.min_glb; [nia|]. destruct (maxWait config =? 0); unfold UINT_MAX; lia. }
  unfold u32 at 1. rewrite Z.mod_small by (unfold UINT_MAX in *; lia).
  reflexivity.
Qed.

(** The amended C9 at the defaults of redis.cpp, third retry: 4000 ms. *)
Lemma backoff_exact_without_wrap_witness :
  RedisCluster.tryWaitWithRetryNumber default_retries 3 (@blank unit)
  = (Ret true, RedisCluster.mkState [] [] 0%nat [] [4000000])
  /\ RedisCluster.tryWaitWithRetryNumber default_retries 6 (@blank unit)
     = (Ret false, blank).
Proof.
  destruct (backoff_exact_without_wrap unit default_retries 3 blank) as [H _];
    [simpl; lia | simpl; lia |].
  destruct (backoff_exact_without_wrap unit default_retries 6 blank) as [_ H'];
    [simpl; lia | simpl; lia |].
  split.
  - apply H; vm_compute; intuition discriminate.
  - apply H'. vm_compute. intuition discriminate.
Defined.

(** C9 as stated fails once the arithmetic wraps: with the default base
    wait of 500 ms, no cap and fourteen retries allowed, retry 14 sleeps
    3897032704 microseconds and not 500 * 2^14 milliseconds. *)
Lemma backoff_wraps_around :
  0 <= 14 <= maxRetries fourteen_retries
  /\ RedisCluster.tryWaitWithRetryNumber fourteen_retries 14 (@blank unit)
     = (Ret true, RedisCluster.mkState [] [] 0%nat [] [3897032704])
  /\ 3897032704 <> 1000 * backoff_ms fourteen_retries 14.
Proof.
  repeat split; vm_compute; congruence.
Qed.

(** ** The error classifier (RedisConnection::handleCommandError) *)

Module ClassifierFacts.
Import RedisConnection.

(** Whatever it says, an error reply of more than ten bytes is taken for
    CLUSTERDOWN. *)
Lemma long_error_is_connection_lost {S A : Type} (err_str : string) (c : Connection S) :
  StdString.size err_str > 10 ->
  fst (handleCommandError (A := A) err_str c) = Throw ConnectionLostException.
Proof.
  intros Hlen. unfold handleCommandError, sizeof_CLUSTERDO, bind, log. simpl.
  destruct (Z.gtb_spec (StdString.size err_str) 10); [reflexivity | lia].
Qed.

(** An error reply of at most six bytes is a protocol error. *)
Lemma short_error_is_protocol {S A : Type} (err_str : string) (c : Connection S) :
  StdString.size err_str <= 6 ->
  fst (handleCommandError (A := A) err_str c) = Throw IOException.
Proof.
  intros Hlen. unfold handleCommandError, sizeof_CLUSTERDO, sizeof_MOVED, bind, log. simpl.
  destruct (Z.gtb_spec (StdString.size err_str) 10); [lia|].
  destruct (Z.gtb_spec (StdString.size err_str) 6); [lia | reflexivity].
Qed.

(** The parser itself, had it been reached, finds the host and the port,
    and falls back on port 6379 with a critical log entry. *)
Lemma moved_parser_examples {S : Type} (c : Connection S) :
  fst (handlePotentialMovedError moved_reply c)
  = Throw (RedirectedException "10.0.0.2" 6379)
  /\ handlePotentialMovedError "MOVED 7000 10.0.0.2:port" (connected (server c))
     = (Throw (RedirectedException "10.0.0.2" 6379),
        mkConnection (server c) [] []
          [(WARN, "Redis cluster configuration changed");
           (CRIT, "port value is not an integer, trying 6379")])
  /\ fst (handlePotentialMovedError "CLUSTERDOWN" c) = Ret tt.
Proof. repeat split. Qed.

(** Only a redirection of seven to ten bytes gets through to the parser. *)
Lemma shortest_redirection {S : Type} (c : Connection S) :
  fst (handleCommandError (A := unit) "MOVED 1 h:2" c) = Throw ConnectionLostException
  /\ fst (handleCommandError (A := unit) "MOVED 1 :2" c) = Throw (RedirectedException "" 2)
  /\ fst (handleCommandError (A := unit) "CLUSTERDOWN" c) = Throw ConnectionLostException
  /\ fst (handleCommandError (A := unit) "ERR syntax" c) = Throw IOException.
Proof. repeat split. Qed.

End ClassifierFacts.

(** C1.  On the code the classifier does not get as far as the redirection:
    an error reply of more than ten bytes raises ConnectionLost before its
    text is looked at.  The reply "MOVED 7000 10.0.0.2:6379" raises
    ConnectionLost and not Redirected("10.0.0.2", 6379), which is what the
    redirection parser gives when called on it, and the WRONGTYPE error
    raises ConnectionLost and not Protocol; so does the same reply read off
    a connection. *)
Theorem moved_reply_raises_connection_lost :
  forall (S : Type) (T : Transport S) (c : Connection S),
    fst (RedisConnection.handleCommandError (A := unit) moved_reply c)
    = Throw ConnectionLostException
    /\ fst (RedisConnection.handlePotentialMovedError moved_reply c)
       = Throw (RedirectedException "10.0.0.2" 6379)
    /\ fst (RedisConnection.handleCommandError (A := unit) wrongtype_reply c)
       = Throw ConnectionLostException
    /\ fst (RedisConnection.getNextFromConnection T REDIS_REPLY_STATUS
              (mkConnection (server c) [Some (REPLY_ERROR moved_reply)]
                            (written c) (logged c)))
       = Throw ConnectionLostException.
Proof.
  intros S T c. repeat split.
Qed.

(** ** The router (redis-cluster.h, redis-cluster.cpp) *)

(** The lookup in the slot map *)

Module SlotMapFacts.
Import RedisCluster.

Lemma operator_lt_id_above (s : Slot) (id : StorageId) :
  ClusterRange.operator_lt_id (range s) id = true
  <-> m_start (range s) <= slot_of id /\ m_end (range s) < slot_of id.
Proof.
  unfold ClusterRange.operator_lt_id, ClusterRange.compare_id, slot_of. cbv zeta.
  destruct (Z.ltb_spec (hashSlotUsing id mod ClusterRange.HashSlots) (m_start (range s)));
    destruct (Z.gtb_spec (hashSlotUsing id mod ClusterRange.HashSlots) (m_end (range s)));
    split; intros; try discriminate; try reflexivity; lia.
Qed.

Lemma id_operator_lt_below (s : Slot) (id : StorageId) :
  ClusterRange.id_operator_lt id (range s) = true <-> slot_of id < m_start (range s).
Proof.
  unfold ClusterRange.id_operator_lt, ClusterRange.compare_id, slot_of. cbv zeta.
  destruct (Z.ltb_spec (hashSlotUsing id mod ClusterRange.HashSlots) (m_start (range s)));
    destruct (Z.gtb_spec (hashSlotUsing id mod ClusterRange.HashSlots) (m_end (range s)));
    split; intros; try discriminate; try reflexivity; lia.
Qed.

Lemma lower_bound_range (l : list Slot) (id : StorageId) (fuel : nat) :
  forall first count : nat,
    (count < fuel)%nat ->
    (first <= lower_bound fuel l id first count <= first + count)%nat.
Proof.
  induction fuel as [|fuel IH]; intros first count Hf; [lia|].
  cbn [lower_bound]; cbv zeta. destruct (Nat.eqb_spec count 0) as [->|Hc]; [lia|].
  assert (Hstep : (count / 2 < count)%nat) by (apply Nat.div_lt; lia).
  destruct (nth_error l (first + count / 2)) as [s|]; [|lia].
  destruct (ClusterRange.operator_lt_id (range s) id).
  - specialize (IH (Datatypes.S (first + count / 2)) (count - (count / 2 + 1))%nat). lia.
  - specialize (IH first (count / 2)%nat). lia.
Qed.

(** The search stops on an element that is not below the id, or at the end. *)
Lemma lower_bound_stops (l : list Slot) (id : StorageId) (fuel : nat) :
  forall first count : nat,
    (count < fuel)%nat ->
    (first + count <= List.length l)%nat ->
    (forall s, nth_error l (first + count) = Some s ->
               ClusterRange.operator_lt_id (range s) id = false) ->
    forall s, nth_error l (lower_bound fuel l id first count) = Some s ->
              ClusterRange.operator_lt_id (range s) id = false.
Proof.
  induction fuel as [|fuel IH]; intros first count Hf Hlen Hend s; [lia|].
  cbn [lower_bound]; cbv zeta. destruct (Nat.eqb_spec count 0) as [->|Hc].
  { rewrite Nat.add_0_r in Hend. apply Hend. }
  assert (Hstep : (count / 2 < count)%nat) by (apply Nat.div_lt; lia).
  destruct (nth_error l (first + count / 2)) as [s0|] eqn:E.
  2:{ apply nth_error_None in E. lia. }
  destruct (ClusterRange.operator_lt_id (range s0) id) eqn:E0.
  - apply IH; [lia|lia|].
    replace (Datatypes.S (first + count / 2) + (count - (count / 2 + 1)))%nat
      with (first + count)%nat by lia.
    exact Hend.
  - apply IH; [lia|lia|].
    intros s1 H1. rewrite E in H1. injection H1 as <-. exact E0.
Qed.

(** On a map in which the elements below the id come first, every element
    before the place where the search stops is below the id. *)
Lemma lower_bound_passes (l : list Slot) (id : StorageId) (fuel : nat) :
  (forall i j si sj, (i <= j)%nat -> nth_error l i = Some si -> nth_error l j = Some sj ->
     ClusterRange.operator_lt_id (range sj) id = true ->
     ClusterRange.operator_lt_id (range si) id = true) ->
  forall first count : nat,
    (count < fuel)%nat ->
    (first + count <= List.length l)%nat ->
    (forall k s, (k < first)%nat -> nth_error l k = Some s ->
                 ClusterRange.operator_lt_id (range s) id = true) ->
    forall k s, (k < lower_bound fuel l id first count)%nat -> nth_error l k = Some s ->
                ClusterRange.operator_lt_id (range s) id = true.
Proof.
  intros Hmono.
  induction fuel as [|fuel IH]; intros first count Hf Hlen Hbefore k s; [lia|].
  cbn [lower_bound]; cbv zeta. destruct (Nat.eqb_spec count 0) as [->|Hc]; [apply Hbefore|].
  assert (Hstep : (count / 2 < count)%nat) by (apply Nat.div_lt; lia).
  destruct (nth_error l (first + count / 2)) as [s0|] eqn:E; [|apply Hbefore].
  destruct (ClusterRange.operator_lt_id (range s0) id) eqn:E0.
  - apply IH; [lia|lia|].
    intros k' s' Hk' E'. apply (Hmono k' (first + count / 2)%nat s' s0); auto. lia.
  - apply IH; [lia|lia|exact Hbefore].
Qed.

Lemma ascending_floor (l : list Slot) :
  forall (floor : Z) (s : Slot),
    ascending floor l = true -> In s l ->
    floor <= m_start (range s) <= m_end (range s).
Proof.
  induction l as [|a l IH]; intros floor s Hasc Hin; [destruct Hin|].
  simpl in Hasc. apply andb_prop in Hasc as [Hasc Hrest].
  apply andb_prop in Hasc as [H1 H2].
  apply Z.leb_le in H1, H2.
  destruct Hin as [<-|Hin]; [lia|].
  specialize (IH _ _ Hrest Hin). lia.
Qed.

Lemma ascending_apart (l : list Slot) :
  forall (floor : Z) (i j : nat) (si sj : Slot),
    ascending floor l = true -> (i < j)%nat ->
    nth_error l i = Some si -> nth_error l j = Some sj ->
    m_end (range si) < m_start (range sj).
Proof.
  induction l as [|a l IH]; intros floor i j si sj Hasc Hij Hi Hj.
  { destruct i; discriminate. }
  simpl in Hasc. apply andb_prop in Hasc as [_ Hrest].
  destruct j as [|j]; [lia|]. simpl in Hj.
  destruct i as [|i].
  - injection Hi as <-. apply nth_error_In in Hj.
    pose proof (ascending_floor _ _ _ Hrest Hj). lia.
  - simpl in Hi. apply (IH _ i j si sj Hrest); auto. lia.
Qed.

(** What [find] returns is an element of the map whose range holds the
    slot of the id. *)
Lemma find_sound (l : list Slot) (id : StorageId) (s : Slot) :
  find l id = Some s -> In s l /\ holds s (slot_of id).
Proof.
  unfold find. cbv zeta.
  destruct (nth_error l _) as [s0|] eqn:E; [|discriminate].
  destruct (ClusterRange.id_operator_lt id (range s0)) eqn:Hlt; [discriminate|].
  intros H. injection H as <-.
  split; [eapply nth_error_In; eauto|].
  assert (Hnot : ClusterRange.operator_lt_id (range s0) id = false).
  { apply (lower_bound_stops l id (Datatypes.S (List.length l)) 0 (List.length l));
      [lia|lia| |exact E].
    intros s1 H1. simpl in H1.
    assert (nth_error l (List.length l) = None) by (apply nth_error_None; lia).
    congruence. }
  unfold holds.
  destruct (Z.lt_ge_cases (slot_of id) (m_start (range s0))) as [Hb|Hb].
  { apply id_operator_lt_below in Hb. congruence. }
  destruct (Z.lt_ge_cases (m_end (range s0)) (slot_of id)) as [Ha|Ha]; [|lia].
  assert (ClusterRange.operator_lt_id (range s0) id = true)
    by (apply operator_lt_id_above; lia).
  congruence.
Qed.

(** On an ascending map [find] returns the element whose range holds the
    slot of the id, when there is one. *)
Lemma find_complete (l : list Slot) (id : StorageId) (s : Slot) :
  ascending 0 l = true -> In s l -> holds s (slot_of id) -> find l id = Some s.
Proof.
  intros Hasc Hin Hs.
  apply In_nth_error in Hin as [j Hj].
  assert (Hjlen : (j < List.length l)%nat) by (apply nth_error_Some; congruence).
  assert (Hsj : ClusterRange.operator_lt_id (range s) id = false).
  { destruct (ClusterRange.operator_lt_id (range s) id) eqn:E; [|reflexivity].
    apply operator_lt_id_above in E. unfold holds in Hs. lia. }
  pose proof (lower_bound_range l id (Datatypes.S (List.length l)) 0 (List.length l)
                ltac:(lia)) as Hrange.
  set (i := lower_bound (Datatypes.S (List.length l)) l id 0 (List.length l)) in *.
  assert (Hmono : forall i j si sj, (i <= j)%nat ->
            nth_error l i = Some si -> nth_error l j = Some sj ->
            ClusterRange.operator_lt_id (range sj) id = true ->
            ClusterRange.operator_lt_id (range si) id = true).
  { intros a b sa sb Hab Ha Hb Hlt.
    destruct (Nat.eq_dec a b) as [->|Hne]; [congruence|].
    pose proof (ascending_apart l 0 a b sa sb Hasc ltac:(lia) Ha Hb).
    pose proof (ascending_floor l 0 sa Hasc (nth_error_In _ _ Ha)).
    apply operator_lt_id_above in Hlt. apply operator_lt_id_above. lia. }
  assert (Hij : (i <= j)%nat).
  { destruct (Nat.le_gt_cases i j) as [|Hgt]; [assumption|].
    pose proof (lower_bound_passes l id (Datatypes.S (List.length l)) Hmono
                  0 (List.length l) ltac:(lia) ltac:(lia)
                  ltac:(intros; lia) j s Hgt Hj).
    congruence. }
  destruct (nth_error l i) as [si|] eqn:Hi.
  2:{ apply nth_error_None in Hi. lia. }
  assert (Hsi : ClusterRange.operator_lt_id (range si) id = false).
  { apply (lower_bound_stops l id (Datatypes.S (List.length l)) 0 (List.length l));
      [lia|lia| |exact Hi].
    intros s1 H1. simpl in H1.
    assert (nth_error l (List.length l) = None) by (apply nth_error_None; lia).
    congruence. }
  assert (i = j).
  { destruct (Nat.eq_dec i j) as [|Hne]; [assumption|].
    pose proof (ascending_apart l 0 i j si s Hasc ltac:(lia) Hi Hj).
    pose proof (ascending_floor l 0 si Hasc (nth_error_In _ _ Hi)).
    destruct (ClusterRange.operator_lt_id (range si) id) eqn:E; [discriminate|].
    assert (ClusterRange.operator_lt_id (range si) id = true).
    { apply operator_lt_id_above. unfold holds in Hs. lia. }
    congruence. }
  subst j. unfold find. cbv zeta. fold i. rewrite Hi.
  assert (si = s) by congruence. subst si.
  destruct (ClusterRange.id_operator_lt id (range s)) eqn:E; [|reflexivity].
  apply id_operator_lt_below in E. unfold holds in Hs. lia.
Qed.

(** On an ascending map the lookup misses exactly the slots that no range
    holds. *)
Lemma find_misses (l : list Slot) (id : StorageId) :
  ascending 0 l = true ->
  (find l id = None <-> forall s, In s l -> ~ holds s (slot_of id)).
Proof.
  intros Hasc. split.
  - intros Hnone s Hin Hs. rewrite (find_complete l id s Hasc Hin Hs) in Hnone. discriminate.
  - intros Hno. destruct (find l id) as [s|] eqn:E; [|reflexivity].
    apply find_sound in E as [Hin Hs]. destruct (Hno s Hin Hs).
Qed.

End SlotMapFacts.

Module RouterFacts.
Section WithNetwork.
Import RedisCluster.

Context {S : Type} (T : Transport S).

(** Seeds that cannot be reached are logged and skipped, one by one. *)
Lemma explore_unreachable (e : Exn) (nodes : list ClusterNode) (cl : State (S := S)) :
  fst (explore T (fun _ => Throw e) nodes cl) = Ret tt
  /\ m_cluster_map (snd (explore T (fun _ => Throw e) nodes cl)) = m_cluster_map cl
  /\ m_connection_map (snd (explore T (fun _ => Throw e) nodes cl)) = m_connection_map cl.
Proof.
  revert cl. induction nodes as [|n nodes IH]; intros cl; simpl.
  - repeat split.
  - unfold bind, warn. simpl.
    match goal with |- context [explore _ _ nodes ?cl'] => apply (IH cl') end.
Qed.

(** A lookup in the empty map finds nothing. *)
Lemma find_empty (id : StorageId) : find [] id = None.
Proof. reflexivity. Qed.

(** When the lookup finds no range, the call goes through the null
    pointer at once, whatever the operation and the retry number. *)
Lemma wrappedCall_rec_miss {R : Type} (connect : ClusterNode -> outcome S)
    (config : RedisConfig) (fuel : nat) (id : StorageId)
    (fn : M (Connection S) R) (recurse : Z) (cl : State) :
  find (m_cluster_map cl) id = None ->
  wrappedCall_rec T connect config fuel id fn recurse cl = (Undefined, cl).
Proof.
  intros Hmiss.
  destruct fuel; simpl; unfold bind, findNodeEntryUnguarded; rewrite Hmiss; reflexivity.
Qed.

Section Retries.
Context (connect : ClusterNode -> outcome S) (config : RedisConfig).

(** A wait that is granted comes with a retry number below the width of the shift. *)
Lemma tryWait_granted (retry : Z) (cl : State (S := S)) :
  fst (tryWaitWithRetryNumber config retry cl) = Ret true -> u32 retry < 32.
Proof.
  unfold tryWaitWithRetryNumber, one_shifted.
  destruct (u32 retry >? maxRetries config); [discriminate|].
  destruct (u32 retry <? 32) eqn:E; [intros _; lia | discriminate].
Qed.

(** One call of [wrappedCall], the recursive call left as it is. *)
Lemma wrappedCall_rec_unfold {R : Type} (fuel : nat) (id : StorageId)
    (fn : M (Connection S) R) (recurse : Z) (cl : State) :
  wrappedCall_rec T connect config fuel id fn recurse cl
  = let recover (e : Exn) (what : string) : M State R :=
      again <- tryWaitWithRetryNumber config recurse ;;
      if again
      then
        rebuildRangeMappingUniqueLocked T connect ;;
        match fuel with
        | O => undefined
        | Datatypes.S fuel' => wrappedCall_rec T connect config fuel' id fn (recurse + 1)
        end
      else warn ERROR what ;; throw e in
    match (node <- findNodeEntryUnguarded id ;;
           conn <- dispatchConnectionUnguarded connect node ;;
           on_connection conn fn) cl with
    | (Throw ConnectionLostException, cl') =>
        recover ConnectionLostException
          "Redis cluster failure: cannot find applicable host to connect to" cl'
    | (Throw (RedirectedException h p), cl') =>
        recover (RedirectedException h p)
          "Redis cluster failure: cannot connect to cluster after redirection" cl'
    | other => other
    end.
Proof. destruct fuel; reflexivity. Qed.

Lemma wrappedCall_rec_fuel {R : Type} (fuel : nat) :
  forall (id : StorageId) (fn : M (Connection S) R) (recurse : Z) (cl : State),
    0 <= recurse < 2 ^ 31 ->
    33 - recurse <= Z.of_nat fuel ->
    wrappedCall_rec T connect config (Datatypes.S fuel) id fn recurse cl
    = wrappedCall_rec T connect config fuel id fn recurse cl.
Proof.
  induction fuel as [|fuel IH]; intros id fn recurse cl Hr Hf;
    [ rewrite (wrappedCall_rec_unfold 1), (wrappedCall_rec_unfold 0)
    | rewrite (wrappedCall_rec_unfold (Datatypes.S (Datatypes.S fuel))),
              (wrappedCall_rec_unfold (Datatypes.S fuel)) ];
    cbv zeta;
    (destruct (bind _ _ cl) as [[r|[]|] cl']; try reflexivity;
      unfold bind;
      destruct (tryWaitWithRetryNumber config recurse cl') as [[[]|e|] cl''] eqn:E;
      try reflexivity;
      apply (f_equal fst) in E; apply tryWait_granted in E;
      unfold u32 in E; rewrite Z.mod_small in E by lia; try lia;
      destruct (rebuildRangeMappingUniqueLocked T connect cl'') as [[[]|e|] cl3];
      try reflexivity; apply IH; lia).
Qed.

(** The fuel of [wrappedCall] is never used up: more of it changes nothing. *)
Lemma wrappedCall_fuel {R : Type} (n : nat) (id : StorageId)
    (fn : M (Connection S) R) (cl : State) :
  wrappedCall_rec T connect config (33 + n) id fn 0 cl
  = wrappedCall T connect config id fn cl.
Proof.
  unfold wrappedCall. induction n as [|n IH]; [reflexivity|].
  rewrite <- IH. replace (33 + Datatypes.S n)%nat with (Datatypes.S (33 + n)) by lia.
  apply wrappedCall_rec_fuel; lia.
Qed.

End Retries.

End WithNetwork.
End RouterFacts.

(** C2.  On the code the constructor ends normally when every seed fails:
    with seeds that all refuse the connection it returns, having logged one
    error per seed, and leaves a router whose slot map and connection cache
    are empty.  No Fatal error is raised. *)
Theorem construction_survives_failed_seeds :
  forall (S : Type) (T : Transport S) (seeds : list ClusterNode)
         (retries base cap : Z),
    let config := mkRedisConfig seeds retries base cap in
    fst (RedisCluster.RedisCluster T unreachable config) = Ret tt
    /\ RedisCluster.m_cluster_map (snd (RedisCluster.RedisCluster T unreachable config)) = []
    /\ RedisCluster.m_connection_map (snd (RedisCluster.RedisCluster T unreachable config)) = [].
Proof.
  intros S T seeds retries base cap config.
  unfold RedisCluster.RedisCluster, unreachable. simpl.
  apply (RouterFacts.explore_unreachable T ConnectionLostException seeds).
Qed.

(** C8.  On the code a lookup that finds no range containing the slot of
    the id hands a null node pointer to [dispatchConnectionUnguarded], which
    goes through it: the call is undefined, and the router is left as it
    was.  Nothing is checked in between. *)
Theorem dispatch_goes_through_null :
  forall (S R : Type) (T : Transport S) (connect : ClusterNode -> outcome S)
         (config : RedisConfig) (id : StorageId) (fn : M (Connection S) R)
         (cl : RedisCluster.State),
    RedisCluster.find (RedisCluster.m_cluster_map cl) id = None ->
    RedisCluster.wrappedCall T connect config id fn cl = (Undefined, cl).
Proof.
  intros S R T connect config id fn cl Hmiss.
  unfold RedisCluster.wrappedCall.
  now apply RouterFacts.wrappedCall_rec_miss.
Qed.

(** The router the constructor leaves when no seed can be reached has an
    empty slot map: its first call is undefined. *)
Lemma dispatch_goes_through_null_witness :
  RedisCluster.find (RedisCluster.m_cluster_map (@blank Redis.State))
    (mkStorageId "s" "k" "") = None
  /\ RedisCluster.wrappedCall Redis.transport unreachable default_retries
       (mkStorageId "s" "k" "")
       (RedisConnection.remove Redis.transport (mkStorageId "s" "k" "")) blank
     = (Undefined, blank).
Proof.
  split; [reflexivity|].
  apply dispatch_goes_through_null. reflexivity.
Defined.

(** Seed failover at start: the first seed refuses the connection, the
    second answers.  The constructor returns with one error logged, the
    slot map is what the second seed reports, in ascending order, and no
    connection is kept of the exploration. *)
Lemma second_seed_fills_the_map :
  let '(o, cl) := RedisCluster.RedisCluster Redis.transport two_nodes second_seed_answers in
  o = Ret tt
  /\ map (fun s => (RedisCluster.range s, RedisCluster.node s))
         (RedisCluster.m_cluster_map cl)
     = [(mkClusterRange 0 8191, mkClusterNode "10.0.0.1" 6379);
        (mkClusterRange 8192 16383, mkClusterNode "10.0.0.2" 6379)]
  /\ ascending 0 (RedisCluster.m_cluster_map cl) = true
  /\ RedisCluster.m_connection_map cl = []
  /\ RedisCluster.m_logged cl
     = [(ERROR, "error occured during initial cluster configuration")].
Proof. vm_compute. repeat split. Qed.

(** On that router an id is served by the node of its slot: the id of the
    scenarios has slot 14027, [set] goes to the second node over a
    connection that is opened and cached, and answers true. *)
Lemma call_reaches_the_node_of_the_slot :
  let cl := snd (RedisCluster.RedisCluster Redis.transport two_nodes second_seed_answers) in
  let '(o, cl') :=
    RedisCluster.wrappedCall Redis.transport two_nodes second_seed_answers sk
      (RedisConnection.set Redis.transport sk "hello" 1700000000) cl in
  slot_of sk = 14027
  /\ (RedisCluster.node <$> RedisCluster.find (RedisCluster.m_cluster_map cl) sk)
     = Some (mkClusterNode "10.0.0.2" 6379)
  /\ o = Ret true
  /\ map (fun e => written (snd e)) (RedisCluster.m_connection_map cl')
     = [set_commands sk "hello" 1700000000]
  /\ RedisCluster.slept cl' = [].
Proof. vm_compute. repeat split. Qed.

(** ** The storage protocol against the model of the server *)

Import RedisConnection.

Lemma keys_differ (id : StorageId) : SPREDIS_SID id <> version_of id.
Proof. unfold version_of, SPREDIS_SID. simpl. discriminate. Qed.

Module RedisFacts.
Import Redis.

Section Run.
Context (now : Z) (σ : gmap string Entry).

Lemma run_get (k : string) :
  run now σ (GET k)
  = (σ, match σ !! k with
        | Some e => REPLY_STRING (value e)
        | None => REPLY_NIL
        end, []).
Proof. reflexivity. Qed.

Lemma run_expiretime (k : string) :
  run now σ (EXPIRETIME k)
  = (σ, REPLY_INTEGER match σ !! k with
                      | Some e => default (-1) (expiry e)
                      | None => -2
                      end, []).
Proof. reflexivity. Qed.

Lemma run_set_nx_new (k v : string) (t : Z) :
  valid_expire t = true -> σ !! k = None -> now < t ->
  run now σ (SET_NX_EXAT k v t)
  = (<[k := mkEntry v (Some t)]> σ, REPLY_STATUS "OK", [k]).
Proof.
  intros Ht Hk Hnow. unfold run, present. rewrite Ht, Hk. simpl.
  destruct (Z.leb_spec t now); [lia | reflexivity].
Qed.

Lemma run_set_nx_exists (k v : string) (t : Z) (e : Entry) :
  valid_expire t = true -> σ !! k = Some e ->
  run now σ (SET_NX_EXAT k v t) = (σ, REPLY_NIL, []).
Proof. intros Ht Hk. unfold run, present. now rewrite Ht, Hk. Qed.

Lemma run_set_xx (k v : string) (e : Entry) :
  σ !! k = Some e ->
  run now σ (SET_XX_KEEPTTL k v)
  = (<[k := mkEntry v (expiry e)]> σ, REPLY_STATUS "OK", [k]).
Proof. intros Hk. unfold run. now rewrite Hk. Qed.

Lemma run_incr (k : string) (e : Entry) (n : Z) :
  σ !! k = Some e -> string2ll (value e) = Some n -> n < LLONG_MAX ->
  run now σ (INCR k)
  = (<[k := mkEntry (pretty (n + 1)) (expiry e)]> σ, REPLY_INTEGER (n + 1), [k]).
Proof.
  intros Hk Hn Hmax. unfold run. rewrite Hk, Hn.
  destruct (Z.ltb_spec n LLONG_MAX); [reflexivity | lia].
Qed.

Lemma run_expireat (k : string) (t : Z) (e : Entry) :
  σ !! k = Some e -> t <= LLONG_MAX / 1000 -> now < t ->
  run now σ (EXPIREAT k t)
  = (<[k := mkEntry (value e) (Some t)]> σ, REPLY_INTEGER 1, [k]).
Proof.
  intros Hk Ht Hnow. unfold run. rewrite Hk.
  destruct (Z.gtb_spec t (LLONG_MAX / 1000)); [lia|].
  destruct (Z.leb_spec t now); [lia | reflexivity].
Qed.

End Run.

Lemma touches_nil (w : list string) : touches w [] = false.
Proof. induction w as [|k w IH]; simpl; [reflexivity | exact IH]. Qed.

(** A read outside a transaction, nobody else at work. *)
Lemma execute_get (now : Z) (σ : gmap string Entry) (k : string)
    (w : list string) (d : bool) (sl : redisReply) :
  execute (mkState now σ None w d [] sl) (GET k)
  = (mkState now σ None w d [] sl,
     Some match σ !! k with
          | Some e => REPLY_STRING (value e)
          | None => REPLY_NIL
          end).
Proof.
  unfold execute, interfere, serve. simpl.
  now rewrite touches_nil, orb_false_r.
Qed.

(** [EXEC] on a transaction nobody disturbed runs the queue. *)
Lemma execute_exec (now : Z) (σ σ' : gmap string Entry) (q : list Command)
    (w t : list string) (rs : list redisReply) (sl : redisReply) :
  run_all now σ q = (σ', rs, t) ->
  execute (mkState now σ (Some q) w false [] sl) EXEC
  = (mkState now σ' None [] false [] sl, Some (REPLY_ARRAY rs)).
Proof. intros H. unfold execute, interfere, serve. simpl. now rewrite H. Qed.

Lemma touches_last (k : string) (l : list string) :
  touches [k] (l ++ [k]) = true.
Proof.
  unfold touches. cbn [existsb]. rewrite existsb_app. cbn [existsb].
  rewrite String.eqb_refl. now rewrite !orb_true_r.
Qed.

(** [UNLINK] outside a transaction, nobody else at work: both keys are
    gone, and a watched key among those that were there is flagged. *)
Lemma execute_unlink_watching (now : Z) (σ : gmap string Entry) (k1 k2 : string)
    (w : list string) (d : bool) (sl : redisReply) :
  k1 <> k2 ->
  execute (mkState now σ None w d [] sl) (UNLINK k1 k2)
  = (mkState now (delete k2 (delete k1 σ)) None w
       (d || touches w ((if present σ k1 then [k1] else [])
                        ++ (if present σ k2 then [k2] else []))%list) [] sl,
     Some (REPLY_INTEGER ((if present σ k1 then 1 else 0)
                          + (if present σ k2 then 1 else 0)))).
Proof.
  intros Hne. unfold execute, interfere, serve. cbn.
  unfold present at 2 4. rewrite lookup_delete_ne by exact Hne.
  fold (present σ k2). reflexivity.
Qed.

End RedisFacts.

Lemma bind_append {S A : Type} (T : Transport S) (cmd : Command)
    (k : unit -> M (Connection S) A) (c : Connection S) (s' : S) (r : option redisReply) :
  execute T (server c) cmd = (s', r) ->
  bind (appendCommand T cmd) k c
  = k tt (mkConnection s' (unread c ++ [r]) (written c ++ [cmd]) (logged c)).
Proof. intros H. unfold bind, appendCommand. now rewrite H. Qed.

Module DecimalFacts.
Import StdString.

Lemma digit_pretty_N_char (d : N) :
  (d < 10)%N -> digit (pretty_N_char d) = Some (Z.of_N d).
Proof.
  intros Hd.
  assert (d = 0 \/ d = 1 \/ d = 2 \/ d = 3 \/ d = 4 \/ d = 5
          \/ d = 6 \/ d = 7 \/ d = 8 \/ d = 9)%N as H by lia.
  repeat (destruct H as [->|H]; [reflexivity|]). now subst.
Qed.

Lemma digits_cons (c : ascii) (s : string) (acc : option Z) (d : Z) :
  digit c = Some d ->
  digits (String c s) acc = digits s (Some (10 * default 0 acc + d)).
Proof. intros H. simpl. now rewrite H. Qed.

(** Reading back what [pretty_N_go] printed in front of [s]. *)
Lemma digits_pretty_N_go (x : N) :
  (0 < x)%N ->
  exists k : Z, 0 <= k /\ forall (s : string) (acc : option Z),
      digits (pretty_N_go x s) acc
      = digits s (Some (default 0 acc * 10 ^ k + Z.of_N x)).
Proof.
  induction (N.lt_wf_0 x) as [x _ IH]; intros Hx.
  assert (Hd : digit (pretty_N_char (x `mod` 10)%N) = Some (Z.of_N (x `mod` 10)%N)).
  { apply digit_pretty_N_char, N.mod_lt. lia. }
  assert (Hsplit : Z.of_N x = 10 * Z.of_N (x `div` 10)%N + Z.of_N (x `mod` 10)%N).
  { pose proof (N.div_mod x 10 ltac:(lia)) as E. lia. }
  destruct (N.eq_dec (x `div` 10)%N 0%N) as [Hz|Hnz].
  - exists 1. split; [lia|]. intros s acc.
    rewrite pretty_N_go_step, Hz, pretty_N_go_0 by exact Hx.
    rewrite (digits_cons _ _ _ _ Hd). do 2 f_equal.
    rewrite Hsplit, Hz. simpl Z.of_N. lia.
  - destruct (IH (x `div` 10)%N) as (k & Hk & IHk).
    { apply N.div_lt; lia. }
    { now apply N.neq_0_lt_0. }
    exists (k + 1). split; [lia|]. intros s acc.
    rewrite pretty_N_go_step, IHk by exact Hx.
    rewrite (digits_cons _ _ _ _ Hd). do 2 f_equal.
    cbn [default from_option id]. rewrite Hsplit, Z.pow_add_r by lia. lia.
Qed.

Lemma pretty_N_go_head (x : N) (s : string) :
  (0 < x)%N ->
  exists (d : N) (s' : string), (d < 10)%N /\ pretty_N_go x s = String (pretty_N_char d) s'.
Proof.
  revert s. induction (N.lt_wf_0 x) as [x _ IH]; intros s Hx.
  rewrite pretty_N_go_step by exact Hx.
  destruct (N.eq_dec (x `div` 10)%N 0%N) as [Hz|Hnz].
  - rewrite Hz, pretty_N_go_0. exists (x `mod` 10)%N, s.
    split; [apply N.mod_lt; lia | reflexivity].
  - apply IH; [apply N.div_lt; lia | now apply N.neq_0_lt_0].
Qed.

Lemma subject_digit (d : N) (s : string) :
  (d < 10)%N ->
  subject (String (pretty_N_char d) s) = (false, digits (String (pretty_N_char d) s) None).
Proof.
  intros Hd.
  assert (d = 0 \/ d = 1 \/ d = 2 \/ d = 3 \/ d = 4 \/ d = 5
          \/ d = 6 \/ d = 7 \/ d = 8 \/ d = 9)%N as H by lia.
  repeat (destruct H as [->|H]; [reflexivity|]). now subst.
Qed.

Lemma digits_pretty_pos (p : positive) :
  digits (pretty (Npos p)) None = Some (Zpos p).
Proof.
  unfold pretty, pretty_N. destruct (decide (N.pos p = 0%N)) as [|_]; [discriminate|].
  destruct (digits_pretty_N_go (N.pos p)) as (k & _ & Hk); [lia|].
  rewrite Hk. simpl. reflexivity.
Qed.

(** The subject sequence of a printed integer is the integer. *)
Lemma subject_pretty (z : Z) :
  subject (pretty z) = (z <? 0, Some (Z.abs z)).
Proof.
  destruct z as [|p|p].
  - reflexivity.
  - change (pretty (Z.pos p)) with (pretty (N.pos p)).
    pose proof (digits_pretty_pos p) as Hp.
    unfold pretty, pretty_N in *.
    destruct (decide (N.pos p = 0%N)) as [|_]; [discriminate|].
    destruct (pretty_N_go_head (N.pos p) "") as (d & s' & Hd & Hs); [lia|].
    rewrite Hs in *. rewrite subject_digit by exact Hd. now rewrite Hp.
  - change (pretty (Z.neg p)) with (String "-" (pretty (N.pos p))).
    change (subject (String "-" (pretty (N.pos p))))
      with (true, digits (pretty (N.pos p)) None).
    now rewrite digits_pretty_pos.
Qed.

Lemma stoi_pretty (z : Z) :
  INT_MIN <= z <= INT_MAX -> stoi (pretty z) = Converted z.
Proof.
  intros Hz. unfold stoi. rewrite subject_pretty.
  replace (if z <? 0 then - Z.abs z else Z.abs z) with z
    by (destruct (Z.ltb_spec z 0); lia).
  destruct (Z.ltb_spec z INT_MIN); [lia|].
  destruct (Z.gtb_spec z INT_MAX); [lia|]. reflexivity.
Qed.

Lemma string2ll_pretty (z : Z) :
  Redis.LLONG_MIN <= z <= Redis.LLONG_MAX -> Redis.string2ll (pretty z) = Some z.
Proof.
  intros Hz. unfold Redis.string2ll. rewrite subject_pretty.
  replace (if z <? 0 then - Z.abs z else Z.abs z) with z
    by (destruct (Z.ltb_spec z 0); lia).
  rewrite String.eqb_refl.
  destruct (Z.leb_spec Redis.LLONG_MIN z); [|lia].
  destruct (Z.leb_spec z Redis.LLONG_MAX); [|lia]. reflexivity.
Qed.

End DecimalFacts.

Lemma bind_assoc {St A B C : Type} (m : M St A) (f : A -> M St B) (g : B -> M St C)
    (c : St) :
  bind (bind m f) g c = bind m (fun x => bind (f x) g) c.
Proof. unfold bind. destruct (m c) as [[a| |] c']; reflexivity. Qed.

Lemma updateVersioned_loop_round {S : Type} (T : Transport S) (tries : nat)
    (id : StorageId) (value : string) (expiration ifVersion : Z) :
  updateVersioned_loop T (Datatypes.S tries) id value expiration ifVersion
  = (appendCommand T (WATCH (version_of id)) ;;
     getNextFromConnection T REDIS_REPLY_STATUS ;;
     currentVersion <- getOnlyVersion T id ;;
     if negb (currentVersion =? ifVersion) then ret (-1)
     else
       append_update T id value expiration ;;
       read_queued T expiration ;;
       reply <- getNextFromConnection T 0 ;;
       if Reply.type reply =? REDIS_REPLY_NIL
       then
         log NOTICE "(updateVersioned) concurrency failure: retrying" ;;
         updateVersioned_loop T tries id value expiration ifVersion
       else
         ensureType reply REDIS_REPLY_ARRAY ;;
         (if negb (Reply.elements reply =? 2 + 2 * count (negb (expiration =? 0)))
          then handleCommandError incorrect_amount
          else ret tt) ;;
         e0 <- element reply 0 ;;
         ensureType e0 REDIS_REPLY_STATUS ;;
         incr <- element reply 1 ;;
         ensureType incr REDIS_REPLY_INTEGER ;;
         if negb (Reply.integer incr - 1 =? currentVersion)
         then
           log WARN "(updateVersioned) severe concurrency failure: retrying" ;;
           updateVersioned_loop T tries id value expiration ifVersion
         else
           check_expireat reply expiration ;;
           ret (to_int (Reply.integer incr))).
Proof. reflexivity. Qed.

Lemma bind_parseNumber {S A : Type} (str : string) (v : Z)
    (k : Z -> M (Connection S) A) (c : Connection S) :
  StdString.stoi str = StdString.Converted v ->
  bind (parseNumber str) k c = k v c.
Proof. intros H. unfold bind, parseNumber. now rewrite H. Qed.

(** A comparison of two closed numbers is replaced by its value. *)
Ltac eval_test op :=
  match goal with
  | |- context [op ?a ?b] =>
      let v := eval vm_compute in (op a b) in
      match v with true => idtac | false => idtac end;
      change (op a b) with v
  end.
Ltac eval_tests :=
  repeat first [eval_test Z.eqb | eval_test Z.ltb | eval_test Z.leb | eval_test Z.gtb].
Ltac sim :=
  repeat (progress (cbn -[StdString.stoi pretty Redis.valid_expire Redis.run
                          Redis.string2ll to_int updateVersioned_loop parseNumber];
                    eval_tests; rewrite ?bind_assoc)).
(** The next command written is answered as [tac] shows. *)
Ltac answered tac := erewrite bind_append; [| cbn [server]; tac].
Ltac reads := rewrite ?RedisFacts.run_get, ?RedisFacts.run_expiretime.
Ltac exec_with tac := answered ltac:(eapply RedisFacts.execute_exec; cbn [Redis.run_all]; tac; reflexivity).

(** *** set *)

(** A connection at rest is taken apart into the clock, the key space and
    its own history. *)
Ltac rested c now σ sl w lg :=
  let H := fresh "Hrest" in
  repeat (let x := fresh in intros x; subst x);
  intros H;
  destruct c as [[now σ [?|] [|? ?] [|] [|? ?] sl] [|? ?] w lg];
  try discriminate H; clear H;
  cbn beta iota delta [server unread written logged Redis.now Redis.store].

Section SetCases.
Context (now : Z) (σ : gmap string Redis.Entry) (sl : redisReply)
        (w : list Command) (lg : list (Level * string))
        (id : StorageId) (value : string) (expiration : Z).
Context (Hvalid : Redis.valid_expire expiration = true) (Hfuture : now < expiration).

(** Neither key exists: both are created, the version at 1. *)
Lemma set_neither :
  σ !! SPREDIS_SID id = None -> σ !! version_of id = None ->
  set Redis.transport id value expiration
    (mkConnection (Redis.mkState now σ None [] false [] sl) [] w lg)
  = (Ret true,
     mkConnection
       (Redis.mkState now
          (<[version_of id := created "1" expiration]>
             (<[SPREDIS_SID id := created value expiration]> σ))
          None [] false [] sl)
       [] (w ++ set_commands id value expiration)%list lg).
Proof.
  intros Hd Hv. unfold set. sim.
  exec_with ltac:(
    erewrite RedisFacts.run_set_nx_new by eassumption;
    erewrite RedisFacts.run_set_nx_new
      by (try eassumption; rewrite lookup_insert_ne by apply keys_differ; exact Hv)).
  sim. repeat rewrite <- app_assoc. reflexivity.
Qed.

(** The data key exists: false at once, whatever became of the version. *)
Lemma set_data_exists (e : Redis.Entry) :
  σ !! SPREDIS_SID id = Some e ->
  set Redis.transport id value expiration
    (mkConnection (Redis.mkState now σ None [] false [] sl) [] w lg)
  = (Ret false,
     mkConnection
       (Redis.mkState now
          (match σ !! version_of id with
           | Some _ => σ
           | None => <[version_of id := created "1" expiration]> σ
           end)
          None [] false [] sl)
       [] (w ++ set_commands id value expiration)%list lg).
Proof.
  intros Hd. unfold set. sim.
  destruct (σ !! version_of id) as [v|] eqn:Hv.
  - exec_with ltac:(
      erewrite RedisFacts.run_set_nx_exists by eassumption;
      erewrite RedisFacts.run_set_nx_exists by eassumption).
    sim. repeat rewrite <- app_assoc. reflexivity.
  - exec_with ltac:(
      erewrite RedisFacts.run_set_nx_exists by eassumption;
      erewrite RedisFacts.run_set_nx_new by eassumption).
    sim. repeat rewrite <- app_assoc. reflexivity.
Qed.

(** A version key without data: both keys are unlinked, with a warning. *)
Lemma set_version_only (v : Redis.Entry) :
  σ !! SPREDIS_SID id = None -> σ !! version_of id = Some v ->
  set Redis.transport id value expiration
    (mkConnection (Redis.mkState now σ None [] false [] sl) [] w lg)
  = (Ret false,
     mkConnection
       (Redis.mkState now
          (delete (version_of id)
             (delete (SPREDIS_SID id)
                (<[SPREDIS_SID id := created value expiration]> σ)))
          None [] false [] sl)
       [] (w ++ set_commands id value expiration
           ++ [UNLINK (SPREDIS_SID id) (version_of id)])%list
       (lg ++ [(WARN, "version value exists for non-existent key")])%list).
Proof.
  intros Hd Hv. unfold set. sim.
  exec_with ltac:(
    erewrite RedisFacts.run_set_nx_new by eassumption;
    erewrite RedisFacts.run_set_nx_exists
      by (try eassumption; rewrite lookup_insert_ne by apply keys_differ; exact Hv)).
  sim. unfold redisCommand. rewrite ?bind_assoc.
  answered ltac:(apply RedisFacts.execute_unlink_watching, keys_differ).
  sim. repeat rewrite <- app_assoc. reflexivity.
Qed.

End SetCases.

(** C3, as the code has it.  On a connection at rest (no reply pending,
    no transaction open, no key watched, no other client at work on the
    server), whatever the connection wrote and logged before, and for an
    expiration that the server accepts and that lies in the future: [set]
    returns true exactly when neither key exists, and then both are there,
    the version at 1; it returns false when the data key already exists,
    leaving that key as it was, sending no UNLINK and logging nothing,
    whether or not the version SET succeeded; and when the data SET
    succeeded and the version SET did not, both keys are unlinked before
    false is returned with a warning. *)
Theorem set_creates_both_or_reports :
  forall (c : Connection Redis.State) (id : StorageId) (value : string) (expiration : Z),
    let now := Redis.now (server c) in
    let σ := Redis.store (server c) in
    at_rest c = true ->
    Redis.valid_expire expiration = true ->
    now < expiration ->
    let after := RedisConnection.set Redis.transport id value expiration c in
    (fst after = Ret true
     <-> σ !! SPREDIS_SID id = None /\ σ !! version_of id = None)
    /\ (σ !! SPREDIS_SID id = None -> σ !! version_of id = None ->
        Redis.store (server (snd after)) !! SPREDIS_SID id
        = Some (created value expiration)
        /\ Redis.store (server (snd after)) !! version_of id
           = Some (created "1" expiration)
        /\ logged (snd after) = logged c)
    /\ (forall e : Redis.Entry,
          σ !! SPREDIS_SID id = Some e ->
          fst after = Ret false
          /\ Redis.store (server (snd after)) !! SPREDIS_SID id = Some e
          /\ written (snd after) = (written c ++ set_commands id value expiration)%list
          /\ logged (snd after) = logged c)
    /\ (forall v : Redis.Entry,
          σ !! SPREDIS_SID id = None -> σ !! version_of id = Some v ->
          fst after = Ret false
          /\ Redis.store (server (snd after)) !! SPREDIS_SID id = None
          /\ Redis.store (server (snd after)) !! version_of id = None
          /\ written (snd after)
             = (written c ++ set_commands id value expiration
                ++ [UNLINK (SPREDIS_SID id) (version_of id)])%list
          /\ logged (snd after)
             = (logged c ++ [(WARN, "version value exists for non-existent key")])%list).
Proof.
  intros c id value expiration. rested c now σ sl w lg.
  intros Hvalid Hfuture after. subst after.
  pose proof (keys_differ id) as Hkeys.
  split; [|split; [|split]].
  - destruct (σ !! SPREDIS_SID id) as [e|] eqn:Hd.
    + rewrite (set_data_exists now σ sl w lg id value expiration Hvalid Hfuture e Hd).
      split; [discriminate | intros [? _]; discriminate].
    + destruct (σ !! version_of id) as [v|] eqn:Hv.
      * rewrite (set_version_only now σ sl w lg id value expiration Hvalid Hfuture v Hd Hv).
        split; [discriminate | intros [_ ?]; discriminate].
      * rewrite (set_neither now σ sl w lg id value expiration Hvalid Hfuture Hd Hv).
        split; auto.
  - intros Hd Hv.
    rewrite (set_neither now σ sl w lg id value expiration Hvalid Hfuture Hd Hv).
    cbn [snd server logged Redis.store]. repeat split.
    + rewrite lookup_insert_ne by (intros E; apply Hkeys; now symmetry).
      apply lookup_insert_eq.
    + apply lookup_insert_eq.
  - intros e Hd.
    rewrite (set_data_exists now σ sl w lg id value expiration Hvalid Hfuture e Hd).
    cbn [fst snd server logged written Redis.store]. repeat split.
    destruct (σ !! version_of id); [exact Hd|].
    now rewrite lookup_insert_ne by (intros E; apply Hkeys; now symmetry).
  - intros v Hd Hv.
    rewrite (set_version_only now σ sl w lg id value expiration Hvalid Hfuture v Hd Hv).
    cbn [fst snd server logged written Redis.store]. repeat split.
    + rewrite lookup_delete_ne by (intros E; apply Hkeys; now symmetry).
      apply lookup_delete_eq.
    + apply lookup_delete_eq.
Qed.

(** The amended C3 on the three kinds of key space: empty, data at
    version 3, and a version key without data. *)
Lemma set_creates_both_or_reports_witness :
  fst (RedisConnection.set Redis.transport sk "hello" 1700000000
         (connected (Redis.quiet 1000 ∅))) = Ret true
  /\ fst (RedisConnection.set Redis.transport sk "hello" 1700000000
            (connected (Redis.quiet 1000 at_version_3))) = Ret false
  /\ logged (snd (RedisConnection.set Redis.transport sk "hello" 1700000000
                    (connected (Redis.quiet 1000 version_only))))
     = [(WARN, "version value exists for non-existent key")].
Proof.
  destruct (set_creates_both_or_reports (connected (Redis.quiet 1000 ∅)) sk "hello"
              1700000000 eq_refl eq_refl eq_refl) as (H1 & _).
  destruct (set_creates_both_or_reports (connected (Redis.quiet 1000 at_version_3)) sk
              "hello" 1700000000 eq_refl eq_refl eq_refl) as (_ & _ & H2 & _).
  destruct (set_creates_both_or_reports (connected (Redis.quiet 1000 version_only)) sk
              "hello" 1700000000 eq_refl eq_refl eq_refl) as (_ & _ & _ & H3).
  split; [|split].
  - apply H1. split; reflexivity.
  - apply (H2 (Redis.mkEntry "hello" None)). reflexivity.
  - apply (H3 (Redis.mkEntry "3" None)); reflexivity.
Defined.

(** C3 as stated fails where the data key exists without a version key:
    of the two SETs exactly the version one succeeds, and [set] returns
    false with the new version key left in place, no UNLINK sent and no
    warning logged. *)
Lemma set_leaves_stray_version_key :
  data_only !! version_of sk = None
  /\ RedisConnection.set Redis.transport sk "hello" 1700000000
       (connected (Redis.quiet 1000 data_only))
     = (Ret false,
        mkConnection
          (Redis.quiet 1000 (<[version_of sk := created "1" 1700000000]> data_only))
          [] (set_commands sk "hello" 1700000000) []).
Proof.
  split; [reflexivity|].
  apply (set_data_exists 1000 data_only REPLY_NIL [] [] sk "hello" 1700000000
           eq_refl eq_refl
           (Redis.mkEntry "old" None)).
  reflexivity.
Qed.

(** *** forceGet *)

Section ForceGetCases.
Context (now : Z) (σ : gmap string Redis.Entry) (id : StorageId).

(** With both outputs omitted and the version key there, the second
    element of the one-element reply is read. *)
Lemma forceGet_bare (e : Redis.Entry) :
  σ !! version_of id = Some e ->
  fst (forceGet Redis.transport id false false (connected (Redis.quiet now σ)))
  = Undefined.
Proof.
  intros Hv. unfold forceGet. sim. exec_with reads. sim. rewrite Hv. reflexivity.
Qed.

(** With only the expiration asked for, the second element is the answer
    of EXPIRETIME, which is never nil: a missing data key goes unnoticed. *)
Lemma forceGet_expiration_only (e : Redis.Entry) (v : Z) :
  σ !! version_of id = Some e -> σ !! SPREDIS_SID id = None ->
  StdString.stoi (Redis.value e) = StdString.Converted v ->
  fst (forceGet Redis.transport id false true (connected (Redis.quiet now σ)))
  = Ret (mkRead v None (Some (-2))).
Proof.
  intros Hv Hd Hs. unfold forceGet. sim. exec_with reads. sim. rewrite Hv, Hd. sim.
  rewrite (bind_parseNumber _ v) by exact Hs. reflexivity.
Qed.

(** Without a version key the answer is 0, whatever is asked for. *)
Lemma forceGet_no_version (out_value out_expiration : bool) (sl : redisReply)
    (w : list Command) (lg : list (Level * string)) :
  σ !! version_of id = None ->
  fst (forceGet Redis.transport id out_value out_expiration
         (mkConnection (Redis.mkState now σ None [] false [] sl) [] w lg))
  = Ret (mkRead 0 None None).
Proof.
  intros Hv. unfold forceGet.
  destruct out_value, out_expiration; sim; exec_with reads; sim; rewrite Hv;
    reflexivity.
Qed.

(** With the value asked for, a missing data key gives 0. *)
Lemma forceGet_no_data (out_expiration : bool) :
  σ !! SPREDIS_SID id = None ->
  fst (forceGet Redis.transport id true out_expiration
         (connected (Redis.quiet now σ)))
  = Ret (mkRead 0 None None).
Proof.
  intros Hd. unfold forceGet.
  destruct out_expiration; sim; exec_with reads; sim; rewrite Hd;
    destruct (σ !! version_of id); reflexivity.
Qed.

(** With both outputs asked for and both keys there, the version, the
    value and the expiration are read, on any connection at rest. *)
Lemma forceGet_both (e d : Redis.Entry) (v : Z) (sl : redisReply) (w : list Command)
    (lg : list (Level * string)) :
  σ !! version_of id = Some e -> σ !! SPREDIS_SID id = Some d ->
  StdString.stoi (Redis.value e) = StdString.Converted v ->
  fst (forceGet Redis.transport id true true
         (mkConnection (Redis.mkState now σ None [] false [] sl) [] w lg))
  = Ret (mkRead v (Some (Redis.value d)) (Some (default (-1) (Redis.expiry d)))).
Proof.
  intros Hv Hd Hs. unfold forceGet. sim. exec_with reads. sim. rewrite Hv, Hd. sim.
  rewrite (bind_parseNumber _ v) by exact Hs. sim. reflexivity.
Qed.

End ForceGetCases.

(** Round trip: what [set] stores on a key space without the id is what
    [forceGet] reads back, at version 1. *)
Lemma forceGet_after_set (now : Z) (σ : gmap string Redis.Entry) (id : StorageId)
    (value : string) (expiration : Z) :
  Redis.valid_expire expiration = true -> now < expiration ->
  σ !! SPREDIS_SID id = None -> σ !! version_of id = None ->
  fst ((set Redis.transport id value expiration ;;
        forceGet Redis.transport id true true) (connected (Redis.quiet now σ)))
  = Ret (mkRead 1 (Some value) (Some expiration)).
Proof.
  intros Hvalid Hfuture Hd Hv. unfold bind at 1. unfold connected, Redis.quiet.
  rewrite (set_neither now σ REPLY_NIL [] [] id value expiration Hvalid Hfuture Hd Hv).
  apply (forceGet_both _ _ _ (created "1" expiration) (created value expiration)).
  - apply lookup_insert_eq.
  - rewrite lookup_insert_ne by (intros H; symmetry in H; revert H; apply keys_differ).
    apply lookup_insert_eq.
  - reflexivity.
Qed.

(** C7.  On the code [forceGet] tests [element[1]] of the EXEC reply for
    nil whatever was asked for.  With both outputs omitted and the version
    key present the reply has one element and the test reads past it: the
    call is undefined.  With only the expiration asked for, [element[1]] is
    the answer of EXPIRETIME, so a missing data key is not seen: the version
    is returned, with an expiration of -2, and not 0. *)
Theorem forceGet_tests_an_element_too_far :
  forall (now : Z) (σ : gmap string Redis.Entry) (id : StorageId) (e : Redis.Entry),
    σ !! version_of id = Some e ->
    fst (RedisConnection.forceGet Redis.transport id false false
           (connected (Redis.quiet now σ)))
    = Undefined
    /\ (forall v : Z,
          σ !! SPREDIS_SID id = None ->
          StdString.stoi (Redis.value e) = StdString.Converted v ->
          fst (RedisConnection.forceGet Redis.transport id false true
                 (connected (Redis.quiet now σ)))
          = Ret (RedisConnection.mkRead v None (Some (-2)))).
Proof.
  intros now σ id e Hv. split.
  - now apply forceGet_bare with (e := e).
  - intros v Hd Hs. now apply forceGet_expiration_only with (e := e).
Qed.

(** A version key at 3 and no data key: the bare read is undefined, the
    read of the expiration alone answers version 3. *)
Lemma forceGet_tests_an_element_too_far_witness :
  version_only !! version_of sk = Some (Redis.mkEntry "3" None)
  /\ fst (RedisConnection.forceGet Redis.transport sk false false
            (connected (Redis.quiet 1000 version_only)))
     = Undefined
  /\ fst (RedisConnection.forceGet Redis.transport sk false true
            (connected (Redis.quiet 1000 version_only)))
     = Ret (RedisConnection.mkRead 3 None (Some (-2))).
Proof.
  destruct (forceGet_tests_an_element_too_far 1000 version_only sk
              (Redis.mkEntry "3" None) eq_refl) as [H1 H2].
  split; [reflexivity|]. split; [exact H1|].
  apply H2; reflexivity.
Defined.

(** *** updateVersioned *)

Lemma to_int_small (z : Z) : INT_MIN <= z <= INT_MAX -> to_int z = z.
Proof.
  unfold INT_MIN, INT_MAX, to_int. intros Hz.
  rewrite Z.mod_small; lia.
Qed.

Section UpdateCases.
Context (now : Z) (σ : gmap string Redis.Entry) (id : StorageId)
        (value : string) (expiration ifVersion : Z).
Context (e : Redis.Entry) (cur : Z).
Context (Hversion : σ !! version_of id = Some e).
Context (Hcur : Redis.value e = pretty cur).
Context (Hint : INT_MIN <= cur <= INT_MAX).

(** Another version than the one asked for: -1 after a WATCH and a GET. *)
Lemma updateVersioned_mismatch (sl : redisReply) (w : list Command)
    (lg : list (Level * string)) :
  cur <> ifVersion ->
  updateVersioned Redis.transport id value expiration ifVersion
    (mkConnection (Redis.mkState now σ None [] false [] sl) [] w lg)
  = (Ret (-1),
     mkConnection (Redis.mkState now σ None [version_of id] false [] sl)
                  [] (w ++ [WATCH (version_of id); GET (version_of id)])%list lg).
Proof.
  intros Hne. unfold updateVersioned, optimisticConcurrencyRetryCount.
  rewrite updateVersioned_loop_round. sim.
  unfold getOnlyVersion. sim.
  answered ltac:(apply RedisFacts.execute_get).
  rewrite Hversion, Hcur. sim.
  rewrite (bind_parseNumber _ cur) by (apply DecimalFacts.stoi_pretty, Hint).
  destruct (Z.eqb_spec cur ifVersion); [contradiction|].
  repeat rewrite <- app_assoc. reflexivity.
Qed.


End UpdateCases.



(** Contention on the server itself.  Another client that touches the
    version key in each of three rounds makes [updateVersioned] give up
    with 0, the value as it was. *)
Lemma updateVersioned_gives_up_after_three_touches :
  let '(o, c) :=
    updateVersioned Redis.transport sk "mine" 0 3
      (connected (contended at_version_3
                    (touch_between ++ touch_between ++ touch_between)%list)) in
  o = Ret 0
  /\ Redis.value <$> Redis.store (server c) !! "{s:k}" = Some "hello"
  /\ Redis.value <$> Redis.store (server c) !! "version.of:{s:k}" = Some "3"
  /\ logged c = [retrying; retrying; retrying; too_many_retries].
Proof. vm_compute. repeat split. Qed.

(** Touched in two rounds only, the third round goes through. *)
Lemma updateVersioned_wins_the_third_round :
  let '(o, c) :=
    updateVersioned Redis.transport sk "mine" 0 3
      (connected (contended at_version_3 (touch_between ++ touch_between)%list)) in
  o = Ret 4
  /\ Redis.value <$> Redis.store (server c) !! "{s:k}" = Some "mine"
  /\ Redis.value <$> Redis.store (server c) !! "version.of:{s:k}" = Some "4"
  /\ logged c = [retrying; retrying].
Proof. vm_compute. repeat split. Qed.

(** Another client's update between our GET and our EXEC: our transaction
    is discarded, the second round sees version 4 and answers -1, and the
    other client's value stays. *)
Lemma updateVersioned_loses_to_another_update :
  let '(o, c) :=
    updateVersioned Redis.transport sk "mine" 0 3
      (connected (contended at_version_3 update_between)) in
  o = Ret (-1)
  /\ Redis.value <$> Redis.store (server c) !! "{s:k}" = Some "theirs"
  /\ Redis.value <$> Redis.store (server c) !! "version.of:{s:k}" = Some "4"
  /\ logged c = [retrying].
Proof. vm_compute. repeat split. Qed.




(** ** Hash tags: our slot against the cluster's *)

Module HashTagFacts.
Import Redis.

Lemma string_append_assoc (a b c : string) :
  ((a ++ b) ++ c)%string = (a ++ (b ++ c))%string.
Proof.
  induction a as [|x a IH]; [reflexivity|].
  change (String x ((a ++ b) ++ c) = String x (a ++ (b ++ c)))%string.
  now rewrite IH.
Qed.

(** The rendered key is the hashed bytes between two braces. *)
Lemma SPREDIS_SID_hashed (id : StorageId) :
  SPREDIS_SID id = String "{" (hashed id ++ "}").
Proof.
  unfold SPREDIS_SID, hashed. now rewrite !string_append_assoc.
Qed.

Lemma before_close_brace_free (s t : string) :
  brace_free s = true -> before_close (s ++ String "}" t) = Some s.
Proof.
  induction s as [|c s IH]; [reflexivity|].
  change (String c s ++ String "}" t)%string with (String c (s ++ String "}" t)).
  cbn [brace_free before_close].
  intros H. apply andb_prop in H as [Hc Hs].
  destruct (Ascii.eqb c "}"); [discriminate|].
  now rewrite IH.
Qed.

Lemma hashed_not_empty (id : StorageId) : hashed id <> EmptyString.
Proof.
  unfold hashed. destruct (context id); simpl; discriminate.
Qed.

(** The tag of a rendered key is what was hashed on our side, as long as
    no closing brace ends the tag early. *)
Lemma hash_tag_data (id : StorageId) :
  brace_free (hashed id) = true -> hash_tag (SPREDIS_SID id) = hashed id.
Proof.
  intros H. rewrite SPREDIS_SID_hashed. unfold hash_tag.
  cbn [after_open]. change (Ascii.eqb "{" "{") with true. cbv iota.
  rewrite before_close_brace_free by exact H.
  pose proof (hashed_not_empty id).
  destruct (hashed id); [contradiction | reflexivity].
Qed.

(** The version key has the braces of the data key, and no other. *)
Lemma after_open_version (id : StorageId) :
  after_open (version_of id) = after_open (SPREDIS_SID id).
Proof. reflexivity. Qed.

Lemma hash_tag_version (id : StorageId) :
  brace_free (hashed id) = true -> hash_tag (version_of id) = hashed id.
Proof.
  intros H. unfold hash_tag. rewrite after_open_version.
  rewrite SPREDIS_SID_hashed.
  cbn [after_open]. change (Ascii.eqb "{" "{") with true. cbv iota.
  rewrite before_close_brace_free by exact H.
  pose proof (hashed_not_empty id).
  destruct (hashed id); [contradiction | reflexivity].
Qed.

Lemma land_slots (x : Z) : Z.land x 0x3FFF = x mod 16384.
Proof. change 0x3FFF with (Z.ones 14). now rewrite Z.land_ones by lia. Qed.

End HashTagFacts.

(** C6, as the code has it.  For every storage id whose context, prefix
    and key contain no closing brace, the slot computed on our side is the
    slot the cluster assigns to the rendered data key under the hash-tag
    rule, and the data key and its version key land in the same slot. *)
Theorem slot_agrees_with_cluster_without_closing_brace :
  forall id : StorageId,
    brace_free (hashed id) = true ->
    hashSlotUsing id = Redis.keyHashSlot (SPREDIS_SID id)
    /\ Redis.keyHashSlot (SPREDIS_SID id) = Redis.keyHashSlot (version_of id).
Proof.
  intros id H. unfold Redis.keyHashSlot.
  rewrite HashTagFacts.hash_tag_data, HashTagFacts.hash_tag_version by exact H.
  rewrite HashTagFacts.land_slots.
  split; [apply hashSlotUsing_xmodem | reflexivity].
Qed.

(** The second scenario of the specification: context "u", prefix "p:",
    key "a". *)
Lemma slot_agrees_with_cluster_without_closing_brace_witness :
  brace_free (hashed (mkStorageId "u" "a" "p:")) = true
  /\ hashSlotUsing (mkStorageId "u" "a" "p:") = Redis.keyHashSlot "{u:p:a}"
  /\ Redis.keyHashSlot "{u:p:a}" = Redis.keyHashSlot "version.of:{u:p:a}".
Proof.
  split; [reflexivity|].
  apply (slot_agrees_with_cluster_without_closing_brace (mkStorageId "u" "a" "p:")).
  reflexivity.
Defined.

(** C6 as stated fails for an id with a closing brace inside: for the
    context "a}b" and the key "k" our slot is that of "a}b:k", 2790, while
    the cluster hashes the tag "a" of the rendered key "{a}b:k}" and
    assigns slot 15495. *)
Lemma closing_brace_ends_the_tag :
  SPREDIS_SID closing_brace_inside = "{a}b:k}"
  /\ Redis.hash_tag (SPREDIS_SID closing_brace_inside) = "a"
  /\ hashSlotUsing closing_brace_inside = 2790
  /\ Redis.keyHashSlot (SPREDIS_SID closing_brace_inside) = 15495
  /\ hashSlotUsing closing_brace_inside
     <> Redis.keyHashSlot (SPREDIS_SID closing_brace_inside).
Proof. repeat split; vm_compute; congruence. Qed.

(** * Further properties *)

(** ** Slot ranges (cluster-range.h) *)

Module ClusterRangeOrder.
Import ClusterRange.

Lemma compare_antisym (a b : ClusterRange) : compare b a = - compare a b.
Proof.
  unfold compare.
  destruct (Z.ltb_spec (m_start a) (m_start b));
    destruct (Z.gtb_spec (m_start a) (m_start b));
    destruct (Z.ltb_spec (m_start b) (m_start a));
    destruct (Z.gtb_spec (m_start b) (m_start a));
    destruct (Z.ltb_spec (m_end a) (m_end b));
    destruct (Z.gtb_spec (m_end a) (m_end b));
    destruct (Z.ltb_spec (m_end b) (m_end a));
    destruct (Z.gtb_spec (m_end b) (m_end a)); lia.
Qed.

Lemma compare_eq (a b : ClusterRange) : compare a b = 0 <-> a = b.
Proof.
  split.
  - intros H. apply ClusterRangeFacts.compare_lexicographic in H as [H1 H2].
    destruct a, b; simpl in *; congruence.
  - intros ->. apply ClusterRangeFacts.compare_refl.
Qed.

Lemma operator_lt_spec (a b : ClusterRange) :
  operator_lt a b = true
  <-> m_start a < m_start b \/ (m_start a = m_start b /\ m_end a < m_end b).
Proof.
  unfold operator_lt.
  pose proof (ClusterRangeFacts.compare_values a b) as Hv.
  pose proof (ClusterRangeFacts.compare_lexicographic a b) as [H1 [H2 H3]].
  rewrite Z.ltb_lt. split.
  - intros H. apply H1. lia.
  - intros H. apply H1 in H. lia.
Qed.

End ClusterRangeOrder.

(** X1.  [operator<] on ranges, by which the slot map is ordered, is a
    strict total order: no range is below itself, of two different ranges
    exactly one is below the other, and the order is transitive.  Two
    ranges are equivalent for the map only when they are the same range. *)
Theorem operator_lt_strict_total_order :
  (forall a : ClusterRange, ClusterRange.operator_lt a a = false)
  /\ (forall a b : ClusterRange,
        ClusterRange.operator_lt a b = true -> ClusterRange.operator_lt b a = false)
  /\ (forall a b c : ClusterRange,
        ClusterRange.operator_lt a b = true -> ClusterRange.operator_lt b c = true ->
        ClusterRange.operator_lt a c = true)
  /\ (forall a b : ClusterRange,
        ClusterRange.operator_lt a b = false -> ClusterRange.operator_lt b a = false ->
        a = b).
Proof.
  split; [|split; [|split]].
  - intros a. destruct (ClusterRange.operator_lt a a) eqn:E; [|reflexivity].
    apply ClusterRangeOrder.operator_lt_spec in E. lia.
  - intros a b H. destruct (ClusterRange.operator_lt b a) eqn:E; [|reflexivity].
    apply ClusterRangeOrder.operator_lt_spec in H, E. lia.
  - intros a b c H1 H2. apply ClusterRangeOrder.operator_lt_spec in H1, H2.
    apply ClusterRangeOrder.operator_lt_spec. lia.
  - intros a b H1 H2. apply ClusterRangeOrder.compare_eq.
    unfold ClusterRange.operator_lt in H1, H2.
    rewrite ClusterRangeOrder.compare_antisym in H2.
    apply Z.ltb_ge in H1, H2. lia.
Qed.

(** ** Errors (redis-reply.cpp, redis-connection.cpp) *)

Module CriticalFacts.
Section WithTransport.
Context {S : Type} (T : Transport S).

Lemma handleCriticalError_rec_throws {A : Type} (fuel recurse : nat) (c : Connection S) :
  exists (n : nat) (c' : Connection S),
    handleCriticalError_rec T (A := A) fuel recurse c = (Throw ConnectionLostException, c')
    /\ (1 <= n <= Datatypes.S fuel)%nat
    /\ logged c' = (logged c ++ repeat communication_error n)%list
    /\ written c' = written c.
Proof.
  revert A recurse c. induction fuel as [|fuel IH]; intros A recurse c.
  - exists 1%nat. eexists. cbn [handleCriticalError_rec].
    destruct (recurse <? connectionRetryCount)%nat; cbn; repeat split; lia.
  - cbn [handleCriticalError_rec].
    destruct (recurse <? connectionRetryCount)%nat.
    + unfold bind at 1. cbn [log].
      unfold bind at 1. unfold bind at 1. unfold redisReconnect at 1. cbn [server written logged unread].
      destruct (reconnect T (server c)) as [s' [|]].
      * exists 1%nat. eexists. cbn. repeat split; lia.
      * match goal with |- context [handleCriticalError_rec T fuel ?r ?c0] =>
          destruct (IH unit r c0) as (n & c' & -> & Hn & Hl & Hw) end.
        exists (Datatypes.S n), c'. cbn. repeat split; try lia.
        -- rewrite Hl. cbn. rewrite <- app_assoc. reflexivity.
        -- rewrite Hw. reflexivity.
    + exists 1%nat. eexists. cbn. repeat split; lia.
Qed.

End WithTransport.
End CriticalFacts.

(** X2.  [handleCriticalError] never returns: whatever the reconnections
    give, on any connection it ends in a [ConnectionLostException], after
    one to four critical log entries (one for the failure and one for each
    reconnection that failed), and without writing a command. *)
Theorem handleCriticalError_always_throws :
  forall (S A : Type) (T : Transport S) (c : Connection S),
  exists (n : nat) (c' : Connection S),
    RedisConnection.handleCriticalError T (A := A) c = (Throw ConnectionLostException, c')
    /\ (1 <= n <= 4)%nat
    /\ logged c' = (logged c ++ repeat communication_error n)%list
    /\ written c' = written c.
Proof.
  intros S A T c. unfold handleCriticalError.
  destruct (CriticalFacts.handleCriticalError_rec_throws T (A := A)
              (Datatypes.S connectionRetryCount) 0 c) as (n & c' & H & Hn & Hl & Hw).
  (* the fourth nested call does not reconnect *)
  exists n, c'. repeat split; try assumption; try lia.
  unfold connectionRetryCount in Hn.
  destruct (Nat.le_gt_cases n 4) as [|Hgt]; [assumption|exfalso].
  assert (n = 5%nat) by lia. subst n.
  revert H Hl. unfold connectionRetryCount, handleCriticalError_rec.
  unfold bind, log, redisReconnect. cbn.
  repeat (match goal with |- context [reconnect T ?s] => destruct (reconnect T s) as [? []] end; cbn);
    intros H Hl; injection H as <-; cbn in Hl;
    rewrite <- ?app_assoc in Hl; apply app_inv_head in Hl; discriminate.
Qed.

Module StdStringFacts.
Import StdString.

Lemma length_append (s t : string) :
  String.length (s ++ t) = (String.length s + String.length t)%nat.
Proof. induction s as [|c s IH]; simpl; [reflexivity | now rewrite IH]. Qed.

Lemma size_append (s t : string) : size (s ++ t) = size s + size t.
Proof. unfold size. rewrite length_append. lia. Qed.

Lemma size_nonneg (s : string) : 0 <= size s.
Proof. unfold size. lia. Qed.

Lemma substring_0_all (s : string) (n : nat) :
  (String.length s <= n)%nat -> String.substring 0 n s = s.
Proof.
  revert n. induction s as [|c s IH]; intros n Hn.
  - destruct n; reflexivity.
  - destruct n as [|n]; [simpl in Hn; lia|]. simpl. f_equal. apply IH. simpl in Hn. lia.
Qed.

Lemma substring_skip (s t : string) (n : nat) :
  String.substring (String.length s) n (s ++ t) = String.substring 0 n t.
Proof. induction s as [|c s IH]; simpl; [reflexivity | exact IH]. Qed.

Lemma substring_0_prefix (s t : string) :
  String.substring 0 (String.length s) (s ++ t) = s.
Proof.
  induction s as [|c s IH]; simpl.
  - destruct t; reflexivity.
  - now rewrite IH.
Qed.

Lemma find_aux_range (ch : ascii) (s : string) (i : Z) :
  find_aux ch s i = npos \/ i <= find_aux ch s i < i + size s.
Proof.
  revert i. induction s as [|c s IH]; intros i; simpl; [now left|].
  unfold size. simpl String.length.
  destruct (Ascii.eqb c ch); [right; lia|].
  destruct (IH (i + 1)) as [H|H]; [now left|right]. unfold size in H. lia.
Qed.

Lemma find_aux_hit (ch : ascii) (s t : string) (i : Z) :
  without ch s = true ->
  find_aux ch (s ++ String ch t) i = i + size s.
Proof.
  revert i. induction s as [|c s IH]; intros i Hs; simpl.
  - rewrite Ascii.eqb_refl. unfold size. simpl. lia.
  - simpl in Hs. apply andb_prop in Hs as [Hc Hs].
    apply negb_true_iff in Hc. rewrite Hc, IH by exact Hs.
    unfold size. simpl String.length. lia.
Qed.

(** [find] answers [npos] or a position inside the string, from [pos] on. *)
Lemma find_range (s : string) (ch : ascii) (pos : Z) :
  0 <= pos ->
  find s ch pos = npos \/ pos <= find s ch pos < size s.
Proof.
  intros Hpos. unfold find.
  destruct (Z.ltb_spec pos (size s)) as [Hlt|]; [|now left].
  destruct (find_aux_range ch (String.substring (Z.to_nat pos) (String.length s) s) pos)
    as [H|H]; [now left|right].
  split; [lia|]. eapply Z.lt_le_trans; [apply H|].
  assert (Hlen : forall (u : string) (n m : nat),
             (String.length (String.substring n m u) <= String.length u - n)%nat).
  { induction u as [|c u IHu]; intros n m.
    - destruct n, m; simpl; lia.
    - destruct n as [|n].
      + destruct m as [|m]; simpl; [lia|]. specialize (IHu 0%nat m). lia.
      + simpl. apply IHu. }
  specialize (Hlen s (Z.to_nat pos) (String.length s)). unfold size in *. lia.
Qed.

(** The first [ch] at or after the end of a prefix [s], when what follows
    up to it is free of [ch]. *)
Lemma find_after (s u t : string) (ch : ascii) :
  without ch u = true ->
  find (s ++ u ++ String ch t) ch (size s) = size s + size u.
Proof.
  intros Hu. unfold find.
  rewrite !size_append.
  assert (0 < size (String ch t)) by (unfold size; simpl; lia).
  pose proof (size_nonneg u).
  destruct (Z.ltb_spec (size s) (size s + (size u + size (String ch t)))); [|lia].
  unfold size at 1. rewrite Nat2Z.id, substring_skip.
  rewrite substring_0_all.
  - now apply find_aux_hit.
  - rewrite !length_append. lia.
Qed.

Lemma substr_middle (s u t : string) :
  substr (s ++ u ++ t) (size s) (size u) = Some u.
Proof.
  unfold substr. rewrite !size_append.
  pose proof (size_nonneg u). pose proof (size_nonneg t).
  destruct (Z.gtb_spec (size s) (size s + (size u + size t))); [lia|].
  f_equal. unfold size at 1. rewrite Nat2Z.id, substring_skip.
  replace (Z.to_nat (Z.min (size u) (size s + (size u + size t) - size s)))
    with (String.length u) by (unfold size in *; lia).
  apply substring_0_prefix.
Qed.

Lemma substring_skip_all (s t : string) (n : nat) :
  (String.length t <= n)%nat -> String.substring (String.length s) n (s ++ t) = t.
Proof. intros Hn. rewrite substring_skip. now apply substring_0_all. Qed.

Lemma substr_from_end (s t : string) :
  size t <= npos -> substr_from (s ++ t) (size s) = Some t.
Proof.
  intros Ht. unfold substr_from, substr. rewrite size_append.
  pose proof (size_nonneg t).
  destruct (Z.gtb_spec (size s) (size s + size t)); [lia|].
  f_equal. unfold size at 1. rewrite Nat2Z.id.
  apply substring_skip_all.
  replace (size s + size t - size s) with (size t) by lia.
  rewrite Z.min_r by lia. unfold size. lia.
Qed.

(** A printed number has no more digits than its value. *)
Lemma length_pretty_N_go (x : N) :
  (0 < x)%N ->
  forall s : string,
    (String.length (pretty_N_go x s) <= String.length s + N.to_nat x)%nat.
Proof.
  induction (N.lt_wf_0 x) as [x _ IH]; intros Hx s.
  rewrite pretty_N_go_step by exact Hx.
  destruct (N.eq_dec (x `div` 10)%N 0%N) as [Hz|Hnz].
  - rewrite Hz, pretty_N_go_0. simpl. lia.
  - etransitivity.
    + apply IH; [apply N.div_lt; lia | now apply N.neq_0_lt_0].
    + simpl.
      assert (1 + x `div` 10 <= x)%N.
      { assert (H10 : (10 <> 0)%N) by discriminate.
        pose proof (N.div_mod x 10 H10) as Hdm.
        apply N.neq_0_lt_0 in Hnz.
        revert Hdm Hnz. generalize (x `div` 10)%N (x `mod` 10)%N. intros q r Hdm Hq. lia. }
      lia.
Qed.

Lemma size_pretty (z : Z) : 0 <= z -> size (pretty z) <= Z.max 1 z.
Proof.
  intros Hz. destruct z as [|p|p]; [vm_compute; discriminate| |lia].
  change (pretty (Z.pos p)) with (pretty (N.pos p)).
  unfold pretty, pretty_N. destruct (decide (N.pos p = 0%N)) as [|_]; [discriminate|].
  pose proof (length_pretty_N_go (N.pos p) ltac:(lia) "") as H.
  unfold size. simpl String.length in H. lia.
Qed.

Lemma stoul_pretty (z : Z) :
  0 <= z <= ULONG_MAX -> stoul (pretty z) = Converted z.
Proof.
  intros Hz. unfold stoul. rewrite DecimalFacts.subject_pretty.
  rewrite Z.abs_eq by lia.
  destruct (Z.gtb_spec z ULONG_MAX); [lia|].
  destruct (Z.ltb_spec z 0); [lia | reflexivity].
Qed.

End StdStringFacts.

Module ErrorFacts.
Section WithTransport.
Context {S : Type} (T : Transport S).

Lemma substr_inside (s : string) (pos n : Z) :
  pos <= StdString.size s -> exists t, StdString.substr s pos n = Some t.
Proof.
  intros H. unfold StdString.substr.
  destruct (Z.gtb_spec pos (StdString.size s)); [lia|]. eauto.
Qed.

Lemma find_npos (s : string) (ch : ascii) :
  StdString.size s <= StdString.npos -> StdString.find s ch StdString.npos = StdString.npos.
Proof.
  intros H. unfold StdString.find.
  destruct (Z.ltb_spec StdString.npos (StdString.size s)); [lia | reflexivity].
Qed.

(** The parser ends in a redirection whenever the text starts with
    [MOVED ]; the two [substr] never leave the text. *)
Lemma handlePotentialMovedError_throws (err_str : string) (c : Connection S) :
  StdString.size err_str <= StdString.npos ->
  StdString.substr err_str 0 6 = Some "MOVED " ->
  exists (host : string) (port : Z) (c' : Connection S),
    handlePotentialMovedError (S := S) err_str c = (Throw (RedirectedException host port), c').
Proof.
  intros Hsize Hm. unfold handlePotentialMovedError. rewrite Hm. cbn [default from_option id].
  change (negb ("MOVED " =? "MOVED ")%string) with false. cbv iota.
  set (sp := StdString.find err_str " " 7).
  set (co := StdString.find err_str ":" sp).
  assert (Hsp : sp = StdString.npos \/ 7 <= sp < StdString.size err_str)
    by (apply StdStringFacts.find_range; lia).
  assert (Hco : co = StdString.npos \/ (7 <= sp <= co /\ co < StdString.size err_str)).
  { destruct Hsp as [Hsp|Hsp].
    - left. unfold co. rewrite Hsp. now apply find_npos.
    - destruct (StdStringFacts.find_range err_str ":" sp ltac:(lia)) as [H|H];
        [now left | right; fold co in H; lia]. }
  assert (Hnpos : StdString.size_t (StdString.npos + 1) = 0) by reflexivity.
  assert (Hp : exists t, StdString.substr_from err_str (StdString.size_t (co + 1)) = Some t).
  { apply substr_inside. destruct Hco as [->|Hco].
    - rewrite Hnpos. apply StdStringFacts.size_nonneg.
    - unfold StdString.size_t. rewrite Z.mod_small; unfold StdString.npos in *; lia. }
  assert (Hh : exists t, StdString.substr err_str (StdString.size_t (sp + 1))
                           (StdString.size_t (co - sp - 1)) = Some t).
  { apply substr_inside. destruct Hsp as [->|Hsp].
    - rewrite Hnpos. apply StdStringFacts.size_nonneg.
    - unfold StdString.size_t. rewrite Z.mod_small; unfold StdString.npos in *; lia. }
  destruct Hp as [digits ->], Hh as [host ->].
  unfold bind at 1. cbn [log].
  destruct (StdString.stoul digits); unfold bind, log, ret, throw; cbn; eauto.
Qed.

(** A text that does not start with [MOVED ] leaves the parser as it came. *)
Lemma handlePotentialMovedError_returns (err_str : string) (c : Connection S) :
  StdString.substr err_str 0 6 <> Some "MOVED " ->
  handlePotentialMovedError (S := S) err_str c = (Ret tt, c).
Proof.
  intros Hm. unfold handlePotentialMovedError.
  destruct (StdString.substr err_str 0 6) as [t|] eqn:E; cbn [default from_option id].
  - destruct (String.eqb_spec t "MOVED ") as [->|Hne]; [congruence | reflexivity].
  - reflexivity.
Qed.

End WithTransport.
End ErrorFacts.

(** X3.  [handleCommandError] never returns, and the exception is decided
    by the length of the error text before its content: more than ten bytes
    give a [ConnectionLostException] whatever the text says; seven to ten
    bytes starting with [MOVED ] give a [RedirectedException]; anything
    else gives an [IOException]. *)
Theorem handleCommandError_never_returns :
  forall (S A : Type) (err_str : string) (c : Connection S),
    StdString.size err_str <= StdString.npos ->
    exists (e : Exn) (c' : Connection S),
      RedisConnection.handleCommandError (A := A) err_str c = (Throw e, c')
      /\ (10 < StdString.size err_str -> e = ConnectionLostException)
      /\ (6 < StdString.size err_str <= 10 ->
          StdString.substr err_str 0 6 = Some "MOVED " ->
          exists (host : string) (port : Z), e = RedirectedException host port)
      /\ (StdString.size err_str <= 10 ->
          StdString.size err_str <= 6 \/ StdString.substr err_str 0 6 <> Some "MOVED " ->
          e = IOException).
Proof.
  intros S A err_str c Hsize.
  unfold handleCommandError, sizeof_CLUSTERDO, sizeof_MOVED.
  unfold bind at 1. cbn [log].
  set (c1 := mkConnection (server c) (unread c) (written c)
                          (logged c ++ [(ERROR, "execution of Redis command failed")])).
  destruct (Z.gtb_spec (StdString.size err_str) 10) as [Hlong|Hshort].
  { exists ConnectionLostException, c1. split; [reflexivity|].
    repeat split; intros; try lia; reflexivity. }
  destruct (Z.gtb_spec (StdString.size err_str) 6) as [Hmid|Htiny].
  - destruct (option_eq_dec (StdString.substr err_str 0 6) (Some "MOVED ")) as [Hm|Hm].
    + destruct (ErrorFacts.handlePotentialMovedError_throws err_str c1 Hsize Hm)
        as (host & port & c' & E).
      exists (RedirectedException host port), c'. unfold bind. rewrite E.
      split; [reflexivity|]. repeat split; intros; try lia; eauto.
      destruct H0; [lia | contradiction].
    + exists IOException, c1. unfold bind.
      rewrite (ErrorFacts.handlePotentialMovedError_returns err_str c1 Hm).
      split; [reflexivity|]. repeat split; intros; try lia; try reflexivity.
      contradiction.
  - exists IOException, c1. split; [reflexivity|].
    repeat split; intros; try lia; reflexivity.
Qed.

(** A two-byte slot, a one-letter host and a one-digit port still fit the
    ten bytes. *)
Lemma handleCommandError_never_returns_witness :
  StdString.size "MOVED 1 h:" <= StdString.npos
  /\ exists (e : Exn) (c' : Connection unit),
      RedisConnection.handleCommandError (A := unit) "MOVED 1 h:" (connected tt) = (Throw e, c')
      /\ (10 < StdString.size "MOVED 1 h:" -> e = ConnectionLostException)
      /\ (6 < StdString.size "MOVED 1 h:" <= 10 ->
          StdString.substr "MOVED 1 h:" 0 6 = Some "MOVED " ->
          exists (host : string) (port : Z), e = RedirectedException host port)
      /\ (StdString.size "MOVED 1 h:" <= 10 ->
          StdString.size "MOVED 1 h:" <= 6
          \/ StdString.substr "MOVED 1 h:" 0 6 <> Some "MOVED " ->
          e = IOException).
Proof.
  split; [vm_compute; discriminate|].
  apply (handleCommandError_never_returns unit unit "MOVED 1 h:" (connected tt)).
  vm_compute. discriminate.
Defined.

Module MovedFacts.
Import StdString StdStringFacts.

Lemma append_assoc (a b c : string) : (a ++ b) ++ c = a ++ (b ++ c).
Proof.
  induction a as [|x a IH]; [reflexivity|].
  change (String x ((a ++ b) ++ c) = String x (a ++ (b ++ c))). now rewrite IH.
Qed.

Lemma without_cons (ch c : ascii) (s : string) :
  Ascii.eqb c ch = false -> without ch s = true -> without ch (String c s) = true.
Proof. intros Hc Hs. simpl. now rewrite Hc, Hs. Qed.

Section Message.
Context (a : ascii) (slot' host : string) (port : Z).
Context (Hslot : without " " slot' = true) (Hhost : without ":" host = true).
Context (Hport : 0 <= port < 2 ^ 32).

#[warnings="-notation-for-abbreviation"]
Local Notation err := (moved_message (String a slot') host port).
Context (Hsize : size err <= npos).

Lemma err_at_space :
  err = ("MOVED " ++ String a "") ++ slot' ++ String " " (host ++ ":" ++ pretty port).
Proof. reflexivity. Qed.

Lemma err_at_colon :
  err = ("MOVED " ++ String a slot') ++ (" " ++ host) ++ String ":" (pretty port).
Proof.
  unfold moved_message.
  change (" " ++ host ++ ":" ++ pretty port) with (String " " (host ++ String ":" (pretty port))).
  change ((" " ++ host) ++ String ":" (pretty port))
    with (String " " (host ++ String ":" (pretty port))).
  change ("MOVED " ++ String a slot' ++ String " " (host ++ String ":" (pretty port)))
    with ("MOVED " ++ (String a slot' ++ String " " (host ++ String ":" (pretty port)))).
  now rewrite append_assoc.
Qed.

Lemma err_at_host :
  err = (("MOVED " ++ String a slot') ++ " ") ++ host ++ String ":" (pretty port).
Proof.
  rewrite err_at_colon. rewrite (append_assoc _ " " _). reflexivity.
Qed.

Lemma err_at_port :
  err = ((("MOVED " ++ String a slot') ++ " ") ++ host ++ ":") ++ pretty port.
Proof.
  rewrite err_at_host. rewrite (append_assoc _ (host ++ ":") _).
  rewrite (append_assoc host ":" _). reflexivity.
Qed.

Lemma space_found : find err " " 7 = 7 + size slot'.
Proof. rewrite err_at_space. apply (find_after ("MOVED " ++ String a "")). exact Hslot. Qed.

Lemma colon_found : find err ":" (7 + size slot') = 8 + size slot' + size host.
Proof.
  rewrite err_at_colon.
  replace (7 + size slot') with (size ("MOVED " ++ String a slot'))
    by (rewrite size_append; unfold size; simpl String.length; lia).
  rewrite find_after by (apply without_cons; [reflexivity | exact Hhost]).
  rewrite !size_append. unfold size. simpl String.length. lia.
Qed.

Lemma size_err : size err = 9 + size slot' + size host + size (pretty port).
Proof.
  rewrite err_at_port, !size_append. unfold size. simpl String.length. lia.
Qed.

Lemma host_read :
  substr err (size_t (7 + size slot' + 1))
         (size_t (8 + size slot' + size host - (7 + size slot') - 1))
  = Some host.
Proof.
  pose proof size_err as Hs. pose proof (size_nonneg slot'). pose proof (size_nonneg host).
  pose proof (size_nonneg (pretty port)).
  unfold size_t. rewrite !Z.mod_small by (unfold npos in *; lia).
  rewrite err_at_host.
  replace (7 + size slot' + 1) with (size (("MOVED " ++ String a slot') ++ " "))
    by (rewrite !size_append; unfold size; simpl String.length; lia).
  replace (8 + size slot' + size host - (7 + size slot') - 1) with (size host) by lia.
  apply substr_middle.
Qed.

Lemma port_read :
  substr_from err (size_t (8 + size slot' + size host + 1)) = Some (pretty port).
Proof.
  pose proof size_err as Hs. pose proof (size_nonneg slot'). pose proof (size_nonneg host).
  pose proof (size_nonneg (pretty port)).
  unfold size_t. rewrite !Z.mod_small by (unfold npos in *; lia).
  rewrite err_at_port.
  replace (8 + size slot' + size host + 1)
    with (size ((("MOVED " ++ String a slot') ++ " ") ++ host ++ ":"))
    by (rewrite !size_append; unfold size; simpl String.length; lia).
  apply substr_from_end. lia.
Qed.

Lemma moved_message_parsed {S : Type} (c : Connection S) :
  handlePotentialMovedError err c
  = (Throw (RedirectedException host port),
     mkConnection (server c) (unread c) (written c)
                  (logged c ++ [configuration_changed])).
Proof.
  unfold handlePotentialMovedError.
  replace (substr err 0 6) with (Some "MOVED ").
  2:{ symmetry. apply (substr_middle "" "MOVED "). }
  cbn [default from_option id].
  change (negb ("MOVED " =? "MOVED ")%string) with false. cbv iota zeta.
  rewrite space_found, colon_found, port_read, host_read.
  rewrite stoul_pretty by (unfold ULONG_MAX; lia).
  unfold u32. rewrite Z.mod_small by lia.
  reflexivity.
Qed.

End Message.
End MovedFacts.

(** X4.  Round trip of the redirection parser: from the error text a node
    sends, [MOVED], a slot, the host, a colon and the port in decimal,
    [handlePotentialMovedError] raises a [RedirectedException] with exactly
    that host and port, after one warning.  The slot is not read; the host
    may hold anything but a colon. *)
Theorem handlePotentialMovedError_reads_back :
  forall (S : Type) (a : ascii) (slot' host : string) (port : Z) (c : Connection S),
    without " " slot' = true ->
    without ":" host = true ->
    0 <= port < 2 ^ 32 ->
    StdString.size (moved_message (String a slot') host port) <= StdString.npos ->
    RedisConnection.handlePotentialMovedError (moved_message (String a slot') host port) c
    = (Throw (RedirectedException host port),
       mkConnection (server c) (unread c) (written c)
                    (logged c ++ [configuration_changed])).
Proof.
  intros S a slot' host port c Hslot Hhost Hport Hsize.
  now apply MovedFacts.moved_message_parsed.
Qed.

Lemma handlePotentialMovedError_reads_back_witness :
  RedisConnection.handlePotentialMovedError (moved_message "7000" "10.0.0.2" 6380)
    (connected tt)
  = (Throw (RedirectedException "10.0.0.2" 6380),
     mkConnection tt [] [] [configuration_changed]).
Proof.
  apply (handlePotentialMovedError_reads_back unit "7" "000" "10.0.0.2" 6380 (connected tt));
    [reflexivity | reflexivity | lia | vm_compute; discriminate].
Defined.

(** X5.  What [getNextFromConnection] hands back: a reply is returned only
    if it is the next unread one, is not an error, and has the type asked
    for (any type when 0 is passed); nothing else of the connection
    changes.  A missing reply, an error reply and a reply of another type
    all end in an exception. *)
Theorem getNextFromConnection_returns_checked_reply :
  forall (S : Type) (T : Transport S) (type : Z) (c c' : Connection S) (reply : redisReply),
    RedisConnection.getNextFromConnection T type c = (Ret reply, c') ->
    unread c = Some reply :: unread c'
    /\ Reply.type reply <> REDIS_REPLY_ERROR
    /\ (type = 0 \/ Reply.type reply = type)
    /\ server c' = server c /\ written c' = written c /\ logged c' = logged c.
Proof.
  intros S T type c c' reply.
  unfold getNextFromConnection, redisGetReply. unfold bind at 1.
  destruct (unread c) as [|[r|] rest] eqn:Hu.
  - unfold handleCriticalError.
    destruct (CriticalFacts.handleCriticalError_rec_throws T (A := redisReply)
                (Datatypes.S connectionRetryCount) 0 c) as (n & c1 & -> & _).
    discriminate.
  - cbn [fst snd].
    destruct (Z.eqb_spec (Reply.type r) REDIS_REPLY_ERROR) as [He|He].
    + unfold bind at 1.
      match goal with |- context [handleCommandError ?e ?c0] =>
        destruct (handleCommandError (S := S) (A := unit) e c0) as [[[]|e1|] c1] eqn:E end;
        try discriminate.
      exfalso. revert E. unfold handleCommandError, bind, log. cbn.
      destruct (_ >? _); [discriminate|].
      destruct (_ >? _); [|discriminate].
      destruct (handlePotentialMovedError _ _) as [[|?|] ?]; discriminate.
    + unfold bind at 1. cbn [ret].
      destruct (Z.eqb_spec type 0) as [->|Hty].
      * unfold bind, ret. intros H. injection H as <- <-. cbn. auto 10.
      * unfold bind, ensureType.
        destruct (Z.eqb_spec type (Reply.type r)) as [->|Hne]; [|discriminate].
        unfold ret. intros H. injection H as <- <-. cbn. auto 10.
  - unfold handleCriticalError.
    match goal with |- context [handleCriticalError_rec T _ _ ?c0] =>
      destruct (CriticalFacts.handleCriticalError_rec_throws T (A := redisReply)
                  (Datatypes.S connectionRetryCount) 0 c0) as (n & c1 & -> & _) end.
    discriminate.
Qed.

Lemma getNextFromConnection_returns_checked_reply_witness :
  let c := mkConnection [] [Some (REPLY_STATUS "QUEUED"); Some REPLY_NIL] [MULTI] [] in
  let c' := mkConnection [] [Some REPLY_NIL] [MULTI] [] in
  RedisConnection.getNextFromConnection Script.transport REDIS_REPLY_STATUS c
  = (Ret (REPLY_STATUS "QUEUED"), c')
  /\ unread c = Some (REPLY_STATUS "QUEUED") :: unread c'
  /\ Reply.type (REPLY_STATUS "QUEUED") <> REDIS_REPLY_ERROR
  /\ (REDIS_REPLY_STATUS = 0 \/ Reply.type (REPLY_STATUS "QUEUED") = REDIS_REPLY_STATUS)
  /\ server c' = server c /\ written c' = written c /\ logged c' = logged c.
Proof.
  intros c c'. split; [reflexivity|].
  apply (getNextFromConnection_returns_checked_reply _ Script.transport REDIS_REPLY_STATUS c c').
  reflexivity.
Defined.

(** ** Storage operations on a server (redis-connection.cpp) *)

Ltac keys_apart :=
  first [ apply keys_differ
        | let E := fresh in intros E; symmetry in E; revert E; apply keys_differ ].

Module RemoveFacts.


End RemoveFacts.


(** X7.  Round trip: on a connection at rest (no reply pending, no
    transaction open, no key watched, no other client at work), to a server
    that holds neither key of the id, and with an expiration that the
    server accepts and that lies in the future, [set] followed by [remove]
    answers true twice and leaves the server exactly as it was, the
    connection at rest again. *)
Theorem remove_undoes_set :
  forall (c : Connection Redis.State) (id : StorageId) (value : string) (expiration : Z),
    let now := Redis.now (server c) in
    let σ := Redis.store (server c) in
    at_rest c = true ->
    Redis.valid_expire expiration = true -> now < expiration ->
    σ !! SPREDIS_SID id = None -> σ !! version_of id = None ->
    let after :=
      (created_ <- RedisConnection.set Redis.transport id value expiration ;;
       removed <- RedisConnection.remove Redis.transport id ;;
       ret (created_, removed)) c in
    fst after = Ret (true, true)
    /\ server (snd after) = server c
    /\ at_rest (snd after) = true.
Proof.
  intros c id value expiration. rested c now σ sl w lg.
  intros Hvalid Hfuture Hd Hv after.
  assert (E : after
              = (Ret (true, true),
                 mkConnection (Redis.mkState now σ None [] false [] sl) []
                   (w ++ set_commands id value expiration
                    ++ [UNLINK (SPREDIS_SID id) (version_of id)])%list lg)).
  { subst after. unfold bind at 1.
    rewrite (set_neither now σ sl w lg id value expiration Hvalid Hfuture Hd Hv).
    unfold bind at 1. unfold remove, redisCommand. rewrite bind_assoc.
    erewrite bind_append
      by (cbn [server]; apply RedisFacts.execute_unlink_watching, keys_differ).
    cbn -[Redis.present set_commands].
    unfold Redis.present.
    rewrite lookup_insert_ne by keys_apart.
    rewrite lookup_insert_eq, lookup_insert_eq. cbn -[set_commands].
    rewrite <- app_assoc.
    do 2 f_equal. f_equal.
    rewrite delete_insert_ne by keys_apart.
    rewrite delete_insert_eq.
    rewrite delete_insert_eq.
    rewrite (delete_id σ) by exact Hd. rewrite (delete_id σ) by exact Hv. reflexivity. }
  rewrite E. repeat split.
Qed.

Lemma remove_undoes_set_witness :
  let after :=
    (created_ <- RedisConnection.set Redis.transport sk "hello" 2000 ;;
     removed <- RedisConnection.remove Redis.transport sk ;;
     ret (created_, removed)) (connected (Redis.quiet 1000 ∅)) in
  fst after = Ret (true, true)
  /\ server (snd after) = Redis.quiet 1000 ∅
  /\ at_rest (snd after) = true.
Proof.
  apply (remove_undoes_set (connected (Redis.quiet 1000 ∅)) sk "hello" 2000);
    reflexivity.
Defined.

Module UpdateFacts.
Import Redis.

Section Run.
Context (now : Z) (σ : gmap string Entry).

Lemma run_set_xx_missing (k v : string) :
  σ !! k = None -> run now σ (SET_XX_KEEPTTL k v) = (σ, REPLY_NIL, []).
Proof. intros Hk. unfold run. now rewrite Hk. Qed.

Lemma run_incr_new (k : string) :
  σ !! k = None ->
  run now σ (INCR k) = (<[k := mkEntry "1" None]> σ, REPLY_INTEGER 1, [k]).
Proof. intros Hk. unfold run. now rewrite Hk. Qed.

Lemma run_expireat_missing (k : string) (t : Z) :
  σ !! k = None -> t <= LLONG_MAX / 1000 ->
  run now σ (EXPIREAT k t) = (σ, REPLY_INTEGER 0, []).
Proof.
  intros Hk Ht. unfold run. rewrite Hk.
  destruct (Z.gtb_spec t (LLONG_MAX / 1000)); [lia | reflexivity].
Qed.

End Run.
End UpdateFacts.

Section ForceUpdateCases.
Context (now : Z) (σ : gmap string Redis.Entry) (id : StorageId)
        (value : string) (expiration : Z).
Context (Hexp : expiration = 0
                \/ (Redis.valid_expire expiration = true /\ now < expiration)).

Lemma forceUpdate_present (d e : Redis.Entry) (cur : Z) :
  σ !! SPREDIS_SID id = Some d -> σ !! version_of id = Some e ->
  Redis.value e = pretty cur -> INT_MIN <= cur < INT_MAX ->
  forall (sl : redisReply) (w : list Command) (lg : list (Level * string)),
  forceUpdate Redis.transport id value expiration
    (mkConnection (Redis.mkState now σ None [] false [] sl) [] w lg)
  = (Ret (cur + 1),
     mkConnection
       (Redis.mkState now
          (if expiration =? 0
           then <[version_of id := updated (pretty (cur + 1)) expiration e]>
                  (<[SPREDIS_SID id := updated value expiration d]> σ)
           else <[version_of id := updated (pretty (cur + 1)) expiration e]>
                  (<[SPREDIS_SID id := updated value expiration d]>
                     (<[version_of id := Redis.mkEntry (pretty (cur + 1)) (Redis.expiry e)]>
                        (<[SPREDIS_SID id := Redis.mkEntry value (Redis.expiry d)]> σ))))
          None [] false [] sl)
       []
       (w ++ [MULTI; SET_XX_KEEPTTL (SPREDIS_SID id) value; INCR (version_of id)]
        ++ (if expiration =? 0 then []
            else [EXPIREAT (SPREDIS_SID id) expiration;
                  EXPIREAT (version_of id) expiration])
        ++ [EXEC])%list
       lg).
Proof.
  intros Hd Hv Hcur Hint sl w lg.
  pose proof (keys_differ id) as Hkeys.
  assert (Hll : Redis.string2ll (Redis.value e) = Some cur).
  { rewrite Hcur. apply DecimalFacts.string2ll_pretty.
    unfold INT_MIN, INT_MAX, Redis.LLONG_MIN, Redis.LLONG_MAX in *. lia. }
  assert (Hcur' : cur < Redis.LLONG_MAX).
  { unfold INT_MAX, Redis.LLONG_MAX in *. lia. }
  unfold forceUpdate, append_update, read_queued, check_expireat, updated.
  destruct Hexp as [-> | [Hvalid Hfuture]].
  - sim.
    exec_with ltac:(
      erewrite RedisFacts.run_set_xx by eassumption;
      erewrite RedisFacts.run_incr
        by (try eassumption; rewrite lookup_insert_ne by exact Hkeys; exact Hv)).
    sim. rewrite to_int_small by (unfold INT_MIN, INT_MAX in *; lia).
    repeat rewrite <- app_assoc. reflexivity.
  - apply andb_prop in Hvalid as [Hpos Hmost].
    apply Z.ltb_lt in Hpos. apply Z.leb_le in Hmost.
    assert (Hnz : (expiration =? 0) = false) by (apply Z.eqb_neq; lia).
    rewrite !Hnz. sim.
    exec_with ltac:(
      erewrite RedisFacts.run_set_xx by eassumption;
      erewrite RedisFacts.run_incr
        by (try eassumption; rewrite lookup_insert_ne by exact Hkeys; exact Hv);
      erewrite RedisFacts.run_expireat
        by (try eassumption; rewrite lookup_insert_ne, lookup_insert_eq
              by keys_apart; reflexivity);
      erewrite RedisFacts.run_expireat
        by (try eassumption; rewrite lookup_insert_ne, lookup_insert_eq
              by keys_apart; reflexivity)).
    sim. rewrite to_int_small by (unfold INT_MIN, INT_MAX in *; lia).
    repeat rewrite <- app_assoc. reflexivity.
Qed.

Lemma forceUpdate_absent :
  σ !! SPREDIS_SID id = None -> σ !! version_of id = None ->
  forall (sl : redisReply) (w : list Command) (lg : list (Level * string)),
  forceUpdate Redis.transport id value expiration
    (mkConnection (Redis.mkState now σ None [] false [] sl) [] w lg)
  = (Throw IOException,
     mkConnection
       (Redis.mkState now
          (<[version_of id :=
               Redis.mkEntry "1" (if expiration =? 0 then None else Some expiration)]> σ)
          None [] false [] sl)
       []
       (w ++ [MULTI; SET_XX_KEEPTTL (SPREDIS_SID id) value; INCR (version_of id)]
        ++ (if expiration =? 0 then []
            else [EXPIREAT (SPREDIS_SID id) expiration;
                  EXPIREAT (version_of id) expiration])
        ++ [EXEC])%list
       lg).
Proof.
  intros Hd Hv sl w lg.
  pose proof (keys_differ id) as Hkeys.
  unfold forceUpdate, append_update, read_queued, check_expireat.
  destruct Hexp as [-> | [Hvalid Hfuture]].
  - sim.
    exec_with ltac:(
      erewrite UpdateFacts.run_set_xx_missing by eassumption;
      erewrite UpdateFacts.run_incr_new by eassumption).
    sim. repeat rewrite <- app_assoc. reflexivity.
  - apply andb_prop in Hvalid as [Hpos Hmost].
    apply Z.ltb_lt in Hpos. apply Z.leb_le in Hmost.
    assert (Hnz : (expiration =? 0) = false) by (apply Z.eqb_neq; lia).
    rewrite !Hnz. sim.
    exec_with ltac:(
      erewrite UpdateFacts.run_set_xx_missing by eassumption;
      erewrite UpdateFacts.run_incr_new by eassumption;
      erewrite UpdateFacts.run_expireat_missing
        by (try eassumption; rewrite lookup_insert_ne by keys_apart; exact Hd);
      erewrite RedisFacts.run_expireat
        by (try eassumption; rewrite lookup_insert_eq; reflexivity)).
    sim. rewrite insert_insert_eq. repeat rewrite <- app_assoc. reflexivity.
Qed.

End ForceUpdateCases.

(** X8.  [forceUpdate] on a connection at rest (no reply pending, no
    transaction open, no key watched, no other client at work), to a server
    that holds the id at version [cur] below [INT_MAX], with an expiration
    that is 0 or is accepted by the server and lies in the future: the
    value is replaced, the version becomes [cur + 1] and is returned, both
    keys keep their time to live when the expiration is 0 and get the new
    one otherwise, and no other key changes. *)
Theorem forceUpdate_replaces_and_counts :
  forall (c : Connection Redis.State) (id : StorageId)
         (value : string) (expiration : Z) (d e : Redis.Entry) (cur : Z),
    let now := Redis.now (server c) in
    let σ := Redis.store (server c) in
    at_rest c = true ->
    expiration = 0 \/ (Redis.valid_expire expiration = true /\ now < expiration) ->
    σ !! SPREDIS_SID id = Some d -> σ !! version_of id = Some e ->
    Redis.value e = pretty cur -> INT_MIN <= cur < INT_MAX ->
    let after := RedisConnection.forceUpdate Redis.transport id value expiration c in
    fst after = Ret (cur + 1)
    /\ Redis.store (server (snd after)) !! SPREDIS_SID id
       = Some (updated value expiration d)
    /\ Redis.store (server (snd after)) !! version_of id
       = Some (updated (pretty (cur + 1)) expiration e)
    /\ (forall k : string, k <> SPREDIS_SID id -> k <> version_of id ->
        Redis.store (server (snd after)) !! k = σ !! k).
Proof.
  intros c id value expiration d e cur. rested c now σ sl w lg.
  intros Hexp Hd Hv Hcur Hint after. subst after.
  rewrite (forceUpdate_present now σ id value expiration Hexp d e cur Hd Hv Hcur Hint
             sl w lg).
  cbn [fst snd server Redis.store].
  split; [reflexivity|].
  destruct (expiration =? 0).
  - split; [|split].
    + rewrite lookup_insert_ne by keys_apart. apply lookup_insert_eq.
    + apply lookup_insert_eq.
    + intros k H1 H2. now rewrite !lookup_insert_ne by congruence.
  - split; [|split].
    + rewrite lookup_insert_ne by keys_apart. apply lookup_insert_eq.
    + apply lookup_insert_eq.
    + intros k H1 H2. now rewrite !lookup_insert_ne by congruence.
Qed.

Lemma forceUpdate_replaces_and_counts_witness :
  let after := RedisConnection.forceUpdate Redis.transport sk "bye" 0
                 (connected (Redis.quiet 1000 at_version_3)) in
  fst after = Ret 4
  /\ Redis.store (server (snd after)) !! SPREDIS_SID sk
     = Some (Redis.mkEntry "bye" None)
  /\ Redis.store (server (snd after)) !! version_of sk
     = Some (Redis.mkEntry "4" None).
Proof.
  destruct (forceUpdate_replaces_and_counts (connected (Redis.quiet 1000 at_version_3))
              sk "bye" 0 (Redis.mkEntry "hello" None) (Redis.mkEntry "3" None) 3)
    as (H1 & H2 & H3 & _);
    [reflexivity | now left | reflexivity | reflexivity | reflexivity
     | vm_compute; intuition discriminate |].
  repeat split; assumption.
Defined.

(** X9.  [forceUpdate] of an id the server does not hold, on a connection
    at rest and with an expiration that is 0 or is accepted by the server
    and lies in the future, raises an [IOException], but only after the
    transaction has run: the data key is not created, and a version key at
    1 is left behind (with the new expiration, when one was given). *)
Theorem forceUpdate_of_missing_id_leaves_version :
  forall (c : Connection Redis.State) (id : StorageId) (value : string) (expiration : Z),
    let now := Redis.now (server c) in
    let σ := Redis.store (server c) in
    at_rest c = true ->
    expiration = 0 \/ (Redis.valid_expire expiration = true /\ now < expiration) ->
    σ !! SPREDIS_SID id = None -> σ !! version_of id = None ->
    let after := RedisConnection.forceUpdate Redis.transport id value expiration c in
    fst after = Throw IOException
    /\ Redis.store (server (snd after))
       = <[version_of id :=
             Redis.mkEntry "1" (if expiration =? 0 then None else Some expiration)]> σ.
Proof.
  intros c id value expiration. rested c now σ sl w lg.
  intros Hexp Hd Hv after. subst after.
  rewrite (forceUpdate_absent now σ id value expiration Hexp Hd Hv sl w lg).
  split; reflexivity.
Qed.

Lemma forceUpdate_of_missing_id_leaves_version_witness :
  let after := RedisConnection.forceUpdate Redis.transport sk "bye" 0
                 (connected (Redis.quiet 1000 ∅)) in
  fst after = Throw IOException
  /\ Redis.store (server (snd after)) = {[ version_of sk := Redis.mkEntry "1" None ]}.
Proof.
  apply (forceUpdate_of_missing_id_leaves_version (connected (Redis.quiet 1000 ∅))
           sk "bye" 0);
    [reflexivity | now left | reflexivity | reflexivity].
Defined.

Lemma getVersioned_loop_round {S : Type} (T : Transport S) (tries : nat)
    (id : StorageId) (out_value out_expiration : bool) (minVersion : Z) :
  getVersioned_loop T (Datatypes.S tries) id out_value out_expiration minVersion
  = (appendCommand T (WATCH (version_of id)) ;;
     getNextFromConnection T REDIS_REPLY_STATUS ;;
     currentVersion <- getOnlyVersion T id ;;
     let out_value := if currentVersion <? minVersion then false else out_value in
     if negb out_value && negb out_expiration
     then
       appendCommand T UNWATCH ;;
       getNextFromConnection T REDIS_REPLY_STATUS ;;
       ret (mkRead currentVersion None None)
     else
       appendCommand T MULTI ;;
       (if out_value then appendCommand T (GET (SPREDIS_SID id)) else ret tt) ;;
       (if out_expiration then appendCommand T (EXPIRETIME (SPREDIS_SID id)) else ret tt) ;;
       appendCommand T EXEC ;;
       getNextFromConnection T REDIS_REPLY_STATUS ;;
       (if out_value then getNextFromConnection T REDIS_REPLY_STATUS ;; ret tt else ret tt) ;;
       (if out_expiration then getNextFromConnection T REDIS_REPLY_STATUS ;; ret tt else ret tt) ;;
       reply <- getNextFromConnection T 0 ;;
       if Reply.type reply =? REDIS_REPLY_NIL
       then
         log NOTICE "(getVersioned) concurrency failure: retrying" ;;
         getVersioned_loop T tries id out_value out_expiration minVersion
       else
         ensureType reply REDIS_REPLY_ARRAY ;;
         (if negb (Reply.elements reply =? 0 + count out_value + count out_expiration)
          then handleCommandError incorrect_amount
          else ret tt) ;;
         out <- read_outputs reply 0 out_value out_expiration ;;
         ret (mkRead currentVersion (fst out) (snd out))).
Proof. reflexivity. Qed.

Ltac sim_read :=
  repeat (progress (cbn -[StdString.stoi pretty Redis.valid_expire Redis.run
                          Redis.string2ll to_int getVersioned_loop parseNumber];
                    eval_tests; rewrite ?bind_assoc)).

Module WatchFacts.
Import Redis.

(** [WATCH] and [UNWATCH] outside a transaction, nobody else at work. *)
Lemma execute_watch (now : Z) (σ : gmap string Entry) (k : string)
    (w : list string) (d : bool) (sl : redisReply) :
  execute (mkState now σ None w d [] sl) (WATCH k)
  = (mkState now σ None (k :: w) d [] sl, Some (REPLY_STATUS "OK")).
Proof. reflexivity. Qed.

Lemma execute_unwatch (now : Z) (σ : gmap string Entry)
    (w : list string) (d : bool) (sl : redisReply) :
  execute (mkState now σ None w d [] sl) UNWATCH
  = (mkState now σ None [] false [] sl, Some (REPLY_STATUS "OK")).
Proof. reflexivity. Qed.

End WatchFacts.

Section VersionedOnMissing.
Context (now : Z) (σ : gmap string Redis.Entry) (id : StorageId).
Context (Hmissing : σ !! version_of id = None).

Lemma getOnlyVersion_missing (w : list string) :
  getOnlyVersion Redis.transport id
    (mkConnection (Redis.mkState now σ None w false [] REPLY_NIL) [] [] [])
  = (Throw IOException,
     mkConnection (Redis.mkState now σ None w false [] REPLY_NIL) []
                  [GET (version_of id)] []).
Proof.
  unfold getOnlyVersion. sim.
  answered ltac:(apply RedisFacts.execute_get).
  rewrite Hmissing. sim. reflexivity.
Qed.

Lemma getVersioned_missing (out_value out_expiration : bool) (minVersion : Z)
    (sl : redisReply) (w : list Command) (lg : list (Level * string)) :
  let after := getVersioned Redis.transport id out_value out_expiration minVersion
                 (mkConnection (Redis.mkState now σ None [] false [] sl) [] w lg) in
  fst after = Throw IOException /\ Redis.store (server (snd after)) = σ.
Proof.
  intros after. subst after.
  unfold getVersioned, optimisticConcurrencyRetryCount.
  destruct (negb out_value && negb out_expiration).
  - unfold getOnlyVersion. sim.
    answered ltac:(apply RedisFacts.execute_get).
    rewrite Hmissing. sim. split; reflexivity.
  - rewrite getVersioned_loop_round. sim_read.
    unfold getOnlyVersion. sim_read.
    answered ltac:(apply RedisFacts.execute_get).
    rewrite Hmissing. sim_read. split; reflexivity.
Qed.

Lemma updateVersioned_missing (value : string) (expiration ifVersion : Z)
    (sl : redisReply) (w : list Command) (lg : list (Level * string)) :
  let after := updateVersioned Redis.transport id value expiration ifVersion
                 (mkConnection (Redis.mkState now σ None [] false [] sl) [] w lg) in
  fst after = Throw IOException /\ Redis.store (server (snd after)) = σ.
Proof.
  intros after. subst after.
  unfold updateVersioned, optimisticConcurrencyRetryCount.
  rewrite updateVersioned_loop_round. sim.
  unfold getOnlyVersion. sim.
  answered ltac:(apply RedisFacts.execute_get).
  rewrite Hmissing. sim. split; reflexivity.
Qed.

End VersionedOnMissing.

(** X10.  The versioned operations on an id without a version key, on a
    connection at rest (no reply pending, no transaction open, no key
    watched, no other client at work): where [forceGet] answers 0,
    [getVersioned] (with or without outputs) and [updateVersioned] raise an
    [IOException], because the reply to the GET of the version is nil and a
    string is demanded.  The key space is left as it was. *)
Theorem versioned_operations_raise_on_missing_id :
  forall (c : Connection Redis.State) (id : StorageId),
    let σ := Redis.store (server c) in
    at_rest c = true ->
    σ !! version_of id = None ->
    (forall (out_value out_expiration : bool) (minVersion : Z),
       let after := RedisConnection.getVersioned Redis.transport id out_value
                      out_expiration minVersion c in
       fst after = Throw IOException /\ Redis.store (server (snd after)) = σ)
    /\ (forall (value : string) (expiration ifVersion : Z),
       let after := RedisConnection.updateVersioned Redis.transport id value
                      expiration ifVersion c in
       fst after = Throw IOException /\ Redis.store (server (snd after)) = σ)
    /\ (forall out_value out_expiration : bool,
       fst (RedisConnection.forceGet Redis.transport id out_value out_expiration c)
       = Ret (mkRead 0 None None)).
Proof.
  intros c id. rested c now σ sl w lg.
  intros Hmissing. split; [|split].
  - intros. now apply getVersioned_missing.
  - intros. now apply updateVersioned_missing.
  - intros. now apply forceGet_no_version.
Qed.

Lemma versioned_operations_raise_on_missing_id_witness :
  fst (RedisConnection.getVersioned Redis.transport sk true true 1
         (connected (Redis.quiet 1000 ∅)))
  = Throw IOException
  /\ fst (RedisConnection.updateVersioned Redis.transport sk "bye" 0 1
            (connected (Redis.quiet 1000 ∅)))
     = Throw IOException
  /\ fst (RedisConnection.forceGet Redis.transport sk true true
            (connected (Redis.quiet 1000 ∅)))
     = Ret (mkRead 0 None None).
Proof.
  destruct (versioned_operations_raise_on_missing_id (connected (Redis.quiet 1000 ∅)) sk
              eq_refl (lookup_empty _)) as (H1 & H2 & H3).
  split; [apply (H1 true true 1) | split; [apply (H2 "bye" 0 1) | apply (H3 true true)]].
Defined.

Section GetVersionedCases.
Context (now : Z) (σ : gmap string Redis.Entry) (id : StorageId).
Context (e d : Redis.Entry) (cur : Z).
Context (Hversion : σ !! version_of id = Some e).
Context (Hdata : σ !! SPREDIS_SID id = Some d).
Context (Hcur : Redis.value e = pretty cur).
Context (Hint : INT_MIN <= cur <= INT_MAX).

Lemma getVersioned_present (out_value out_expiration : bool) (minVersion : Z)
    (sl : redisReply) (w : list Command) (lg : list (Level * string)) :
  let after := getVersioned Redis.transport id out_value out_expiration minVersion
                 (mkConnection (Redis.mkState now σ None [] false [] sl) [] w lg) in
  fst after
  = Ret (mkRead cur
           (if out_value && (minVersion <=? cur) then Some (Redis.value d) else None)
           (if out_expiration then Some (default (-1) (Redis.expiry d)) else None))
  /\ Redis.store (server (snd after)) = σ
  /\ Redis.watching (server (snd after)) = [].
Proof.
  intros after. subst after.
  unfold getVersioned, optimisticConcurrencyRetryCount.
  destruct out_value, out_expiration; cbn [negb andb];
    try rewrite getVersioned_loop_round; sim_read;
    unfold getOnlyVersion; sim_read;
    (answered ltac:(apply RedisFacts.execute_get));
    rewrite Hversion, Hcur; sim_read;
    rewrite (bind_parseNumber _ cur) by (apply DecimalFacts.stoi_pretty, Hint);
    try (destruct (Z.ltb_spec cur minVersion); destruct (Z.leb_spec minVersion cur); try lia);
    sim_read;
    try (exec_with reads; sim_read; rewrite ?Hdata; sim_read);
    repeat split.
Qed.

End GetVersionedCases.



(** X30.  On a connection at rest whose server holds the id at a version
    [cur] other than [ifVersion], [updateVersioned] answers -1 after a
    WATCH and a GET, without an UNWATCH: the version key stays watched and
    the connection is no longer at rest.  When the same connection then
    removes the id, [remove] answers true, both keys are gone and the
    watched key counts as modified, so that the next transaction on the
    connection is dropped by the server: a [set] of the id raises an
    [IOException] although neither of its keys exists, and creates
    nothing. *)
Theorem mismatch_leaves_the_key_watched :
  forall (c : Connection Redis.State) (id : StorageId) (value value' : string)
         (expiration ifVersion expiration' : Z) (e : Redis.Entry) (cur : Z),
    let σ := Redis.store (server c) in
    at_rest c = true ->
    σ !! version_of id = Some e ->
    Redis.value e = pretty cur -> INT_MIN <= cur <= INT_MAX ->
    cur <> ifVersion ->
    let first := RedisConnection.updateVersioned Redis.transport id value expiration
                   ifVersion c in
    let second := RedisConnection.remove Redis.transport id (snd first) in
    let third := RedisConnection.set Redis.transport id value' expiration' (snd second) in
    fst first = Ret (-1)
    /\ written (snd first)
       = (written c ++ [WATCH (version_of id); GET (version_of id)])%list
    /\ Redis.watching (server (snd first)) = [version_of id]
    /\ at_rest (snd first) = false
    /\ fst second = Ret true
    /\ Redis.store (server (snd second)) !! SPREDIS_SID id = None
    /\ Redis.store (server (snd second)) !! version_of id = None
    /\ fst third = Throw IOException
    /\ Redis.store (server (snd third)) = Redis.store (server (snd second)).
Proof.
  intros c id value value' expiration ifVersion expiration' e cur.
  rested c now σ sl w lg.
  intros Hversion Hcur Hint Hne first second third.
  assert (E1 : first
               = (Ret (-1),
                  mkConnection (Redis.mkState now σ None [version_of id] false [] sl) []
                    (w ++ [WATCH (version_of id); GET (version_of id)])%list lg)).
  { subst first.
    apply (updateVersioned_mismatch now σ id value expiration ifVersion e cur
             Hversion Hcur Hint sl w lg Hne). }
  assert (E2 : second
               = (Ret true,
                  mkConnection
                    (Redis.mkState now (delete (version_of id) (delete (SPREDIS_SID id) σ))
                       None [version_of id] true [] sl) []
                    (w ++ [WATCH (version_of id); GET (version_of id);
                           UNLINK (SPREDIS_SID id) (version_of id)])%list lg)).
  { subst second. rewrite E1. cbn [snd]. unfold remove, redisCommand. rewrite bind_assoc.
    erewrite bind_append
      by (cbn [server]; apply RedisFacts.execute_unlink_watching, keys_differ).
    assert (Hp : Redis.present σ (version_of id) = true)
      by (unfold Redis.present; now rewrite Hversion).
    rewrite Hp, RedisFacts.touches_last.
    cbn -[Redis.present Z.add]. rewrite <- app_assoc.
    destruct (Redis.present σ (SPREDIS_SID id)); reflexivity. }
  assert (E3 : third
               = (Throw IOException,
                  mkConnection
                    (Redis.mkState now (delete (version_of id) (delete (SPREDIS_SID id) σ))
                       None [] false [] sl) []
                    (w ++ [WATCH (version_of id); GET (version_of id);
                           UNLINK (SPREDIS_SID id) (version_of id)]
                     ++ set_commands id value' expiration')%list lg)).
  { subst third. rewrite E2. cbn [snd]. unfold set. sim.
    repeat rewrite <- app_assoc. reflexivity. }
  rewrite E3, E2, E1. cbn [fst snd server written Redis.store Redis.watching].
  repeat split.
  - rewrite lookup_delete_ne by keys_apart. apply lookup_delete_eq.
  - apply lookup_delete_eq.
Qed.

Lemma mismatch_leaves_the_key_watched_witness :
  let first := RedisConnection.updateVersioned Redis.transport sk "new" 0 2
                 (connected (Redis.quiet 1000 at_version_3)) in
  let second := RedisConnection.remove Redis.transport sk (snd first) in
  let third := RedisConnection.set Redis.transport sk "again" 2000 (snd second) in
  fst first = Ret (-1)
  /\ fst second = Ret true
  /\ Redis.store (server (snd second)) = ∅
  /\ fst third = Throw IOException.
Proof.
  destruct (mismatch_leaves_the_key_watched (connected (Redis.quiet 1000 at_version_3)) sk
              "new" "again" 0 2 2000 (Redis.mkEntry "3" None) 3)
    as (H1 & _ & _ & _ & H2 & _ & _ & H3 & _);
    [reflexivity | reflexivity | reflexivity | vm_compute; intuition discriminate
     | discriminate |].
  split; [exact H1|]. split; [exact H2|]. split; [|exact H3].
  vm_compute. reflexivity.
Defined.

(** X12.  [parseNumber] reads back the decimal text of a version: any
    integer within the range of [int] is returned as it was printed, with
    no log entry; an integer outside that range reads as version 0, with
    an error logged, and no exception. *)
Theorem parseNumber_reads_back_decimal :
  forall (S : Type) (n : Z) (c : Connection S),
    (INT_MIN <= n <= INT_MAX ->
     RedisConnection.parseNumber (pretty n) c = (Ret n, c))
    /\ (n < INT_MIN \/ INT_MAX < n ->
        RedisConnection.parseNumber (pretty n) c
        = (Ret 0, mkConnection (server c) (unread c) (written c)
                    (logged c ++ [(ERROR, "value in version key exceeds integer limit")]))).
Proof.
  intros S n c. split.
  - intros Hn. unfold parseNumber. rewrite DecimalFacts.stoi_pretty by exact Hn.
    reflexivity.
  - intros Hn. unfold parseNumber, StdString.stoi.
    rewrite DecimalFacts.subject_pretty.
    replace (if n <? 0 then - Z.abs n else Z.abs n) with n
      by (destruct (Z.ltb_spec n 0); lia).
    destruct (Z.ltb_spec n INT_MIN); destruct (Z.gtb_spec n INT_MAX);
      try lia; reflexivity.
Qed.

(** ** The router (redis-cluster.h, redis-cluster.cpp) *)

Module SlotMapBuild.
Import RedisCluster.

Lemma operator_lt_apart_left (a b : ClusterRange) :
  m_start a <= m_end a -> m_end a < m_start b -> ClusterRange.operator_lt a b = true.
Proof. intros H1 H2. apply ClusterRangeOrder.operator_lt_spec. lia. Qed.

Lemma operator_lt_apart_right (a b : ClusterRange) :
  m_start b <= m_end b -> m_end b < m_start a -> ClusterRange.operator_lt a b = false.
Proof.
  intros H1 H2. destruct (ClusterRange.operator_lt a b) eqn:E; [|reflexivity].
  apply ClusterRangeOrder.operator_lt_spec in E. lia.
Qed.

Lemma ascending_weaken (l : list Slot) (lo lo' : Z) :
  lo' <= lo -> ascending lo l = true -> ascending lo' l = true.
Proof.
  intros Hlo. destruct l as [|s l]; [reflexivity|]. simpl.
  intros H. apply andb_prop in H as [H H3]. apply andb_prop in H as [H1 H2].
  apply Z.leb_le in H1. rewrite H2, H3.
  replace (lo' <=? m_start (range s)) with true by (symmetry; apply Z.leb_le; lia).
  reflexivity.
Qed.

(** Inserting a range that overlaps none of an ascending map keeps the map
    ascending, keeps what was there, and adds the new pair. *)
Lemma insert_or_assign_ascending (k : ClusterRange) (v : ClusterNode) (a : address)
    (l : list Slot) :
  forall lo : Z,
    ascending lo l = true ->
    lo <= m_start k <= m_end k ->
    forallb (fun s => apart k (range s)) l = true ->
    ascending lo (insert_or_assign k v a l) = true
    /\ (forall s, In s (insert_or_assign k v a l) <-> s = mkSlot k a v \/ In s l).
Proof.
  induction l as [|s l IH]; intros lo Hasc Hk Hapart.
  - simpl. split.
    + replace (lo <=? m_start k) with true by (symmetry; apply Z.leb_le; lia).
      replace (m_start k <=? m_end k) with true by (symmetry; apply Z.leb_le; lia).
      reflexivity.
    + intros s. simpl. intuition congruence.
  - simpl in Hasc, Hapart.
    apply andb_prop in Hasc as [Hasc Hrest]. apply andb_prop in Hasc as [H1 H2].
    apply andb_prop in Hapart as [Hs Hl].
    apply Z.leb_le in H1, H2.
    unfold apart in Hs. apply orb_prop in Hs.
    cbn [insert_or_assign].
    destruct Hs as [Hs|Hs]; apply Z.ltb_lt in Hs.
    + (* the new range lies before [s] *)
      rewrite (operator_lt_apart_right (range s) k) by lia.
      rewrite (operator_lt_apart_left k (range s)) by lia.
      split.
      * cbn [ascending range].
        replace (lo <=? m_start k) with true by (symmetry; apply Z.leb_le; lia).
        replace (m_start k <=? m_end k) with true by (symmetry; apply Z.leb_le; lia).
        replace (m_end k + 1 <=? m_start (range s)) with true
          by (symmetry; apply Z.leb_le; lia).
        replace (m_start (range s) <=? m_end (range s)) with true
          by (symmetry; apply Z.leb_le; lia).
        exact Hrest.
      * intros s'. simpl. intuition congruence.
    + (* the new range lies after [s] *)
      rewrite (operator_lt_apart_left (range s) k) by lia.
      destruct (IH (m_end (range s) + 1) Hrest ltac:(lia) Hl) as [IH1 IH2].
      split.
      * cbn [ascending].
        replace (lo <=? m_start (range s)) with true by (symmetry; apply Z.leb_le; lia).
        replace (m_start (range s) <=? m_end (range s)) with true
          by (symmetry; apply Z.leb_le; lia).
        exact IH1.
      * intros s'. simpl. rewrite IH2. intuition congruence.
Qed.

Lemma CacheSetter_map {S : Type} (cl : State (S := S)) (row : ClusterRange * ClusterNode) :
  m_cluster_map (CacheSetter cl row)
  = insert_or_assign (fst row) (snd row) (fresh cl) (m_cluster_map cl).
Proof. reflexivity. Qed.

(** The rows of a reply, none overlapping another or the map, leave an
    ascending map that holds the old entries and one entry per row. *)
Lemma fold_CacheSetter_ascending {S : Type} (rows : list (ClusterRange * ClusterNode)) :
  forall cl : State (S := S),
    ascending 0 (m_cluster_map cl) = true ->
    disjoint_rows rows = true ->
    (forall row, In row rows ->
       forallb (fun s => apart (fst row) (range s)) (m_cluster_map cl) = true) ->
    ascending 0 (m_cluster_map (fold_left CacheSetter rows cl)) = true
    /\ (forall s, In s (m_cluster_map cl) ->
                  In s (m_cluster_map (fold_left CacheSetter rows cl)))
    /\ (forall r n, In (r, n) rows ->
          exists a, In (mkSlot r a n) (m_cluster_map (fold_left CacheSetter rows cl))).
Proof.
  induction rows as [|[r n] rows IH]; intros cl Hasc Hrows Hmap.
  - simpl. repeat split; auto. intros r n [].
  - cbn [disjoint_rows] in Hrows.
    apply andb_prop in Hrows as [Hrows Hrest]. apply andb_prop in Hrows as [Hrows Hothers].
    apply andb_prop in Hrows as [H0 Hwf]. apply Z.leb_le in H0, Hwf.
    cbn [fold_left].
    destruct (insert_or_assign_ascending r n (fresh cl) (m_cluster_map cl) 0 Hasc
                ltac:(lia) (Hmap (r, n) (or_introl eq_refl))) as [Hasc' Hin'].
    destruct (IH (CacheSetter cl (r, n))) as (IH1 & IH2 & IH3).
    + exact Hasc'.
    + exact Hrest.
    + intros row Hrow. rewrite CacheSetter_map. cbn [fst snd].
      apply forallb_forall. intros s Hs. apply Hin' in Hs as [->|Hs].
      * cbn [range]. rewrite forallb_forall in Hothers.
        specialize (Hothers row Hrow). unfold apart in *.
        now rewrite orb_comm.
      * specialize (Hmap row (or_intror Hrow)). rewrite forallb_forall in Hmap.
        now apply Hmap.
    + repeat split.
      * exact IH1.
      * intros s Hs. apply IH2. rewrite CacheSetter_map. apply Hin'. now right.
      * intros r' n' [E|Hin].
        -- injection E as <- <-. exists (fresh cl). apply IH2.
           rewrite CacheSetter_map. apply Hin'. now left.
        -- now apply IH3.
Qed.

End SlotMapBuild.

(** X13.  Insert and look up: when the rows of a [CLUSTER SLOTS] reply do
    not overlap, the slot map that [CacheSetter] makes of them routes every
    id whose hash slot lies in the range of a row to the node of that
    row. *)
Theorem reported_rows_are_found :
  forall (S : Type) (rows : list (ClusterRange * ClusterNode))
         (r : ClusterRange) (n : ClusterNode) (id : StorageId),
    disjoint_rows rows = true ->
    In (r, n) rows ->
    m_start r <= slot_of id <= m_end r ->
    RedisCluster.node <$> RedisCluster.find (RedisCluster.m_cluster_map (@filled S rows)) id
    = Some n.
Proof.
  intros S rows r n id Hrows Hin Hslot. unfold filled.
  destruct (SlotMapBuild.fold_CacheSetter_ascending (S := S) rows blank eq_refl Hrows)
    as (Hasc & _ & Hall).
  { intros row _. reflexivity. }
  destruct (Hall r n Hin) as [a Ha].
  rewrite (SlotMapFacts.find_complete _ id _ Hasc Ha); [reflexivity|].
  exact Hslot.
Qed.

Lemma reported_rows_are_found_witness :
  RedisCluster.node
    <$> RedisCluster.find
          (RedisCluster.m_cluster_map
             (@filled unit [(mkClusterRange 8192 16383, mkClusterNode "10.0.0.2" 6379);
                            (mkClusterRange 0 8191, mkClusterNode "10.0.0.1" 6379)]))
          sk
  = Some (mkClusterNode "10.0.0.2" 6379).
Proof.
  apply (reported_rows_are_found unit _ (mkClusterRange 8192 16383));
    [reflexivity | now left | vm_compute; intuition discriminate].
Defined.

(** X14.  The lookup of the slot map by storage id, a binary search with
    the comparisons of a range against an id: on a map whose ranges ascend
    without overlapping it returns an entry exactly when that entry's range
    holds the hash slot of the id, so that it misses exactly the slots no
    range covers. *)
Theorem find_returns_the_holding_range :
  forall (l : list RedisCluster.Slot) (id : StorageId) (s : RedisCluster.Slot),
    ascending 0 l = true ->
    (RedisCluster.find l id = Some s <-> In s l /\ holds s (slot_of id)).
Proof.
  intros l id s Hasc. split.
  - apply SlotMapFacts.find_sound.
  - intros [Hin Hs]. now apply SlotMapFacts.find_complete.
Qed.

Lemma find_returns_the_holding_range_witness :
  let first := RedisCluster.mkSlot (mkClusterRange 0 8191) 0%nat (mkClusterNode "10.0.0.1" 6379) in
  let second := RedisCluster.mkSlot (mkClusterRange 8192 16000) 1%nat
                  (mkClusterNode "10.0.0.2" 6379) in
  RedisCluster.find [first; second] sk = Some second
  /\ RedisCluster.find [first] sk = None.
Proof.
  intros first second. split.
  - apply (find_returns_the_holding_range [first; second] sk second eq_refl).
    split; [right; now left | vm_compute; intuition discriminate].
  - destruct (RedisCluster.find [first] sk) as [s|] eqn:E; [|reflexivity].
    apply (find_returns_the_holding_range [first] sk s eq_refl) in E as [[<-|[]] Hs].
    vm_compute in Hs. destruct Hs as [_ Hs]. exfalso. apply Hs. reflexivity.
Defined.

Module RebuildFacts.
Section WithNetwork.
Import RedisCluster.
Context {S : Type} (T : Transport S) (connect : ClusterNode -> outcome S).

Lemma copy_length (l : list Slot) :
  forall a, List.length (fst (copy l a)) = List.length l.
Proof.
  induction l as [|s l IH]; intros a; simpl; [reflexivity|].
  specialize (IH (Datatypes.S a)). destruct (copy l (Datatypes.S a)). simpl in *. lia.
Qed.

Lemma copy_nodes (l : list Slot) :
  forall a s, In s (fst (copy l a)) -> exists s', In s' l /\ node s' = node s.
Proof.
  induction l as [|x l IH]; intros a s; simpl; [intros []|].
  specialize (IH (Datatypes.S a)). destruct (copy l (Datatypes.S a)) as [l' a'].
  simpl in *. intros [<-|Hin].
  - exists x. split; [now left | reflexivity].
  - destruct (IH s Hin) as (s' & H1 & H2). exists s'. split; [now right | exact H2].
Qed.

(** With an empty cache and no node that can be reached, the nodes are
    asked one after the other, each failure is logged, and none stops the
    iteration. *)
Lemma any_of_unreachable (entries : list Slot) :
  (forall s, In s entries -> exists e, connect (node s) = Throw e) ->
  forall (a : address) (lg : list (Level * string)) (sl : list Z),
    any_of T connect entries (mkState [] [] a lg sl)
    = (Ret false,
       mkState [] [] a (lg ++ repeat rebuild_error (List.length entries)) sl).
Proof.
  induction entries as [|s entries IH]; intros Hdown a lg sl.
  - simpl. now rewrite app_nil_r.
  - cbn [any_of]. unfold bind at 1. unfold CacheReseter, dispatchConnectionUnguarded.
    cbn [cached m_connection_map List.find fmap option_fmap option_map].
    destruct (Hdown s (or_introl eq_refl)) as [e ->].
    cbn. rewrite IH by (intros s' Hs'; apply Hdown; now right).
    cbn. rewrite <- app_assoc. reflexivity.
Qed.

Lemma resetSlotsCacheUnguarded_unreachable (cl : State (S := S)) :
  (forall s, In s (m_cluster_map cl) -> exists e, connect (node s) = Throw e) ->
  exists a : address,
    resetSlotsCacheUnguarded T connect cl
    = (Throw XMLToolingException,
       mkState [] [] a
         (m_logged cl ++ repeat rebuild_error (List.length (m_cluster_map cl))
                      ++ [no_node_responds])
         (slept cl)).
Proof.
  intros Hdown. unfold resetSlotsCacheUnguarded.
  pose proof (copy_length (m_cluster_map cl) (fresh cl)) as Hlen.
  pose proof (copy_nodes (m_cluster_map cl) (fresh cl)) as Hnodes.
  destruct (copy (m_cluster_map cl) (fresh cl)) as [previous_map a].
  cbn [fst] in Hlen, Hnodes. exists a.
  unfold bind at 1. rewrite any_of_unreachable.
  - cbn. rewrite Hlen, <- app_assoc. reflexivity.
  - intros s Hs. destruct (Hnodes s Hs) as (s' & Hin & <-). now apply Hdown.
Qed.

End WithNetwork.
End RebuildFacts.

(** X15.  A rebuild of the slot map that reaches no node ends in an
    [XMLToolingException] and leaves the router without slot map and
    without connections, one error logged for each node it knew and a
    critical entry at the end.  In particular a router whose slot map is
    empty can never fill it again: there is no node to ask. *)
Theorem rebuild_without_node_empties_the_router :
  forall (S : Type) (T : Transport S) (connect : ClusterNode -> outcome S)
         (cl : RedisCluster.State (S := S)),
    (forall s, In s (RedisCluster.m_cluster_map cl) ->
               exists e, connect (RedisCluster.node s) = Throw e) ->
    let after := RedisCluster.rebuildRangeMappingUniqueLocked T connect cl in
    fst after = Throw XMLToolingException
    /\ RedisCluster.m_cluster_map (snd after) = []
    /\ RedisCluster.m_connection_map (snd after) = []
    /\ RedisCluster.m_logged (snd after)
       = (RedisCluster.m_logged cl
          ++ repeat rebuild_error (List.length (RedisCluster.m_cluster_map cl))
          ++ [no_node_responds])%list
    /\ RedisCluster.slept (snd after) = RedisCluster.slept cl.
Proof.
  intros S T connect cl Hdown after. subst after.
  unfold RedisCluster.rebuildRangeMappingUniqueLocked.
  destruct (RebuildFacts.resetSlotsCacheUnguarded_unreachable T connect cl Hdown) as [a ->].
  repeat split.
Qed.

(** The router that a constructor without reachable seed leaves, in a
    network where every node would answer. *)
Lemma rebuild_without_node_empties_the_router_witness :
  let after := RedisCluster.rebuildRangeMappingUniqueLocked Redis.transport two_nodes blank in
  fst after = Throw XMLToolingException
  /\ RedisCluster.m_cluster_map (snd after) = []
  /\ RedisCluster.m_connection_map (snd after) = []
  /\ RedisCluster.m_logged (snd after) = [no_node_responds]
  /\ RedisCluster.slept (snd after) = [].
Proof.
  apply (rebuild_without_node_empties_the_router _ Redis.transport two_nodes blank).
  intros s [].
Defined.

Module UnreachableFacts.
Section WithNetwork.
Import RedisCluster.
Context {S : Type} (T : Transport S) (connect : ClusterNode -> outcome S)
        (config : RedisConfig).

Lemma tryWait_first (cl : State (S := S)) :
  0 <= maxRetries config ->
  tryWaitWithRetryNumber config 0 cl
  = (Ret true,
     mkState (m_connection_map cl) (m_cluster_map cl) (fresh cl) (m_logged cl)
             (slept cl ++ [first_wait config])).
Proof.
  intros Hm. unfold tryWaitWithRetryNumber.
  change (u32 0) with 0.
  destruct (Z.gtb_spec 0 (maxRetries config)); [lia|]. reflexivity.
Qed.

End WithNetwork.
End UnreachableFacts.

(** X16.  A call on a cluster of which no node can be reached: the
    connection to the node of the slot fails, the router sleeps once, and
    the rebuild that follows finds no node either, so that the call ends in
    an [XMLToolingException] after one sleep, whatever [maxRetries] allows,
    and leaves the router without slot map. *)
Theorem call_on_unreachable_cluster_wipes_the_map :
  forall (S R : Type) (T : Transport S) (connect : ClusterNode -> outcome S)
         (config : RedisConfig) (id : StorageId) (fn : M (Connection S) R)
         (cl : RedisCluster.State (S := S)) (s : RedisCluster.Slot),
    0 <= maxRetries config ->
    RedisCluster.find (RedisCluster.m_cluster_map cl) id = Some s ->
    RedisCluster.cached (RedisCluster.stored_at s) cl = None ->
    (forall s', In s' (RedisCluster.m_cluster_map cl) ->
                connect (RedisCluster.node s') = Throw ConnectionLostException) ->
    let after := RedisCluster.wrappedCall T connect config id fn cl in
    fst after = Throw XMLToolingException
    /\ RedisCluster.m_cluster_map (snd after) = []
    /\ RedisCluster.m_connection_map (snd after) = []
    /\ RedisCluster.slept (snd after) = (RedisCluster.slept cl ++ [first_wait config])%list.
Proof.
  intros S R T connect config id fn cl s Hm Hfind Hcache Hdown after.
  assert (E : exists a lg,
             after = (Throw XMLToolingException,
                      RedisCluster.mkState [] [] a lg
                        (RedisCluster.slept cl ++ [first_wait config])%list)).
  { subst after. unfold RedisCluster.wrappedCall.
    rewrite RouterFacts.wrappedCall_rec_unfold. cbv zeta.
    assert (Hs : In s (RedisCluster.m_cluster_map cl))
      by (apply SlotMapFacts.find_sound in Hfind; tauto).
    unfold bind at 1. unfold RedisCluster.findNodeEntryUnguarded at 1. rewrite Hfind.
    unfold bind at 1. unfold RedisCluster.dispatchConnectionUnguarded at 1.
    rewrite Hcache, (Hdown s Hs).
    unfold bind at 1. rewrite UnreachableFacts.tryWait_first by exact Hm.
    unfold bind at 1. unfold RedisCluster.rebuildRangeMappingUniqueLocked.
    match goal with |- context [RedisCluster.resetSlotsCacheUnguarded T connect ?c0] =>
      destruct (RebuildFacts.resetSlotsCacheUnguarded_unreachable T connect c0) as [a ->] end.
    - intros s' Hs'. exists ConnectionLostException. now apply Hdown.
    - eauto. }
  destruct E as (a & lg & ->). repeat split.
Qed.

Lemma call_on_unreachable_cluster_wipes_the_map_witness :
  let cl := @filled Redis.State [(mkClusterRange 0 16383, mkClusterNode "10.0.0.1" 6379)] in
  let after := RedisCluster.wrappedCall Redis.transport unreachable default_retries sk
                 (RedisConnection.remove Redis.transport sk) cl in
  fst after = Throw XMLToolingException
  /\ RedisCluster.m_cluster_map (snd after) = []
  /\ RedisCluster.m_connection_map (snd after) = []
  /\ RedisCluster.slept (snd after) = [500000].
Proof.
  intros cl.
  apply (call_on_unreachable_cluster_wipes_the_map _ _ Redis.transport unreachable
           default_retries sk (RedisConnection.remove Redis.transport sk) cl
           (RedisCluster.mkSlot (mkClusterRange 0 16383) 0%nat
                                (mkClusterNode "10.0.0.1" 6379)));
    [vm_compute; discriminate | reflexivity | reflexivity | reflexivity].
Defined.

(** X17.  A call is retried only after a lost connection or a
    redirection.  When the operation ends otherwise, in a value or in any
    other exception, the router makes it once and hands its outcome on as
    it is: no sleep, no rebuild of the slot map, no log entry; the
    connection is the cached one of the node, or a new one that is then
    cached. *)
Theorem other_outcomes_are_not_retried :
  forall (S R : Type) (T : Transport S) (connect : ClusterNode -> outcome S)
         (config : RedisConfig) (id : StorageId) (fn : M (Connection S) R)
         (cl : RedisCluster.State (S := S)) (s : RedisCluster.Slot)
         (c c' : Connection S) (o : outcome R),
    RedisCluster.find (RedisCluster.m_cluster_map cl) id = Some s ->
    fn c = (o, c') ->
    o <> Throw ConnectionLostException ->
    (forall h p, o <> Throw (RedirectedException h p)) ->
    (RedisCluster.cached (RedisCluster.stored_at s) cl = Some c ->
     RedisCluster.wrappedCall T connect config id fn cl
     = (o, RedisCluster.put (RedisCluster.stored_at s) c' cl))
    /\ (forall srv : S,
          RedisCluster.cached (RedisCluster.stored_at s) cl = None ->
          connect (RedisCluster.node s) = Ret srv ->
          c = connected srv ->
          RedisCluster.wrappedCall T connect config id fn cl
          = (o, RedisCluster.mkState
                  ((RedisCluster.stored_at s, c') :: RedisCluster.m_connection_map cl)
                  (RedisCluster.m_cluster_map cl) (RedisCluster.fresh cl)
                  (RedisCluster.m_logged cl) (RedisCluster.slept cl))).
Proof.
  intros S R T connect config id fn cl s c c' o Hfind Hfn Hlost Hmoved.
  split.
  - intros Hcache. unfold RedisCluster.wrappedCall.
    rewrite RouterFacts.wrappedCall_rec_unfold. cbv zeta.
    unfold bind at 1. unfold RedisCluster.findNodeEntryUnguarded at 1. rewrite Hfind.
    unfold bind at 1. unfold RedisCluster.dispatchConnectionUnguarded at 1.
    rewrite Hcache. unfold RedisCluster.on_connection. rewrite Hcache, Hfn.
    destruct o as [r|[]|]; try reflexivity.
    + contradiction.
    + exfalso. eapply Hmoved. reflexivity.
  - intros srv Hcache Hconnect ->. unfold RedisCluster.wrappedCall.
    rewrite RouterFacts.wrappedCall_rec_unfold. cbv zeta.
    unfold bind at 1. unfold RedisCluster.findNodeEntryUnguarded at 1. rewrite Hfind.
    unfold bind at 1. unfold RedisCluster.dispatchConnectionUnguarded at 1.
    rewrite Hcache, Hconnect. unfold RedisCluster.on_connection, RedisCluster.cached.
    cbn [RedisCluster.m_connection_map List.find fst snd].
    rewrite Nat.eqb_refl. cbn [fmap option_fmap option_map snd]. rewrite Hfn.
    unfold RedisCluster.put.
    cbn [RedisCluster.m_connection_map map fst RedisCluster.m_cluster_map RedisCluster.fresh
         RedisCluster.m_logged RedisCluster.slept].
    rewrite Nat.eqb_refl.
    assert (Hmap : map (fun e : nat * Connection S =>
                          if (fst e =? RedisCluster.stored_at s)%nat
                          then (RedisCluster.stored_at s, c') else e)
                       (RedisCluster.m_connection_map cl)
                   = RedisCluster.m_connection_map cl).
    { revert Hcache. unfold RedisCluster.cached.
      induction (RedisCluster.m_connection_map cl) as [|[a x] l IH]; [reflexivity|].
      cbn [List.find fst map]. destruct (a =? RedisCluster.stored_at s)%nat eqn:E.
      - discriminate.
      - intros H. now rewrite IH. }
    rewrite Hmap.
    destruct o as [r|[]|]; try reflexivity.
    + contradiction.
    + exfalso. eapply Hmoved. reflexivity.
Qed.

(** A versioned read of an id that one node of two does not hold: the
    [IOException] comes back at once. *)
Lemma other_outcomes_are_not_retried_witness :
  let cl := @filled Redis.State [(mkClusterRange 0 16383, mkClusterNode "10.0.0.1" 6379)] in
  let after := RedisCluster.wrappedCall Redis.transport two_nodes default_retries sk
                 (RedisConnection.getVersioned Redis.transport sk true true 1) cl in
  fst after = Throw IOException
  /\ RedisCluster.slept (snd after) = []
  /\ RedisCluster.m_logged (snd after) = [].
Proof.
  intros cl.
  pose (srv := Redis.mkState 1000 ∅ None [] false [] two_halves).
  pose (fn := RedisConnection.getVersioned Redis.transport sk true true 1).
  destruct (other_outcomes_are_not_retried Redis.State _ Redis.transport two_nodes
              default_retries sk fn cl
              (RedisCluster.mkSlot (mkClusterRange 0 16383) 0%nat
                                   (mkClusterNode "10.0.0.1" 6379))
              (connected srv) (snd (fn (connected srv))) (fst (fn (connected srv))))
    as [_ H].
  - reflexivity.
  - apply surjective_pairing.
  - vm_compute. discriminate.
  - intros h p. vm_compute. discriminate.
  - cbv zeta. fold fn. rewrite (H srv); [|reflexivity|reflexivity|reflexivity].
    repeat split.
Defined.

Module SleepFacts.
Section WithNetwork.
Import RedisCluster.
Context {S : Type} (T : Transport S) (connect : ClusterNode -> outcome S)
        (config : RedisConfig).

Lemma dispatch_slept (p : Pointer) (cl : State (S := S)) :
  slept (snd (dispatchConnectionUnguarded connect p cl)) = slept cl.
Proof.
  unfold dispatchConnectionUnguarded. destruct p as [[a n]|]; [|reflexivity].
  destruct (cached a cl); [reflexivity|]. destruct (connect n); reflexivity.
Qed.

Lemma on_connection_slept {R : Type} (a : address) (fn : M (Connection S) R)
    (cl : State (S := S)) :
  slept (snd (on_connection a fn cl)) = slept cl.
Proof.
  unfold on_connection. destruct (cached a cl) as [c|]; [|reflexivity].
  destruct (fn c). reflexivity.
Qed.

Lemma body_slept {R : Type} (id : StorageId) (fn : M (Connection S) R)
    (cl : State (S := S)) :
  slept (snd ((node <- findNodeEntryUnguarded id ;;
               conn <- dispatchConnectionUnguarded connect node ;;
               on_connection conn fn) cl))
  = slept cl.
Proof.
  unfold bind at 1. unfold findNodeEntryUnguarded at 1.
  unfold bind.
  pose proof (dispatch_slept
                match find (m_cluster_map cl) id with
                | Some s => Some (stored_at s, node s)
                | None => None
                end cl) as Hd.
  destruct (dispatchConnectionUnguarded connect _ cl) as [[a| |] cl1]; try exact Hd.
  rewrite on_connection_slept. exact Hd.
Qed.

Lemma fold_CacheSetter_slept (rows : list (ClusterRange * ClusterNode)) :
  forall cl : State (S := S), slept (fold_left CacheSetter rows cl) = slept cl.
Proof.
  induction rows as [|row rows IH]; intros cl; [reflexivity|].
  simpl. now rewrite IH.
Qed.

Lemma CacheReseter_slept (entry : Slot) (cl : State (S := S)) :
  slept (snd (CacheReseter T connect entry cl)) = slept cl.
Proof.
  unfold CacheReseter.
  pose proof (dispatch_slept (Some (stored_at entry, node entry)) cl) as Hd.
  destruct (dispatchConnectionUnguarded connect _ cl) as [[a| |] cl1];
    cbn [snd] in Hd; try exact Hd.
  destruct (cached a cl1) as [c|]; [|exact Hd].
  destruct (RedisConnection.iterateSlots T c) as [[rows o] c'].
  destruct o; cbn; rewrite fold_CacheSetter_slept; exact Hd.
Qed.

Lemma any_of_slept (entries : list Slot) :
  forall cl : State (S := S), slept (snd (any_of T connect entries cl)) = slept cl.
Proof.
  induction entries as [|entry entries IH]; intros cl; [reflexivity|].
  cbn [any_of]. unfold bind.
  pose proof (CacheReseter_slept entry cl) as Hc.
  destruct (CacheReseter T connect entry cl) as [[[]| |] cl1]; cbn [snd] in *; try exact Hc.
  rewrite IH. exact Hc.
Qed.

Lemma rebuild_slept (cl : State (S := S)) :
  slept (snd (rebuildRangeMappingUniqueLocked T connect cl)) = slept cl.
Proof.
  unfold rebuildRangeMappingUniqueLocked, resetSlotsCacheUnguarded.
  destruct (copy (m_cluster_map cl) (fresh cl)) as [previous_map a].
  unfold bind.
  pose proof (any_of_slept previous_map (mkState [] [] a (m_logged cl) (slept cl))) as Ha.
  destruct (any_of T connect previous_map _) as [[[]| |] cl1]; cbn in *; exact Ha.
Qed.

(** A wait either is refused and changes nothing, or adds one sleep, and
    then the retry number is within [maxRetries] and below 32. *)
Lemma tryWait_cases (r : Z) (cl : State (S := S)) :
  0 <= r < 2 ^ 31 ->
  (fst (tryWaitWithRetryNumber config r cl) <> Ret true
   /\ snd (tryWaitWithRetryNumber config r cl) = cl)
  \/ (fst (tryWaitWithRetryNumber config r cl) = Ret true
      /\ r <= maxRetries config /\ r < 32
      /\ List.length (slept (snd (tryWaitWithRetryNumber config r cl)))
         = Datatypes.S (List.length (slept cl))).
Proof.
  intros Hr. unfold tryWaitWithRetryNumber, one_shifted.
  assert (Hu : u32 r = r) by (unfold u32; apply Z.mod_small; lia).
  rewrite !Hu.
  destruct (Z.gtb_spec r (maxRetries config)).
  - left. split; [discriminate | reflexivity].
  - destruct (Z.ltb_spec r 32).
    + right. cbn. rewrite length_app. cbn. repeat split; lia.
    + left. split; [discriminate | reflexivity].
Qed.

Lemma wrappedCall_rec_sleeps {R : Type} (id : StorageId) (fn : M (Connection S) R)
    (fuel : nat) :
  forall (r : Z) (cl : State (S := S)),
    0 <= r <= 33 ->
    Z.of_nat (List.length (slept (snd (wrappedCall_rec T connect config fuel id fn r cl))))
    <= Z.of_nat (List.length (slept cl))
       + Z.max 0 (Z.min (maxRetries config) 31 + 1 - r).
Proof.
  induction fuel as [|fuel IH]; intros r cl Hr;
    rewrite RouterFacts.wrappedCall_rec_unfold; cbv zeta;
    pose proof (body_slept id fn cl) as Hb;
    destruct (bind _ _ cl) as [[x|e|] cl1]; cbn [snd] in Hb;
    try (cbn [snd]; rewrite Hb; lia);
    (destruct e; try (cbn [snd]; rewrite Hb; lia));
    unfold bind at 1;
    (destruct (tryWait_cases r cl1 ltac:(lia)) as [[Hno Hsame]|(Hyes & Hmax & H32 & Hlen)];
     [ destruct (tryWaitWithRetryNumber config r cl1) as [[[]| |] cl2]; cbn [fst snd] in *;
       try congruence; subst cl2; cbn; rewrite ?Hb; try lia
     | destruct (tryWaitWithRetryNumber config r cl1) as [[[]| |] cl2]; cbn [fst snd] in *;
       try discriminate;
       unfold bind at 1;
       pose proof (rebuild_slept cl2) as Hreb;
       destruct (rebuildRangeMappingUniqueLocked T connect cl2) as [[[]| |] cl3];
       cbn [snd] in *; try (rewrite Hreb, Hlen, Hb; lia) ]).
  all: try (cbn; rewrite Hreb, Hlen, Hb; lia).
  all: try (specialize (IH (r + 1) cl3 ltac:(lia)); rewrite Hreb, Hlen, Hb in IH; lia).
Qed.

End WithNetwork.
End SleepFacts.

(** X18.  With [maxRetries] from 0 to 31, the values for which every
    shift [1 << retry] that the call computes is defined: however the
    operation, the network and the rebuilds turn out, one call through the
    router sleeps at most [maxRetries + 1] times. *)
Theorem call_sleeps_at_most_maxRetries_plus_one :
  forall (S R : Type) (T : Transport S) (connect : ClusterNode -> outcome S)
         (config : RedisConfig) (id : StorageId) (fn : M (Connection S) R)
         (cl : RedisCluster.State (S := S)),
    0 <= maxRetries config <= 31 ->
    let after := RedisCluster.wrappedCall T connect config id fn cl in
    Z.of_nat (List.length (RedisCluster.slept (snd after)))
    <= Z.of_nat (List.length (RedisCluster.slept cl)) + (maxRetries config + 1).
Proof.
  intros S R T connect config id fn cl Hm after. subst after.
  unfold RedisCluster.wrappedCall.
  pose proof (SleepFacts.wrappedCall_rec_sleeps T connect config id fn 33 0 cl ltac:(lia)).
  lia.
Qed.

Lemma call_sleeps_at_most_maxRetries_plus_one_witness :
  let cl := @filled Redis.State [(mkClusterRange 0 16383, mkClusterNode "10.0.0.1" 6379)] in
  let after := RedisCluster.wrappedCall Redis.transport unreachable default_retries sk
                 (RedisConnection.remove Redis.transport sk) cl in
  Z.of_nat (List.length (RedisCluster.slept (snd after)))
  <= Z.of_nat (List.length (RedisCluster.slept cl)) + (maxRetries default_retries + 1).
Proof.
  intros cl.
  apply (call_sleeps_at_most_maxRetries_plus_one _ _ Redis.transport unreachable
           default_retries sk (RedisConnection.remove Redis.transport sk) cl).
  split; vm_compute; discriminate.
Defined.

(** ** The topology reply (redis-connection.h) *)

Module SlotsFacts.
Section WithTransport.
Context {S : Type} (T : Transport S).

Lemma make_valid (a b : Z) (r : ClusterRange) :
  0 <= a -> ClusterRange.make a b = Ret r ->
  r = mkClusterRange a b /\ 0 <= a <= b /\ b < ClusterRange.HashSlots.
Proof.
  intros Ha. unfold ClusterRange.make.
  destruct (Z.ltb_spec b a); [discriminate|].
  destruct (Z.leb_spec ClusterRange.HashSlots b); [discriminate|].
  intros Hret. injection Hret as <-. unfold ClusterRange.HashSlots in *. repeat split; lia.
Qed.

Lemma u32_range (x : Z) : 0 <= u32 x < 2 ^ 32.
Proof. unfold u32. apply Z.mod_pos_bound. lia. Qed.

Lemma u16_range (x : Z) : 0 <= u16 x < 65536.
Proof. unfold u16. apply Z.mod_pos_bound. lia. Qed.

(** Whatever the row, what [slot_row] returns is a valid range and a port
    of sixteen bits. *)
Lemma slot_row_valid (rangeEntry : redisReply) (c c' : Connection S)
    (row : ClusterRange * ClusterNode) :
  slot_row rangeEntry c = (Ret row, c') -> valid_row row /\ c' = c.
Proof.
  unfold slot_row, ensureType.
  destruct (REDIS_REPLY_ARRAY =? Reply.type rangeEntry); [|discriminate].
  unfold bind at 1. cbn [ret].
  destruct (Reply.elements rangeEntry <? 3); [discriminate|].
  unfold bind at 1. cbn [ret].
  unfold bind at 1. unfold element at 1.
  destruct (Reply.element rangeEntry 0) as [e0|]; [|discriminate]. cbn [ret].
  unfold bind at 1. unfold element at 1.
  destruct (Reply.element rangeEntry 1) as [e1|]; [|discriminate]. cbn [ret].
  unfold bind at 1.
  destruct (ClusterRange.make _ _) as [r| |] eqn:Hmake; try discriminate. cbn [ret].
  apply make_valid in Hmake as (-> & H1 & H2); [|apply u32_range].
  unfold bind at 1. unfold element at 1.
  destruct (Reply.element rangeEntry 2) as [nodeReply|]; [|discriminate]. cbn [ret].
  unfold bind at 1.
  destruct (REDIS_REPLY_ARRAY =? Reply.type nodeReply); [|discriminate]. cbn [ret].
  unfold bind at 1.
  destruct (Reply.elements rangeEntry <? 2); [discriminate|]. cbn [ret].
  unfold bind at 1. unfold element at 1.
  destruct (Reply.element nodeReply 0) as [n0|]; [|discriminate]. cbn [ret].
  unfold bind at 1. unfold element at 1.
  destruct (Reply.element nodeReply 1) as [n1|]; [|discriminate]. cbn [ret].
  intros Hret. injection Hret as <- <-.
  split; [|reflexivity]. unfold valid_row. cbn [fst snd m_start m_end m_port].
  pose proof (u16_range (Reply.integer n1)). lia.
Qed.

Lemma slot_rows_valid (rows : list redisReply) :
  forall c : Connection S,
    Forall valid_row (fst (fst (slot_rows rows c))).
Proof.
  induction rows as [|row rows IH]; intros c; cbn [slot_rows].
  - constructor.
  - destruct (slot_row row c) as [[rn| |] c'] eqn:E; try constructor.
    + specialize (IH c'). destruct (slot_rows rows c') as [[delivered o] c''].
      cbn [fst] in *. constructor; [|exact IH].
      now apply slot_row_valid in E as [E _].
Qed.

Lemma slot_row_plausible (row : ReportedRow) (c : Connection S) :
  plausible row = true ->
  slot_row (slot_entry row) c = (Ret (reported row), c).
Proof.
  unfold plausible. intros H.
  repeat (apply andb_prop in H as [H ?]).
  repeat match goal with
         | H : (_ <=? _) = true |- _ => apply Z.leb_le in H
         | H : (_ <? _) = true |- _ => apply Z.ltb_lt in H
         end.
  unfold slot_row, slot_entry, reported, ensureType.
  cbn [Reply.type Reply.elements List.length Reply.element]. 
  change (REDIS_REPLY_ARRAY =? REDIS_REPLY_ARRAY) with true.
  unfold bind at 1. cbn [ret].
  destruct (Z.ltb_spec (Z.of_nat (Datatypes.S (Datatypes.S (Datatypes.S
              (List.length (replicas row)))))) 3); [lia|].
  unfold bind at 1. cbn [ret].
  unfold bind at 1. unfold element at 1. cbn [Reply.element nth_error ret].
  unfold bind at 1. unfold element at 1. cbn [Reply.element nth_error ret].
  cbn [Reply.integer].
  assert (Hconv : forall x, 0 <= x < 16384 -> u32 (to_int x) = x).
  { intros x Hx. rewrite to_int_small by (unfold INT_MIN, INT_MAX; lia).
    unfold u32. apply Z.mod_small. lia. }
  rewrite !Hconv by lia.
  unfold ClusterRange.make, ClusterRange.HashSlots.
  destruct (Z.ltb_spec (last_slot row) (first_slot row)); [lia|].
  destruct (Z.leb_spec 16384 (last_slot row)); [lia|].
  unfold bind at 1. cbn [ret].
  unfold bind at 1. unfold element at 1. cbn [Reply.element nth_error ret].
  unfold bind at 1. cbn [Reply.type].
  change (REDIS_REPLY_ARRAY =? REDIS_REPLY_ARRAY) with true. cbn [ret].
  unfold bind at 1.
  destruct (Z.ltb_spec (Z.of_nat (Datatypes.S (Datatypes.S (Datatypes.S
              (List.length (replicas row)))))) 2); [lia|]. cbn [ret].
  unfold bind at 1. unfold element at 1. cbn [Reply.element nth_error ret].
  unfold bind at 1. unfold element at 1. cbn [Reply.element nth_error ret].
  cbn [Reply.str Reply.integer].
  unfold u16. rewrite Z.mod_small by lia. reflexivity.
Qed.

Lemma slot_rows_plausible (rows : list ReportedRow) (c : Connection S) :
  forallb plausible rows = true ->
  slot_rows (map slot_entry rows) c = (map reported rows, Ret tt, c).
Proof.
  induction rows as [|row rows IH]; intros H; [reflexivity|].
  cbn [forallb] in H. apply andb_prop in H as [Hrow Hrows].
  cbn [map slot_rows]. rewrite (slot_row_plausible row c Hrow), (IH Hrows). reflexivity.
Qed.

Lemma iterateSlots_plausible (c : Connection S) (rows : list ReportedRow) (s' : S) :
  forallb plausible rows = true ->
  unread c = [] ->
  execute T (server c) CLUSTER_SLOTS = (s', Some (REPLY_ARRAY (map slot_entry rows))) ->
  iterateSlots T c
  = (map reported rows, Ret tt,
     mkConnection s' [] (written c ++ [CLUSTER_SLOTS]) (logged c)).
Proof.
  intros Hrows Hunread Hexec.
  unfold iterateSlots, redisCommand.
  erewrite bind_append by exact Hexec.
  unfold redisGetReply. rewrite Hunread. cbn [unread app server written logged].
  unfold ensureType. cbn [Reply.type].
  change (REDIS_REPLY_ARRAY =? REDIS_REPLY_ARRAY) with true. cbn [ret].
  now apply slot_rows_plausible.
Qed.

End WithTransport.
End SlotsFacts.

(** X19.  Whatever a node answers to [CLUSTER SLOTS], every pair that
    [iterateSlots] hands to its callback is a range with
    [0 <= start <= end < 16384] and a node whose port has sixteen bits: the
    narrowing casts of the row never let anything else through. *)
Theorem iterateSlots_delivers_valid_rows :
  forall (S : Type) (T : Transport S) (c : Connection S),
    Forall valid_row (fst (fst (RedisConnection.iterateSlots T c))).
Proof.
  intros S T c. unfold iterateSlots.
  destruct (redisCommand T CLUSTER_SLOTS c) as [[[reply|]| |] c']; try constructor.
  destruct (ensureType reply REDIS_REPLY_ARRAY c') as [[[]| |] c'']; try constructor.
  destruct reply; try constructor.
  apply SlotsFacts.slot_rows_valid.
Qed.

(** X20.  Round trip of the topology: from a reply whose rows each hold
    the two bounds of a range, the master's address and port, any further
    fields and any replicas, [iterateSlots] hands on exactly the range and
    the master of each row, in the order of the reply, and ends normally
    without a log entry. *)
Theorem iterateSlots_reads_back_rows :
  forall (S : Type) (T : Transport S) (c : Connection S) (rows : list ReportedRow) (s' : S),
    forallb plausible rows = true ->
    unread c = [] ->
    execute T (server c) CLUSTER_SLOTS = (s', Some (REPLY_ARRAY (map slot_entry rows))) ->
    RedisConnection.iterateSlots T c
    = (map reported rows, Ret tt,
       mkConnection s' [] (written c ++ [CLUSTER_SLOTS]) (logged c)).
Proof.
  intros S T c rows s' Hrows Hunread Hexec.
  now apply SlotsFacts.iterateSlots_plausible.
Qed.

Lemma iterateSlots_reads_back_rows_witness :
  let rows := [mkReportedRow 0 8191 "10.0.0.1" 6379 [REPLY_STRING "id-1"]
                 [REPLY_ARRAY [REPLY_STRING "10.0.0.3"; REPLY_INTEGER 6379]];
               mkReportedRow 8192 16383 "10.0.0.2" 6380 [] []] in
  let srv := Redis.mkState 1000 ∅ None [] false [] (REPLY_ARRAY (map slot_entry rows)) in
  RedisConnection.iterateSlots Redis.transport (connected srv)
  = ([(mkClusterRange 0 8191, mkClusterNode "10.0.0.1" 6379);
      (mkClusterRange 8192 16383, mkClusterNode "10.0.0.2" 6380)],
     Ret tt, mkConnection srv [] [CLUSTER_SLOTS] []).
Proof.
  intros rows srv.
  apply (iterateSlots_reads_back_rows _ Redis.transport (connected srv) rows srv);
    reflexivity.
Defined.

Module StartupFacts.
Section WithNetwork.
Import RedisCluster.
Context {S : Type} (T : Transport S) (connect : ClusterNode -> outcome S).

(** Seeds that cannot be reached are skipped, one log entry each. *)
Lemma explore_skips (down rest : list ClusterNode) :
  (forall n, In n down -> exists e, connect n = Throw e) ->
  forall cl : State (S := S),
    explore T connect (down ++ rest) cl
    = explore T connect rest
        (mkState (m_connection_map cl) (m_cluster_map cl) (fresh cl)
                 (m_logged cl ++ repeat seed_skipped (List.length down)) (slept cl)).
Proof.
  induction down as [|n down IH]; intros Hdown cl.
  - cbn. rewrite app_nil_r. destruct cl; reflexivity.
  - cbn [app explore]. destruct (Hdown n (or_introl eq_refl)) as [e ->].
    unfold bind, warn. cbn.
    rewrite IH by (intros n' Hn'; apply Hdown; now right).
    cbn. rewrite <- app_assoc. reflexivity.
Qed.

End WithNetwork.
End StartupFacts.

(** X21.  Start-up, when the seeds that cannot be connected come first and
    the first seed that connects answers [CLUSTER SLOTS] with well-formed
    rows (each with two bounds [0 <= start <= end < 16384], the master's
    address and a port of sixteen bits): the seeds before it are skipped
    with one error logged each, the rows of its reply make the slot map,
    the seeds after it are not asked, and the connection used is not
    kept. *)
Theorem startup_takes_first_answering_seed :
  forall (S : Type) (T : Transport S) (connect : ClusterNode -> outcome S)
         (down rest : list ClusterNode) (seed : ClusterNode) (retries base cap : Z)
         (rows : list ReportedRow) (srv s' : S),
    (forall n, In n down -> exists e, connect n = Throw e) ->
    connect seed = Ret srv ->
    execute T srv CLUSTER_SLOTS = (s', Some (REPLY_ARRAY (map slot_entry rows))) ->
    forallb plausible rows = true ->
    let config := mkRedisConfig (down ++ seed :: rest) retries base cap in
    let after := RedisCluster.RedisCluster T connect config in
    fst after = Ret tt
    /\ RedisCluster.m_cluster_map (snd after)
       = RedisCluster.m_cluster_map (@filled S (map reported rows))
    /\ RedisCluster.m_connection_map (snd after) = []
    /\ RedisCluster.m_logged (snd after) = repeat seed_skipped (List.length down).
Proof.
  intros S T connect down rest seed retries base cap rows srv s' Hdown Hseed Hexec Hrows
         config after.
  subst after config. unfold RedisCluster.RedisCluster. cbn [initialNodes].
  rewrite (StartupFacts.explore_skips T connect down (seed :: rest) Hdown).
  cbn [RedisCluster.explore]. rewrite Hseed.
  rewrite (SlotsFacts.iterateSlots_plausible T (connected srv) rows s' Hrows eq_refl Hexec).
  cbn [fst snd RedisCluster.m_connection_map RedisCluster.m_cluster_map RedisCluster.fresh
       RedisCluster.m_logged RedisCluster.slept app].
  split; [reflexivity|].
  unfold filled, blank.
  generalize (map reported rows). intros l.
  assert (Hgen : forall (l : list (ClusterRange * ClusterNode)) m a lg lg' sl,
             RedisCluster.m_cluster_map
               (fold_left RedisCluster.CacheSetter l (RedisCluster.mkState (S := S) [] m a lg sl))
             = RedisCluster.m_cluster_map
                 (fold_left RedisCluster.CacheSetter l (RedisCluster.mkState (S := S) [] m a lg' sl))
             /\ RedisCluster.m_connection_map
                  (fold_left RedisCluster.CacheSetter l (RedisCluster.mkState (S := S) [] m a lg sl))
                = []
             /\ RedisCluster.m_logged
                  (fold_left RedisCluster.CacheSetter l (RedisCluster.mkState (S := S) [] m a lg sl))
                = lg).
  { clear. induction l as [|row l IH]; intros m a lg lg' sl; [repeat split|].
    cbn [fold_left]. unfold RedisCluster.CacheSetter at 2 4 6 8.
    cbn [RedisCluster.m_connection_map RedisCluster.m_cluster_map RedisCluster.fresh
         RedisCluster.m_logged RedisCluster.slept].
    apply IH. }
  destruct (Hgen l [] 0%nat (repeat seed_skipped (List.length down)) [] [])
    as (H1 & H2 & H3).
  cbn [app] in *. rewrite H1, H2, H3. repeat split.
Qed.

(** The first seed refuses the connection, the second answers with the two
    halves of the slots. *)
Lemma startup_takes_first_answering_seed_witness :
  let after := RedisCluster.RedisCluster Redis.transport two_nodes second_seed_answers in
  fst after = Ret tt
  /\ RedisCluster.m_cluster_map (snd after)
     = [RedisCluster.mkSlot (mkClusterRange 0 8191) 0%nat (mkClusterNode "10.0.0.1" 6379);
        RedisCluster.mkSlot (mkClusterRange 8192 16383) 1%nat (mkClusterNode "10.0.0.2" 6379)]
  /\ RedisCluster.m_connection_map (snd after) = []
  /\ RedisCluster.m_logged (snd after) = [seed_skipped].
Proof.
  apply (startup_takes_first_answering_seed Redis.State Redis.transport two_nodes
           [mkClusterNode "10.0.0.9" 6379] [] (mkClusterNode "10.0.0.2" 6379) 5 500 0
           [mkReportedRow 0 8191 "10.0.0.1" 6379 [] [];
            mkReportedRow 8192 16383 "10.0.0.2" 6379 [] []]
           (Redis.mkState 1000 ∅ None [] false [] two_halves)
           (Redis.mkState 1000 ∅ None [] false [] two_halves)).
  - intros n [<-|[]]. exists ConnectionLostException. reflexivity.
  - reflexivity.
  - reflexivity.
  - reflexivity.
Defined.

(** ** The context scan (redis-connection.cpp, redis-store.cpp) *)

Module ScanFacts.
Import ContextScan.

Local Open Scope list_scope.

#[warnings="-notation-for-abbreviation"]
Local Notation ScriptState := (list (option redisReply)).

Section Scripted.
(** A callback that sends [cmds k] for the key [k] and drops the
    [per_key] replies. *)
Context (callback : RawCallbackType (S := ScriptState))
        (per_key : nat) (cmds : string -> list Command).
Context (Hcallback :
  forall (k : string) (answers s0 : ScriptState) (w : list Command)
         (lg : list (Level * string)),
    List.length answers = per_key ->
    callback k (mkConnection (answers ++ s0) [] w lg)
    = (Ret tt, mkConnection s0 [] (w ++ cmds k) lg)).

Lemma scan_elements_scripted (ks : list string) :
  forall (answers s0 : ScriptState) (w : list Command) (lg : list (Level * string)),
    List.length answers = (per_key * List.length ks)%nat ->
    scan_elements callback (map REPLY_STRING ks) (mkConnection (answers ++ s0) [] w lg)
    = (Ret tt, mkConnection s0 [] (w ++ flat_map cmds ks) lg).
Proof.
  induction ks as [|k ks IH]; intros answers s0 w lg Hlen.
  - cbn in *. rewrite Nat.mul_0_r in Hlen.
    destruct answers; [|discriminate]. now rewrite app_nil_r.
  - cbn [map scan_elements Reply.type].
    change (negb (REDIS_REPLY_STRING =? REDIS_REPLY_STRING)) with false. cbv iota.
    cbn [Reply.str].
    rewrite <- (firstn_skipn per_key answers), <- app_assoc.
    unfold bind at 1. rewrite Hcallback.
    2:{ rewrite length_firstn. cbn in Hlen. lia. }
    rewrite IH.
    2:{ rewrite length_skipn. cbn in Hlen. lia. }
    cbn [flat_map]. now rewrite app_assoc.
Qed.

Lemma scan_round (fuel : nat) (context : string) (b : Batch) (state count : Z)
    (s0 : ScriptState) (w : list Command) (lg : list (Level * string)) :
  List.length (answers b) = (per_key * List.length (keys b))%nat ->
  scan_loop Script.transport scripted_scan (Datatypes.S fuel) context callback state count
    (mkConnection (batch_script b ++ s0) [] w lg)
  = match StdString.stoi (cursor b) with
    | StdString.Converted v =>
        if v =? 0
        then (Ret (Some (StdString.size_t (count + Z.of_nat (List.length (keys b))))),
              mkConnection s0 [] (w ++ flat_map cmds (keys b)) lg)
        else scan_loop Script.transport scripted_scan fuel context callback v
               (StdString.size_t (count + Z.of_nat (List.length (keys b))))
               (mkConnection s0 [] (w ++ flat_map cmds (keys b)) lg)
    | _ => (Ret (Some (StdString.size_t (count + Z.of_nat (List.length (keys b))))),
            mkConnection s0 [] (w ++ flat_map cmds (keys b)) lg)
    end.
Proof.
  intros Hlen. cbn [scan_loop]. unfold batch_script, batch_reply.
  cbn -[scan_loop scan_elements StdString.stoi StdString.size_t Z.add Z.of_nat].
  change (Z.of_nat 2) with 2.
  cbn -[scan_loop scan_elements StdString.stoi StdString.size_t Z.add Z.of_nat].
  rewrite length_map.
  unfold bind at 1. rewrite scan_elements_scripted by exact Hlen.
  destruct (StdString.stoi (cursor b)) as [v| |]; try reflexivity.
  destruct (v =? 0); reflexivity.
Qed.

(** Batch after batch until the first cursor that does not send the loop
    round again. *)
Lemma scan_loop_scripted (context : string) (batches : list Batch) :
  forall (fuel : nat) (last : Batch) (state count : Z) (s0 : ScriptState)
         (w : list Command) (lg : list (Level * string)),
    (List.length batches < fuel)%nat ->
    Forall (fun b => goes_on b = true
                     /\ List.length (answers b) = (per_key * List.length (keys b))%nat)
           batches ->
    goes_on last = false ->
    List.length (answers last) = (per_key * List.length (keys last))%nat ->
    scan_loop Script.transport scripted_scan fuel context callback state count
      (mkConnection (scripted (batches ++ [last]) ++ s0) [] w lg)
    = (Ret (Some (StdString.size_t
                    (count + Z.of_nat (List.length (all_keys (batches ++ [last])))))),
       mkConnection s0 [] (w ++ flat_map cmds (all_keys (batches ++ [last]))) lg).
Proof.
  induction batches as [|b batches IH];
    intros fuel last state count s0 w lg Hfuel Hall Hlast Hlen.
  - destruct fuel as [|fuel]; [cbn in Hfuel; lia|].
    cbn [app scripted flat_map all_keys]. rewrite !app_nil_r.
    rewrite scan_round by exact Hlen.
    unfold goes_on in Hlast.
    destruct (StdString.stoi (cursor last)) as [v| |]; try reflexivity.
    destruct (v =? 0); [reflexivity | discriminate].
  - destruct fuel as [|fuel]; [cbn in Hfuel; lia|].
    inversion Hall as [|? ? [Hgo Hb] Hrest]; subst.
    cbn [app scripted flat_map all_keys]. rewrite <- app_assoc.
    rewrite scan_round by exact Hb.
    unfold goes_on in Hgo.
    destruct (StdString.stoi (cursor b)) as [v| |]; try discriminate.
    destruct (v =? 0); [discriminate|].
    fold (scripted (batches ++ [last])).
    rewrite IH; try assumption; [|cbn in Hfuel; lia].
    fold (all_keys (batches ++ [last])).
    rewrite length_app, flat_map_app, <- app_assoc.
    f_equal. f_equal. f_equal.
    unfold StdString.size_t. rewrite Nat2Z.inj_add.
    rewrite Zplus_mod_idemp_l. f_equal. lia.
Qed.

End Scripted.

Lemma Delete_scripted (k : string) (answers s0 : ScriptState) (w : list Command)
    (lg : list (Level * string)) :
  List.length answers = 1%nat ->
  Delete Script.transport k (mkConnection (answers ++ s0) [] w lg)
  = (Ret tt, mkConnection s0 [] (w ++ unlink_of k) lg).
Proof.
  intros Hlen. destruct answers as [|a [|? ?]]; try discriminate. reflexivity.
Qed.

Lemma SetExpirationTo_scripted (t : Z) (k : string) (answers s0 : ScriptState)
    (w : list Command) (lg : list (Level * string)) :
  List.length answers = 2%nat ->
  SetExpirationTo Script.transport t k (mkConnection (answers ++ s0) [] w lg)
  = (Ret tt, mkConnection s0 [] (w ++ expire_of t k) lg).
Proof.
  intros Hlen. destruct answers as [|a [|b [|? ?]]]; try discriminate.
  cbn. now rewrite <- app_assoc.
Qed.

End ScanFacts.

(** X22.  [deleteContext] over one connection: for every key that the
    scan returns, round after round, one [UNLINK] of the key and of
    [version.of:] followed by the key is sent, in the order of the replies,
    and its reply is dropped whatever it is, a missing reply included.  The
    scan ends with the first cursor that is 0, is not a number or does not
    fit an [int]; what the server would have returned after that is never
    asked for. *)
Theorem deleteContext_unlinks_each_scanned_key :
  forall (prefix context : string) (batches : list Batch) (last : Batch)
         (rest : list (option redisReply)) (fuel : nat),
    (List.length batches < fuel)%nat ->
    Forall (fun b => goes_on b = true
                     /\ List.length (answers b) = (1 * List.length (keys b))%nat) batches ->
    goes_on last = false ->
    List.length (answers last) = (1 * List.length (keys last))%nat ->
    RedisStorageService.deleteContext Script.transport (scripted_service prefix) fuel context
      (connected (scripted (batches ++ [last]) ++ rest)%list)
    = (Ret (Some tt),
       mkConnection rest [] (flat_map unlink_of (all_keys (batches ++ [last]))) []).
Proof.
  intros prefix context batches last rest fuel Hfuel Hall Hlast Hlen.
  unfold RedisStorageService.deleteContext, RedisClass.scanContext, scripted_service,
    single_instance.
  cbn [RedisClass.scanContextTypeless]. unfold ContextScan.scanContextTypeless, connected.
  unfold bind.
  rewrite (ScanFacts.scan_loop_scripted (ContextScan.Delete Script.transport) 1 unlink_of
             (ScanFacts.Delete_scripted) context batches fuel last 0 0 rest [] []
             Hfuel Hall Hlast Hlen).
  reflexivity.
Qed.

(** A second round whose cursor is beyond the range of [int] ends the
    scan: the third round is never asked for. *)
Lemma deleteContext_unlinks_each_scanned_key_witness :
  let third := Some (batch_reply (mkBatch "0" ["a:4"] [])) in
  RedisStorageService.deleteContext Script.transport (scripted_service "") 10 "a"
    (connected
       [Some (batch_reply (mkBatch "17" ["a:1"; "a:2"] []));
        None; Some (REPLY_INTEGER 2);
        Some (batch_reply (mkBatch "4294967296" ["a:3"] []));
        Some (REPLY_ERROR "ERR");
        third])
  = (Ret (Some tt),
     mkConnection [third] []
       [UNLINK "a:1" "version.of:a:1"; UNLINK "a:2" "version.of:a:2";
        UNLINK "a:3" "version.of:a:3"] []).
Proof.
  intros third.
  apply (deleteContext_unlinks_each_scanned_key "" "a"
           [mkBatch "17" ["a:1"; "a:2"] [None; Some (REPLY_INTEGER 2)]]
           (mkBatch "4294967296" ["a:3"] [Some (REPLY_ERROR "ERR")])
           [third] 10).
  - cbn. lia.
  - repeat constructor.
  - reflexivity.
  - reflexivity.
Defined.

(** X23.  [updateContext] over one connection: for every key that the scan
    returns, two [EXPIREAT] with the new expiration are sent, for the key
    and for [version.of:] followed by the key, in the order of the replies
    and with their replies dropped; the scan ends as that of
    [deleteContext]. *)
Theorem updateContext_expires_each_scanned_key :
  forall (prefix context : string) (expiration : Z) (batches : list Batch) (last : Batch)
         (rest : list (option redisReply)) (fuel : nat),
    (List.length batches < fuel)%nat ->
    Forall (fun b => goes_on b = true
                     /\ List.length (answers b) = (2 * List.length (keys b))%nat) batches ->
    goes_on last = false ->
    List.length (answers last) = (2 * List.length (keys last))%nat ->
    RedisStorageService.updateContext Script.transport (scripted_service prefix) fuel context
      expiration (connected (scripted (batches ++ [last]) ++ rest)%list)
    = (Ret (Some tt),
       mkConnection rest []
         (flat_map (expire_of expiration) (all_keys (batches ++ [last]))) []).
Proof.
  intros prefix context expiration batches last rest fuel Hfuel Hall Hlast Hlen.
  unfold RedisStorageService.updateContext, RedisClass.scanContext, scripted_service,
    single_instance.
  cbn [RedisClass.scanContextTypeless]. unfold ContextScan.scanContextTypeless, connected.
  unfold bind.
  rewrite (ScanFacts.scan_loop_scripted (ContextScan.SetExpirationTo Script.transport expiration)
             2 (expire_of expiration)
             (ScanFacts.SetExpirationTo_scripted expiration) context batches fuel last
             0 0 rest [] [] Hfuel Hall Hlast Hlen).
  reflexivity.
Qed.

Lemma updateContext_expires_each_scanned_key_witness :
  RedisStorageService.updateContext Script.transport (scripted_service "") 10 "a" 2000
    (connected
       [Some (batch_reply (mkBatch "17" ["a:1"] []));
        Some (REPLY_INTEGER 1); Some (REPLY_INTEGER 0);
        Some (batch_reply (mkBatch "0" ["a:2"] []));
        Some (REPLY_INTEGER 1); Some (REPLY_INTEGER 1)])
  = (Ret (Some tt),
     mkConnection [] []
       [EXPIREAT "a:1" 2000; EXPIREAT "version.of:a:1" 2000;
        EXPIREAT "a:2" 2000; EXPIREAT "version.of:a:2" 2000] []).
Proof.
  apply (updateContext_expires_each_scanned_key "" "a" 2000
           [mkBatch "17" ["a:1"] [Some (REPLY_INTEGER 1); Some (REPLY_INTEGER 0)]]
           (mkBatch "0" ["a:2"] [Some (REPLY_INTEGER 1); Some (REPLY_INTEGER 1)])
           [] 10).
  - cbn. lia.
  - repeat constructor.
  - reflexivity.
  - reflexivity.
Defined.

Module PatternFacts.
Import RedisScan.

Lemma stringmatch_empty (s : string) :
  stringmatch "" s = true -> s = "".
Proof. destruct s; [reflexivity | discriminate]. Qed.





End PatternFacts.

Module ServerScanFacts.
Import ContextScan.

Local Open Scope list_scope.










End ServerScanFacts.



(** ** The storage service (redis-store.cpp, redis.h) *)

Module ServiceFacts.

Lemma size_rendered (id : StorageId) :
  StdString.size (SPREDIS_SID id)
  = StdString.size (context id) + StdString.size (prefix id) + StdString.size (key id) + 3.
Proof.
  unfold SPREDIS_SID. rewrite !StdStringFacts.size_append.
  unfold StdString.size. simpl String.length. lia.
Qed.

Lemma size_version_of (id : StorageId) :
  StdString.size (version_of id) = StdString.size (SPREDIS_SID id) + 11.
Proof.
  unfold version_of. rewrite StdStringFacts.size_append.
  unfold StdString.size. simpl String.length. lia.
Qed.

End ServiceFacts.

(** X25.  The sizes the service announces leave room for the two braces
    and the colon of the data key: with a prefix that is not longer than
    the key size allows, a context and a key within the announced sizes
    give a data key of at most 512 000 000 bytes, the limit of Redis.  The
    version key is eleven bytes longer than the data key, for which no room
    is left. *)
Theorem announced_sizes_fit_the_data_key :
  forall (S St : Type) (m_connection : RedisClass.RedisOperations S St) (ctx k : string),
    let caps := RedisStorageService.getCapabilities m_connection in
    let id := RedisClass.make_id m_connection ctx k in
    StdString.size (RedisClass.getPrefix m_connection) <= RedisStorageService.redisShibMaxKeySize ->
    StdString.size ctx <= RedisStorageService.contextSize caps ->
    StdString.size k <= RedisStorageService.keySize caps ->
    StdString.size (SPREDIS_SID id) <= RedisStorageService.redisMaxKeySize
    /\ StdString.size (version_of id) = StdString.size (SPREDIS_SID id) + 11.
Proof.
  intros S St m_connection ctx k caps id Hprefix Hcontext Hkey.
  split; [|apply ServiceFacts.size_version_of].
  rewrite ServiceFacts.size_rendered. subst id caps.
  unfold RedisClass.make_id, RedisStorageService.getCapabilities in *.
  cbn [context prefix key
       RedisStorageService.contextSize RedisStorageService.keySize] in *.
  unfold RedisClass.getPrefix in *.
  pose proof (StdStringFacts.size_nonneg (RedisClass.m_prefix m_connection)) as Hp.
  change RedisStorageService.redisShibMaxKeySize with 255999998 in *.
  change RedisStorageService.redisShibMaxContextSize with 255999999 in *.
  change RedisStorageService.redisMaxKeySize with 512000000.
  unfold StdString.size_t, u32 in Hkey.
  rewrite (Z.mod_small (255999998 - _) (2 ^ 64)) in Hkey by lia.
  rewrite Z.mod_small in Hkey by lia.
  lia.
Qed.

Lemma announced_sizes_fit_the_data_key_witness :
  StdString.size (SPREDIS_SID (RedisClass.make_id (served "sp:") "session" "_abc"))
  <= RedisStorageService.redisMaxKeySize
  /\ StdString.size (version_of (RedisClass.make_id (served "sp:") "session" "_abc"))
     = StdString.size (SPREDIS_SID (RedisClass.make_id (served "sp:") "session" "_abc")) + 11.
Proof.
  apply (announced_sizes_fit_the_data_key _ _ (served "sp:") "session" "_abc");
    vm_compute; discriminate.
Defined.

(** X26.  Round trip through the service over one connection at rest
    (no reply pending, no transaction open, no key watched, no other client
    at work), to a server that holds neither key of the id, with an
    expiration that the server accepts and that lies in the future:
    [createString] answers true, and a [readString] after it returns
    version 1 and the expiration given; it hands out the value as it was
    stored when the version asked for is at most 1, by [forceGet] when it
    is not positive and by [getVersioned] when it is 1, and no value when a
    newer version is asked for. *)
Theorem createString_then_readString :
  forall (c : Connection Redis.State) (prefix ctx k value : string)
         (expiration version : Z),
    let now := Redis.now (server c) in
    let σ := Redis.store (server c) in
    let service := served prefix in
    let id := RedisClass.make_id service ctx k in
    at_rest c = true ->
    Redis.valid_expire expiration = true -> now < expiration ->
    σ !! SPREDIS_SID id = None -> σ !! version_of id = None ->
    fst ((created_ <- RedisStorageService.createString service ctx k value expiration ;;
          read <- RedisStorageService.readString service ctx k true true version ;;
          ret (created_, read)) c)
    = Ret (true,
           mkRead 1 (if version <=? 1 then Some value else None) (Some expiration)).
Proof.
  intros c prefix ctx k value expiration version. rested c now σ sl w lg.
  set (id := RedisClass.make_id (served prefix) ctx k).
  intros Hvalid Hfuture Hd Hv.
  unfold RedisStorageService.createString, RedisStorageService.readString.
  fold id. unfold served, single_instance.
  cbn [RedisClass.set RedisClass.getVersioned RedisClass.forceGet].
  unfold bind at 1.
  rewrite (set_neither now σ sl w lg id value expiration Hvalid Hfuture Hd Hv).
  unfold bind at 1.
  set (σ1 := <[version_of id := created "1" expiration]>
               (<[SPREDIS_SID id := created value expiration]> σ)).
  assert (H1 : σ1 !! version_of id = Some (created "1" expiration))
    by apply lookup_insert_eq.
  assert (H2 : σ1 !! SPREDIS_SID id = Some (created value expiration)).
  { unfold σ1. rewrite lookup_insert_ne by keys_apart. apply lookup_insert_eq. }
  destruct (Z.gtb_spec version 0) as [Hpos|Hneg].
  - destruct (getVersioned_present now σ1 id (created "1" expiration)
                (created value expiration) 1 H1 H2 eq_refl
                ltac:(vm_compute; intuition discriminate)
                true true version sl (w ++ set_commands id value expiration)%list lg)
      as (Hr & _).
    destruct (getVersioned Redis.transport id true true version _) as [o c'].
    cbn [fst] in Hr. subst o. cbn. reflexivity.
  - pose proof (forceGet_both now σ1 id (created "1" expiration)
                  (created value expiration) 1 sl
                  (w ++ set_commands id value expiration)%list lg
                  H1 H2 eq_refl) as Hr.
    destruct (forceGet Redis.transport id true true _) as [o c'].
    cbn [fst] in Hr. rewrite Hr.
    cbn. destruct (Z.leb_spec version 1); [reflexivity | lia].
Qed.

Lemma createString_then_readString_witness :
  fst ((created_ <- RedisStorageService.createString (served "sp:") "session" "_abc"
                      "hello" 2000 ;;
        read <- RedisStorageService.readString (served "sp:") "session" "_abc"
                  true true 0 ;;
        ret (created_, read)) (connected (Redis.quiet 1000 ∅)))
  = Ret (true, mkRead 1 (Some "hello") (Some 2000)).
Proof.
  apply (createString_then_readString (connected (Redis.quiet 1000 ∅)) "sp:" "session"
           "_abc" "hello" 2000 0);
    reflexivity.
Defined.

(** X27.  Create, update, read through the service over one connection at
    rest (no reply pending, no transaction open, no key watched, no other
    client at work), to a server that holds neither key of the id; the
    expiration of the creation is accepted by the server and lies in the
    future, that of the update is 0 or is accepted and lies in the future.
    After [createString], an [updateString] with version 0 replaces the
    value without a test, by [forceUpdate], and answers the new version 2;
    the [readString] with version 0 that follows returns version 2 and the
    new value.  The expiration is the one of the update when it is not 0,
    and stays the one of the creation when it is 0. *)
Theorem createString_updateString_readString :
  forall (c : Connection Redis.State) (prefix ctx k value value' : string)
         (expiration expiration' : Z),
    let now := Redis.now (server c) in
    let σ := Redis.store (server c) in
    let service := served prefix in
    let id := RedisClass.make_id service ctx k in
    at_rest c = true ->
    Redis.valid_expire expiration = true -> now < expiration ->
    expiration' = 0 \/ (Redis.valid_expire expiration' = true /\ now < expiration') ->
    σ !! SPREDIS_SID id = None -> σ !! version_of id = None ->
    fst ((created_ <- RedisStorageService.createString service ctx k value expiration ;;
          updated_ <- RedisStorageService.updateString service ctx k value' expiration' 0 ;;
          read <- RedisStorageService.readString service ctx k true true 0 ;;
          ret (created_, updated_, read)) c)
    = Ret (true, 2,
           mkRead 2 (Some value')
                  (Some (if expiration' =? 0 then expiration else expiration'))).
Proof.
  intros c prefix ctx k value value' expiration expiration'. rested c now σ sl w lg.
  set (id := RedisClass.make_id (served prefix) ctx k).
  intros Hvalid Hfuture Hexp' Hd Hv.
  unfold RedisStorageService.createString, RedisStorageService.updateString,
    RedisStorageService.readString.
  fold id. unfold served, single_instance.
  cbn [RedisClass.set RedisClass.updateVersioned RedisClass.forceUpdate
       RedisClass.getVersioned RedisClass.forceGet].
  change (0 >? 0) with false. cbv iota.
  unfold bind at 1.
  rewrite (set_neither now σ sl w lg id value expiration Hvalid Hfuture Hd Hv).
  set (σ1 := <[version_of id := created "1" expiration]>
               (<[SPREDIS_SID id := created value expiration]> σ)).
  assert (H1 : σ1 !! version_of id = Some (created "1" expiration))
    by apply lookup_insert_eq.
  assert (H2 : σ1 !! SPREDIS_SID id = Some (created value expiration)).
  { unfold σ1. rewrite lookup_insert_ne by keys_apart. apply lookup_insert_eq. }
  unfold bind at 1.
  rewrite (forceUpdate_present now σ1 id value' expiration' Hexp'
             (created value expiration) (created "1" expiration) 1 H2 H1 eq_refl
             ltac:(vm_compute; intuition discriminate)).
  change (1 + 1) with 2.
  unfold bind at 1.
  match goal with |- context [forceGet Redis.transport id true true ?c0] =>
    match c0 with mkConnection (Redis.mkState _ ?σ2 _ _ _ _ ?sl2) _ ?ww ?ll =>
      pose proof (forceGet_both now σ2 id (updated (pretty 2) expiration' (created "1" expiration))
                    (updated value' expiration' (created value expiration)) 2 sl2 ww ll) as Hr
    end
  end.
  destruct (forceGet Redis.transport id true true _) as [o c'].
  cbn [fst] in Hr. rewrite Hr.
  - cbn. destruct (expiration' =? 0); reflexivity.
  - destruct (expiration' =? 0); apply lookup_insert_eq.
  - destruct (expiration' =? 0);
      (rewrite lookup_insert_ne by keys_apart; apply lookup_insert_eq).
  - reflexivity.
Qed.

Lemma createString_updateString_readString_witness :
  fst ((created_ <- RedisStorageService.createString (served "") "s" "k" "hello" 2000 ;;
        updated_ <- RedisStorageService.updateString (served "") "s" "k" "bye" 0 0 ;;
        read <- RedisStorageService.readString (served "") "s" "k" true true 0 ;;
        ret (created_, updated_, read)) (connected (Redis.quiet 1000 ∅)))
  = Ret (true, 2, mkRead 2 (Some "bye") (Some 2000)).
Proof.
  apply (createString_updateString_readString (connected (Redis.quiet 1000 ∅)) "" "s" "k"
           "hello" "bye" 2000 0);
    [reflexivity | reflexivity | reflexivity | now left | reflexivity | reflexivity].
Defined.

(** ** The cluster part of the configuration (redis.cpp, redis.h) *)

Module ConfigurationFacts.
Import Configuration.

Local Open Scope list_scope.

Lemma hosts_loop_accepted (children : list DOMNode) (defaultPort : Z) :
  forall nodes : list ClusterNode,
    forallb (fun child => passed_over child || is_host child) children = true ->
    hosts_loop children defaultPort nodes = Ret (nodes ++ host_nodes defaultPort children).
Proof.
  induction children as [|child children IH]; intros nodes Hall.
  - cbn. now rewrite app_nil_r.
  - cbn [forallb] in Hall. apply andb_prop in Hall as [Hchild Hall].
    destruct child as [|v|name text p|]; cbn in Hchild; try discriminate.
    + cbn. now apply IH.
    + cbn [hosts_loop]. rewrite orb_false_r in Hchild. rewrite Hchild. cbn. now apply IH.
    + cbn [hosts_loop]. rewrite Hchild. cbn [negb].
      rewrite IH by exact Hall. cbn [host_nodes flat_map].
      now rewrite <- app_assoc.
Qed.

Lemma hosts_loop_refused (children : list DOMNode) (defaultPort : Z) :
  forall nodes : list ClusterNode,
    forallb (fun child => passed_over child || is_host child) children = false ->
    hosts_loop children defaultPort nodes = Throw XMLToolingException.
Proof.
  induction children as [|child children IH]; intros nodes Hall; [discriminate|].
  cbn [forallb] in Hall.
  destruct child as [|v|name text p|]; cbn in Hall |- *; try reflexivity.
  - now apply IH.
  - rewrite orb_false_r in Hall.
    destruct (all_of iswspace v); [now apply IH | reflexivity].
  - destruct (name =? "Host")%string; [now apply IH | reflexivity].
Qed.

Lemma passed_over_accepted (children : list DOMNode) :
  forallb passed_over children = true ->
  forallb (fun child => passed_over child || is_host child) children = true.
Proof.
  induction children as [|x l IH]; [reflexivity|].
  cbn [forallb]. intros Hall. apply andb_prop in Hall as [Hx Hl].
  rewrite Hx. cbn. now apply IH.
Qed.

Lemma passed_over_no_host (children : list DOMNode) (defaultPort : Z) :
  forallb passed_over children = true -> host_nodes defaultPort children = [].
Proof.
  induction children as [|x l IH]; [reflexivity|].
  cbn [forallb]. intros Hall. apply andb_prop in Hall as [Hx Hl].
  cbn [host_nodes flat_map]. destruct x; try discriminate; cbn; now apply IH.
Qed.

End ConfigurationFacts.

(** X28.  [readClusterConfig] takes the [Host] elements among the children
    of [Cluster] in document order, each with its port attribute or the
    port of the configuration, reduced to sixteen bits, and passes over
    comments and white space.  It throws when [Cluster] has no child at
    all, and when a child is anything else: text that is not white space,
    an element of another name, a node of another type. *)
Theorem readClusterConfig_takes_the_hosts :
  forall (children : list Configuration.DOMNode) (defaultPort : Z),
    Configuration.readClusterConfig (Some children) defaultPort
    = if (List.length children =? 0)%nat then Throw XMLToolingException
      else if forallb (fun child => passed_over child || is_host child) children
           then Ret (host_nodes defaultPort children)
           else Throw XMLToolingException.
Proof.
  intros children defaultPort. unfold Configuration.readClusterConfig.
  destruct (List.length children =? 0)%nat; [reflexivity|].
  destruct (forallb _ children) eqn:Hall.
  - now rewrite ConfigurationFacts.hosts_loop_accepted.
  - now apply ConfigurationFacts.hosts_loop_refused.
Qed.

(** X29.  A [Cluster] element that holds no [Host] but is not empty, white
    space or a comment being there, passes the test for at least one host:
    [readClusterConfig] returns no node at all, and a configuration with
    these initial nodes is not clustered. *)
Theorem cluster_without_host_is_not_clustered :
  forall (children : list Configuration.DOMNode) (defaultPort : Z),
    children <> [] ->
    forallb passed_over children = true ->
    Configuration.readClusterConfig (Some children) defaultPort = Ret []
    /\ forall config : RedisConfig,
         Configuration.readClusterConfig (Some children) defaultPort
         = Ret (initialNodes config) ->
         Configuration.clustered config = false.
Proof.
  intros children defaultPort Hne Hall.
  assert (Hread : Configuration.readClusterConfig (Some children) defaultPort = Ret []).
  { unfold Configuration.readClusterConfig.
    destruct children as [|child children]; [contradiction|].
    change (List.length (child :: children) =? 0)%nat with false. cbv iota.
    rewrite ConfigurationFacts.hosts_loop_accepted
      by now apply ConfigurationFacts.passed_over_accepted.
    now rewrite ConfigurationFacts.passed_over_no_host. }
  split; [exact Hread|].
  intros config Hconfig. rewrite Hread in Hconfig.
  unfold Configuration.clustered. injection Hconfig as <-. reflexivity.
Qed.

Lemma cluster_without_host_is_not_clustered_witness :
  Configuration.readClusterConfig
    (Some [Configuration.TEXT_NODE " "; Configuration.COMMENT_NODE]) 6379 = Ret []
  /\ forall config : RedisConfig,
       Configuration.readClusterConfig
         (Some [Configuration.TEXT_NODE " "; Configuration.COMMENT_NODE]) 6379
       = Ret (initialNodes config) ->
       Configuration.clustered config = false.
Proof.
  apply (cluster_without_host_is_not_clustered
           [Configuration.TEXT_NODE " "; Configuration.COMMENT_NODE] 6379);
    [discriminate | reflexivity].
Defined.
